(** * django-pushserver: the [runpushserver] management command

    A shallow embedding of
    [pushserver/management/commands/runpushserver.py]: the layered
    configuration merge, the store and location factories, the
    address/port resolution of [Command.handle] and the assembly done by
    [Command.run].

    Python dictionaries and lists are mutable objects, so they live in
    an explicit heap and are referred to by address; [copy], [update]
    and [pop] act on that heap exactly where the source calls them.
    Exceptions are results of a state-and-error monad. *)

From Stdlib Require Import ZArith String Ascii List Lia.
From stdpp Require Import base tactics option list gmap strings fin_maps.

Open Scope string_scope.
Open Scope list_scope.
Open Scope nat_scope.

(** ** Values and objects *)

(** The classes of [hbpush] the command refers to. *)
Inductive pyclass :=
| MemoryStore | RedisStore | Registry
| Publisher | LongPollingSubscriber | Subscriber.

(** Immutable Python values; [VRef] is the address of a mutable object. *)
#[warnings="-register-all"]
Inductive pyval :=
| VNone
| VBool (b : bool)
| VInt (z : Z)
| VStr (s : string)
| VTuple (vs : list pyval)
| VClass (c : pyclass)
| VRef (l : nat).

(** Heap objects.  Dictionaries are keyed by strings, as configuration
    dictionaries and keyword arguments are.  An instance of an [hbpush]
    class is opaque to this module: it is represented by its class and
    the arguments its constructor was called with. *)
Inductive obj :=
| ODict (d : gmap string pyval)
| OList (xs : list pyval)
| OInst (c : pyclass) (args : list pyval) (kwargs : gmap string pyval).

(** ** Exceptions *)

(** A message is either a literal or [template % (arg,)], kept
    unrendered so that the interpolated value stays visible. *)
Inductive message :=
| Msg (text : string)
| Fmt (template : string) (arg : pyval).

Inductive exn :=
| CommandError (m : message)
| KeyError (key : pyval)
| TypeError
| ValueError
| AttributeError
| IndexError.

Inductive result (A : Type) :=
| Ok (a : A)
| Raise (e : exn).
Arguments Ok {A} a.
Arguments Raise {A} e.

(** ** The world: heap, the command object, observable effects *)

(** The attributes [handle] sets on [self]. *)
Record command := Command {
  use_ipv6 : bool;
  _raw_ipv6 : bool;
  addr : option string;
  port : option string
}.

Inductive event :=
| StdoutWrite (shown_addr shown_port quit_command : string)
| SetLogLevel (level : string)
| Listen (handlers port address : pyval)
| IOLoopStart.

Record world := World {
  heap : list obj;
  self : command;
  trace : list event
}.

Definition with_heap (f : list obj → list obj) (w : world) : world :=
  World (f (heap w)) (self w) (trace w).
Definition with_self (f : command → command) (w : world) : world :=
  World (heap w) (f (self w)) (trace w).
Definition emit (e : event) (w : world) : world :=
  World (heap w) (self w) (trace w ++ [e]).

(** ** The monad *)

Definition M (A : Type) : Type := world → world * result A.

#[global] Instance M_ret : MRet M := λ A a w, (w, Ok a).
#[global] Instance M_bind : MBind M := λ A B f m w,
  match m w with
  | (w', Ok a) => f a w'
  | (w', Raise e) => (w', Raise e)
  end.

Definition raise {A} (e : exn) : M A := λ w, (w, Raise e).
Definition get_heap : M (list obj) := λ w, (w, Ok (heap w)).
Definition get_self : M command := λ w, (w, Ok (self w)).
Definition set_self (f : command → command) : M unit :=
  λ w, (with_self f w, Ok tt).
Definition tell (e : event) : M unit := λ w, (emit e w, Ok tt).

(** A new object gets the next free address. *)
Definition alloc (o : obj) : M pyval :=
  λ w, (with_heap (λ h, h ++ [o]) w, Ok (VRef (length (heap w)))).
Definition put_obj (l : nat) (o : obj) : M unit :=
  λ w, (with_heap (λ h, <[l := o]> h) w, Ok tt).

Fixpoint mapM {A B} (f : A → M B) (xs : list A) : M (list B) :=
  match xs with
  | [] => mret []
  | x :: xs' => y ← f x; ys ← mapM f xs'; mret (y :: ys)
  end.

(** ** The Python operations the command uses *)

Definition dquote : string := String "034"%char "".

(** [v == s] for a string literal [s]. *)
Definition py_eq_str (v : pyval) (s : string) : bool :=
  match v with
  | VStr s' => bool_decide (s' = s)
  | _ => false
  end.

(** Lists and dictionaries are unhashable, a tuple is hashable when its
    items are, the other values and the [hbpush] instances are
    hashable. *)
Fixpoint hashable (h : list obj) (v : pyval) : bool :=
  match v with
  | VTuple vs => forallb (hashable h) vs
  | VRef l =>
      match h !! l with
      | Some (OInst _ _ _) => true
      | _ => false
      end
  | _ => true
  end.

(** An integer index; [True] and [False] are the integers 1 and 0. *)
Definition py_index (k : pyval) : option Z :=
  match k with
  | VInt z => Some z
  | VBool b => Some (if b then 1 else 0)%Z
  | _ => None
  end.

(** [xs[z]], a negative [z] counting from the end. *)
Definition seq_item {A} (xs : list A) (z : Z) : option A :=
  let i := if (z <? 0)%Z then (z + Z.of_nat (length xs))%Z else z in
  if (i <? 0)%Z then None else xs !! Z.to_nat i.

Definition seq_subscript (xs : list pyval) (k : pyval) : M pyval :=
  match py_index k with
  | Some z =>
      match seq_item xs z with
      | Some x => mret x
      | None => raise IndexError
      end
  | None => raise TypeError
  end.

(** The one-character strings of a string, in order. *)
Fixpoint chars (s : string) : list pyval :=
  match s with
  | EmptyString => []
  | String c s' => VStr (String c "") :: chars s'
  end.

(** [v[k]]. *)
Definition subscript (v k : pyval) : M pyval :=
  h ← get_heap;
  match v with
  | VRef l =>
      match h !! l with
      | Some (ODict d) =>
          if hashable h k then
            match k with
            | VStr s =>
                match d !! s with
                | Some x => mret x
                | None => raise (KeyError k)
                end
            | _ => raise (KeyError k)
            end
          else raise TypeError
      | Some (OList xs) => seq_subscript xs k
      | _ => raise TypeError
      end
  | VTuple xs => seq_subscript xs k
  | VStr s => seq_subscript (chars s) k
  | _ => raise TypeError
  end.

Fixpoint is_substring (p s : string) : bool :=
  String.prefix p s ||
  match s with
  | EmptyString => false
  | String _ s' => is_substring p s'
  end.

(** [s in v] for a string literal [s]. *)
Definition contains (s : string) (v : pyval) : M bool :=
  h ← get_heap;
  match v with
  | VRef l =>
      match h !! l with
      | Some (ODict d) => mret (bool_decide (is_Some (d !! s)))
      | Some (OList xs) => mret (existsb (λ x, py_eq_str x s) xs)
      | _ => raise TypeError
      end
  | VTuple xs => mret (existsb (λ x, py_eq_str x s) xs)
  | VStr s' => mret (is_substring s s')
  | _ => raise TypeError
  end.

(** [d.copy()]. *)
Definition copy (v : pyval) : M pyval :=
  h ← get_heap;
  match v with
  | VRef l =>
      match h !! l with
      | Some (ODict d) => alloc (ODict d)
      | _ => raise AttributeError
      end
  | _ => raise AttributeError
  end.

(** [d.update(other)] where [other] is a dictionary: every key of
    [other] overwrites the key of [d].  This is the call of lines 65,
    91, 110 and 174, whose argument is a dictionary whenever the call is
    reached; any other argument is rejected here, and the call of line
    178, whose argument is the user's setting, is [update_from] below. *)
Definition update (v other : pyval) : M unit :=
  h ← get_heap;
  match v, other with
  | VRef l, VRef l' =>
      match h !! l, h !! l' with
      | Some (ODict d), Some (ODict d') => put_obj l (ODict (d' ∪ d))
      | Some (ODict d), _ => raise TypeError
      | _, _ => raise AttributeError
      end
  | VRef l, _ =>
      match h !! l with
      | Some (ODict d) => raise TypeError
      | _ => raise AttributeError
      end
  | _, _ => raise AttributeError
  end.

(** [d.pop(k)]. *)
Definition pop (v : pyval) (k : string) : M pyval :=
  h ← get_heap;
  match v with
  | VRef l =>
      match h !! l with
      | Some (ODict d) =>
          match d !! k with
          | Some x => put_obj l (ODict (delete k d));; mret x
          | None => raise (KeyError (VStr k))
          end
      | _ => raise AttributeError
      end
  | _ => raise AttributeError
  end.

(** [d.pop(k, dflt)]. *)
Definition pop_default (v : pyval) (k : string) (dflt : pyval) : M pyval :=
  h ← get_heap;
  match v with
  | VRef l =>
      match h !! l with
      | Some (ODict d) =>
          match d !! k with
          | Some x => put_obj l (ODict (delete k d));; mret x
          | None => mret dflt
          end
      | _ => raise AttributeError
      end
  | _ => raise AttributeError
  end.

(** [d.get(k, dflt)]. *)
Definition get (v k dflt : pyval) : M pyval :=
  h ← get_heap;
  match v with
  | VRef l =>
      match h !! l with
      | Some (ODict d) =>
          if hashable h k then
            match k with
            | VStr s => mret (default dflt (d !! s))
            | _ => mret dflt
            end
          else raise TypeError
      | _ => raise AttributeError
      end
  | _ => raise AttributeError
  end.

(** ** Module-level tables *)

Definition DEFAULT_PORT : string := "8001".

(** The dictionaries the module creates when it is imported. *)
Definition default_store_redis : gmap string pyval :=
  {[ "port" := VInt 6379; "host" := VStr "localhost";
     "key_prefix" := VStr ""; "database" := VInt 0 ]}.
Definition default_store_memory : gmap string pyval :=
  {[ "min_messages" := VInt 0; "max_messages" := VInt 0;
     "message_timeout" := VInt 0 ]}.
Definition default_location_subscriber : gmap string pyval :=
  {[ "polling" := VStr "long"; "create_on_get" := VBool false;
     "store" := VStr "default" ]}.
Definition default_location_publisher : gmap string pyval :=
  {[ "create_on_post" := VBool true; "store" := VStr "default" ]}.
Definition defaults_store : gmap string pyval :=
  {[ "type" := VStr "memory" ]}.
Definition defaults_publisher : gmap string pyval :=
  {[ "type" := VStr "publisher"; "prefix" := VStr "/publisher/" ]}.
Definition defaults_subscriber : gmap string pyval :=
  {[ "type" := VStr "subscriber"; "prefix" := VStr "/subscriber/" ]}.

(** The module's objects at their addresses: the per-type bundles
    first, then the tables that refer to them. *)
Definition module_heap : list obj :=
  [ (* 0: default_store['redis'] *)
    ODict default_store_redis;
    (* 1: default_store['memory'] *)
    ODict default_store_memory;
    (* 2: default_store *)
    ODict {[ "redis" := VRef 0; "memory" := VRef 1 ]};
    (* 3: default_location['subscriber'] *)
    ODict default_location_subscriber;
    (* 4: default_location['publisher'] *)
    ODict default_location_publisher;
    (* 5: default_location *)
    ODict {[ "subscriber" := VRef 3; "publisher" := VRef 4 ]};
    (* 6: defaults['store'] *)
    ODict defaults_store;
    (* 7, 8: the items of defaults['locations'] *)
    ODict defaults_publisher;
    ODict defaults_subscriber;
    (* 9: defaults *)
    ODict {[ "port" := VStr DEFAULT_PORT; "address" := VStr "127.0.0.1";
             "store" := VRef 6; "locations" := VTuple [VRef 7; VRef 8] ]} ].

Definition default_store : pyval := VRef 2.
Definition default_location : pyval := VRef 5.
Definition defaults : pyval := VRef 9.

(** ** Store factory *)

(** Lines 64-65 of [make_store]: the default bundle of the declared
    type, copied, with the entry laid over it. *)
Definition merge_store (store_dict : pyval) : M pyval :=
  ty ← subscript store_dict (VStr "type");
  empty ← alloc (ODict ∅);
  bundle ← get default_store ty empty;
  store_conf ← copy bundle;
  update store_conf store_dict;;
  mret store_conf.

(** The class called with [conf] unpacked into keyword arguments: the
    instance records them. *)
Definition construct (cls : pyclass) (conf : pyval) : M pyval :=
  h ← get_heap;
  match conf with
  | VRef l =>
      match h !! l with
      | Some (ODict d) => alloc (OInst cls [] d)
      | _ => raise TypeError
      end
  | _ => raise TypeError
  end.

(** Lines 67-79 of [make_store]: dispatch on [type] and construction. *)
Definition build_store (store_conf : pyval) : M pyval :=
  store_type ← pop store_conf "type";
  cls ← (if py_eq_str store_type "memory" then mret MemoryStore
         else if py_eq_str store_type "redis" then mret RedisStore
         else raise (CommandError
                (Fmt ("Invalid store type " +:+ dquote +:+ "%s" +:+ dquote +:+ ".")
                     store_type)));
  store ← construct cls store_conf;
  registry ← alloc (OInst Registry [store] ∅);
  alloc (ODict {[ "store" := store; "registry" := registry ]}).

Definition make_store (store_dict : pyval) : M pyval :=
  store_conf ← merge_store store_dict;
  build_store store_conf.

(** [dict(pairs)]: a later pair overwrites an earlier one with the same
    key. *)
Definition dict_of_pairs (pairs : list (string * pyval)) : gmap string pyval :=
  fold_left (λ m kv, <[kv.1 := kv.2]> m) pairs ∅.

(** ** Location factory *)

(** Lines 90-91 of [make_location]. *)
Definition merge_location (loc_dict : pyval) : M pyval :=
  ty ← subscript loc_dict (VStr "type");
  empty ← alloc (ODict ∅);
  bundle ← get default_location ty empty;
  loc_conf ← copy bundle;
  update loc_conf loc_dict;;
  mret loc_conf.

(** [a + b] where [b] is a string. *)
Definition py_add_str (a : pyval) (b : string) : M pyval :=
  match a with
  | VStr s => mret (VStr (s +:+ b))
  | _ => raise TypeError
  end.

(** Lines 93-111 of [make_location]. *)
Definition build_location (loc_conf stores : pyval) : M pyval :=
  loc_type ← pop loc_conf "type";
  cls ← (if py_eq_str loc_type "publisher" then mret Publisher
         else if py_eq_str loc_type "subscriber" then
           sub_type ← pop loc_conf "polling";
           if py_eq_str sub_type "long" then mret LongPollingSubscriber
           else if py_eq_str sub_type "interval" then mret Subscriber
           else raise (CommandError
                  (Fmt ("Invalid polling " +:+ dquote +:+ "%s" +:+ dquote +:+ ".")
                       sub_type))
         else raise (CommandError
                (Fmt ("Invalid location type " +:+ dquote +:+ "%s" +:+ dquote +:+ ".")
                     loc_type)));
  prefix ← pop_default loc_conf "prefix" (VStr "");
  pattern ← py_add_str prefix "(.+)";
  url ← pop_default loc_conf "url" pattern;
  store_id ← pop loc_conf "store";
  entry ← subscript stores store_id;
  registry ← subscript entry (VStr "registry");
  kwargs ← alloc (ODict {[ "registry" := registry ]});
  update kwargs loc_conf;;
  mret (VTuple [url; VClass cls; kwargs]).

Definition make_location (loc_dict stores : pyval) : M pyval :=
  stores ← (match stores with
            | VNone => alloc (ODict ∅)
            | _ => mret stores
            end);
  loc_conf ← merge_location loc_dict;
  build_location loc_conf stores.

(** ** The command *)

(** What [re.match(naiveip_re, s).groups()] returns: the groups [addr],
    [ipv4], [ipv6], [fqdn] and [port], [None] for a group that took no
    part in the match. *)
Record groups := Groups {
  g_addr : option string;
  g_ipv4 : option string;
  g_ipv6 : option string;
  g_fqdn : option string;
  g_port : option string
}.

(** Truth value of a string or [None]. *)
Definition truthy (o : option string) : bool :=
  match o with
  | Some s => negb (bool_decide (s = ""))
  | None => false
  end.

Definition is_digit (c : ascii) : bool :=
  let n := nat_of_ascii c in (48 <=? n) && (n <=? 57).

(** [s.isdigit()]: non-empty and digits only. *)
Definition isdigit (s : string) : bool :=
  negb (bool_decide (s = "")) && forallb is_digit (list_ascii_of_string s).

(** [s[1:-1]]. *)
Definition strip_ends (s : string) : string :=
  substring 1 (String.length s - 2) s.

(** ['%s' % x] for a string or [None]. *)
Definition str_of (o : option string) : string := default "None" o.

Definition val_of (o : option string) : pyval :=
  match o with
  | Some s => VStr s
  | None => VNone
  end.

(** Line 168: [self._raw_ipv6 and '[%s]' % self.addr or self.addr]. *)
Definition shown_addr (c : command) : string :=
  if _raw_ipv6 c then "[" +:+ str_of (addr c) +:+ "]" else str_of (addr c).

Definition set_use_ipv6 (b : bool) (c : command) : command :=
  Command b (_raw_ipv6 c) (addr c) (port c).
Definition set_raw_ipv6 (b : bool) (c : command) : command :=
  Command (use_ipv6 c) b (addr c) (port c).
Definition set_addr (a : option string) (c : command) : command :=
  Command (use_ipv6 c) (_raw_ipv6 c) a (port c).
Definition set_port (p : option string) (c : command) : command :=
  Command (use_ipv6 c) (_raw_ipv6 c) (addr c) p.

(** [d[k] = x]. *)
Definition setitem (v : pyval) (k : string) (x : pyval) : M unit :=
  h ← get_heap;
  match v with
  | VRef l =>
      match h !! l with
      | Some (ODict d) => put_obj l (ODict (<[k := x]> d))
      | _ => raise TypeError
      end
  | _ => raise TypeError
  end.

Section Command.

(** What the command takes from its environment. *)

(** The order in which a dictionary yields its keys. *)
Variable dict_order : gmap string pyval → list string.
(** [socket.has_ipv6]. *)
Variable has_ipv6 : bool.
(** [sys.platform]. *)
Variable platform : string.
(** Matching against Django's [runserver.naiveip_re]. *)
Variable naiveip_re : string → option groups.
(** [settings.PUSH_SERVER], when the attribute is set. *)
Variable PUSH_SERVER : option pyval.

(** [for k in v]: the items [v] yields. *)
Definition iterate (v : pyval) : M (list pyval) :=
  h ← get_heap;
  match v with
  | VRef l =>
      match h !! l with
      | Some (ODict d) => mret (VStr <$> dict_order d)
      | Some (OList xs) => mret xs
      | _ => raise TypeError
      end
  | VTuple xs => mret xs
  | VStr s => mret (chars s)
  | _ => raise TypeError
  end.

(** [dict(pairs)] for the pairs [make_stores] has collected.  The keys
    are those of the dictionary that was iterated, hence strings: a list,
    a tuple or a string never gets this far, since subscripting it with
    one of its own items, or making a store of what that yields, has
    raised before. *)
Definition as_key (k : pyval) : M string :=
  match k with
  | VStr s => mret s
  | _ => raise TypeError
  end.

(** One element of the sequence given to [dict.update]: it is made into
    a sequence, which has to be of length two, a key and a value; the key
    has to be hashable.  The dictionaries of this model hold their string
    keys: a key that is hashable and no string is not recorded, and no
    lookup of the command reads such a key of [conf]. *)
Definition update_item (v item : pyval) : M unit :=
  kv ← iterate item;
  match kv with
  | [k; x] =>
      h ← get_heap;
      if hashable h k then
        match k with
        | VStr s => setitem v s x
        | _ => mret tt
        end
      else raise TypeError
  | _ => raise ValueError
  end.

(** [d.update(other)] for any [other], as at line 178: a dictionary is
    merged key by key; anything else is iterated as a sequence of
    key/value pairs, which are set one after the other. *)
Definition update_from (v other : pyval) : M unit :=
  h ← get_heap;
  match v with
  | VRef l =>
      match h !! l with
      | Some (ODict _) =>
          match other with
          | VRef l' =>
              match h !! l' with
              | Some (ODict _) => update v other
              | _ => items ← iterate other;
                     mapM (update_item v) items;; mret tt
              end
          | _ => items ← iterate other;
                 mapM (update_item v) items;; mret tt
          end
      | _ => raise AttributeError
      end
  | _ => raise AttributeError
  end.

Definition dict_from (pairs : list (pyval * pyval)) : M pyval :=
  named ← mapM (λ kv, name ← as_key kv.1; mret (name, kv.2)) pairs;
  alloc (ODict (dict_of_pairs named)).

Definition make_stores (stores_dict : pyval) : M pyval :=
  single ← contains "type" stores_dict;
  stores_dict ← (if single : bool
                 then alloc (ODict {[ "default" := stores_dict ]})
                 else mret stores_dict);
  keys ← iterate stores_dict;
  pairs ← mapM (λ k, entry ← subscript stores_dict k;
                     made ← make_store entry;
                     mret (k, made)) keys;
  dict_from pairs.

Definition args_help : string := "[optional port number, or ipaddr:port]".

(** Lines 130-150 of [handle]: address and port from [addrport]. *)
Definition resolve (addrport : string) : M unit :=
  set_self (set_raw_ipv6 false);;
  (if bool_decide (addrport = "") then
     set_self (set_addr (Some ""));;
     set_self (set_port (Some DEFAULT_PORT))
   else
     match naiveip_re addrport with
     | None =>
         raise (CommandError
           (Fmt (dquote +:+ "%s" +:+ dquote +:+
                 " is not a valid port number or address:port pair.")
                (VStr addrport)))
     | Some m =>
         set_self (set_addr (g_addr m));;
         set_self (set_port (g_port m));;
         match g_port m with
         | None => raise AttributeError
         | Some p =>
             if negb (isdigit p) then
               raise (CommandError
                 (Fmt "%r is not a valid port number." (VStr p)))
             else if truthy (g_addr m) then
               if truthy (g_ipv6 m) then
                 set_self (set_addr (strip_ends <$> g_addr m));;
                 set_self (set_use_ipv6 true);;
                 set_self (set_raw_ipv6 true)
               else
                 c ← get_self;
                 if use_ipv6 c && negb (truthy (g_fqdn m)) then
                   raise (CommandError
                     (Fmt (dquote +:+ "%s" +:+ dquote +:+
                           " is not a valid IPv6 address.")
                          (val_of (g_addr m))))
                 else mret tt
             else mret tt
         end
     end);;
  c ← get_self;
  if negb (truthy (addr c)) then
    set_self (set_addr (Some (if use_ipv6 c then "::1" else "127.0.0.1")));;
    set_self (set_raw_ipv6 (use_ipv6 c))
  else mret tt.

(** Lines 153-191: the banner, the assembly and the listener. *)
Definition run : M unit :=
  c ← get_self;
  tell (StdoutWrite (shown_addr c) (str_of (port c))
          (if bool_decide (platform = "win32") then "CTRL-BREAK" else "CONTROL-C"));;
  conf ← copy defaults;
  overrides ← alloc (ODict {[ "port" := val_of (port c);
                               "address" := val_of (addr c) ]});
  update conf overrides;;
  empty ← alloc (ODict ∅);
  update_from conf (default empty PUSH_SERVER);;
  store ← subscript conf (VStr "store");
  stores ← make_stores store;
  setitem conf "store" stores;;
  stores ← subscript conf (VStr "store");
  locations ← subscript conf (VStr "locations");
  items ← iterate locations;
  bindings ← mapM (λ loc_dict, make_location loc_dict stores) items;
  handlers ← alloc (OList bindings);
  setitem conf "locations" handlers;;
  tell (SetLogLevel "INFO");;
  handlers ← subscript conf (VStr "locations");
  p ← subscript conf (VStr "port");
  a ← subscript conf (VStr "address");
  tell (Listen handlers p a);;
  tell IOLoopStart.

(** [handle(addrport, *args, use_ipv6=...)]. *)
Definition handle (addrport : string) (args : list string) (opt_ipv6 : bool)
  : M unit :=
  set_self (set_use_ipv6 opt_ipv6);;
  (if opt_ipv6 && negb has_ipv6 then
     raise (CommandError (Msg "Your Python does not support IPv6."))
   else mret tt);;
  (match args with
   | [] => mret tt
   | _ => raise (CommandError (Fmt "Usage is runpushserver %s" (VStr args_help)))
   end);;
  resolve addrport;;
  run.

End Command.

(** A world right after the module is imported. *)
Definition initial_world : world :=
  World module_heap (Command false false None None) [].

(** * Notions used in the statements *)

(** The bundle a table of defaults holds for a declared type: empty when
    the type is not a key of the table. *)
Definition bundle_of (h : list obj) (table ty : pyval) : gmap string pyval :=
  match table, ty with
  | VRef tl, VStr s =>
      match h !! tl with
      | Some (ODict tab) =>
          match tab !! s with
          | Some (VRef b) =>
              match h !! b with
              | Some (ODict d) => d
              | _ => ∅
              end
          | _ => ∅
          end
      | _ => ∅
      end
  | _, _ => ∅
  end.

(** Every entry of a table of defaults is the address of a dictionary. *)
Definition table_ok (h : list obj) (table : pyval) : Prop :=
  ∃ tl tab, table = VRef tl ∧ h !! tl = Some (ODict tab) ∧
    ∀ s v, tab !! s = Some v → ∃ b d, v = VRef b ∧ h !! b = Some (ODict d).

(** The shape shared by lines 64-65 and lines 90-91. *)
Definition merge_with (table entry : pyval) : M pyval :=
  ty ← subscript entry (VStr "type");
  empty ← alloc (ODict ∅);
  bundle ← get table ty empty;
  conf ← copy bundle;
  update conf entry;;
  mret conf.

(** The class a store type selects, if any. *)
Definition store_class (ty : pyval) : option pyclass :=
  if py_eq_str ty "memory" then Some MemoryStore
  else if py_eq_str ty "redis" then Some RedisStore
  else None.

Definition invalid_store_type (ty : pyval) : exn :=
  CommandError
    (Fmt ("Invalid store type " +:+ dquote +:+ "%s" +:+ dquote +:+ ".") ty).

(** [v] is the address of an object at or above [n]. *)
Definition fresh (n : nat) (v : pyval) : Prop := ∃ l, v = VRef l ∧ n ≤ l.

(** [keeps ok n m Q]: run in a heap of at least [n] objects, [m] leaves
    the objects below [n] as they are, never shrinks the heap, emits
    only events that satisfy [ok], and its result satisfies [Q]. *)
Definition keeps {A} (ok : event → Prop) (n : nat) (m : M A) (Q : A → Prop)
  : Prop :=
  ∀ w, n ≤ length (heap w) →
    take n (heap (m w).1) = take n (heap w) ∧
    length (heap w) ≤ length (heap (m w).1) ∧
    (∃ evs, trace (m w).1 = trace w ++ evs ∧ Forall ok evs) ∧
    ∀ a, (m w).2 = Ok a → Q a.

(** The events other than binding the listening socket. *)
Definition not_listen (e : event) : Prop :=
  match e with
  | Listen _ _ _ => False
  | _ => True
  end.

Definition no_event (e : event) : Prop := False.

Definition any {A} : A → Prop := λ _, True.

(** A value that is a store configuration of a known type. *)
Definition valid_store_conf (h : list obj) (v : pyval) : Prop :=
  ∃ l d ty cls,
    v = VRef l ∧ h !! l = Some (ODict d) ∧
    d !! "type" = Some ty ∧ store_class ty = Some cls.

(** [entry] is what the store factory makes of the configuration [v]:
    a dictionary holding an instance of the class of the declared type,
    constructed from the merged configuration without its [type], and a
    registry wrapping that instance. *)
Definition resolved_store (h : list obj) (v entry : pyval) : Prop :=
  ∃ l d ty cls s g e,
    v = VRef l ∧ h !! l = Some (ODict d) ∧
    d !! "type" = Some ty ∧ store_class ty = Some cls ∧
    h !! s = Some (OInst cls []
               (delete "type" (d ∪ bundle_of module_heap default_store ty))) ∧
    h !! g = Some (OInst Registry [VRef s] ∅) ∧
    entry = VRef e ∧
    h !! e = Some (ODict {[ "store" := VRef s; "registry" := VRef g ]}).

(** The stores a [stores] value names: itself under ["default"] when it
    has a [type] key, its own entries otherwise. *)
Definition named_stores (sl : nat) (sd : gmap string pyval)
  : gmap string pyval :=
  if bool_decide (is_Some (sd !! "type")) then {[ "default" := VRef sl ]}
  else sd.

(** An iteration order, for examples: the order of [map_to_list]. *)
Definition listed_order (d : gmap string pyval) : list string :=
  (map_to_list d).*1.

(** [m] has not bound the listening socket whenever it raises. *)
Definition aborts_unbound {A} (n : nat) (m : M A) : Prop :=
  ∀ w e, n ≤ length (heap w) → (m w).2 = Raise e →
    ∃ evs, trace (m w).1 = trace w ++ evs ∧ Forall not_listen evs.

(** The handler class a merged location configuration selects. *)
Definition location_class (d : gmap string pyval) : option pyclass :=
  match d !! "type" with
  | Some ty =>
      if py_eq_str ty "publisher" then Some Publisher
      else if py_eq_str ty "subscriber" then
        match d !! "polling" with
        | Some p =>
            if py_eq_str p "long" then Some LongPollingSubscriber
            else if py_eq_str p "interval" then Some Subscriber
            else None
        | None => None
        end
      else None
  | None => None
  end.

(** The merged configuration once the dispatch has consumed [type] and,
    for a subscriber, [polling]. *)
Definition after_dispatch (d : gmap string pyval) : gmap string pyval :=
  match d !! "type" with
  | Some ty =>
      if py_eq_str ty "publisher" then delete "type" d
      else if py_eq_str ty "subscriber" then delete "polling" (delete "type" d)
      else delete "type" d
  | None => d
  end.

(** The URL pattern of a merged location configuration: [url] when
    given, else [prefix] followed by the capture group. *)
Definition location_url (d : gmap string pyval) : option pyval :=
  match default (VStr "") (d !! "prefix") with
  | VStr p => Some (default (VStr (p +:+ "(.+)")) (d !! "url"))
  | _ => None
  end.

(** The fields forwarded to the handler. *)
Definition location_rest (d : gmap string pyval) : gmap string pyval :=
  delete "store" (delete "url" (delete "prefix" (after_dispatch d))).

Definition invalid_location_type (ty : pyval) : exn :=
  CommandError
    (Fmt ("Invalid location type " +:+ dquote +:+ "%s" +:+ dquote +:+ ".") ty).

Definition invalid_polling (p : pyval) : exn :=
  CommandError
    (Fmt ("Invalid polling " +:+ dquote +:+ "%s" +:+ dquote +:+ ".") p).

(** The three errors [handle] raises about the form of [addrport]. *)
Definition not_a_pair (s : string) : exn :=
  CommandError
    (Fmt (dquote +:+ "%s" +:+ dquote +:+
          " is not a valid port number or address:port pair.") (VStr s)).

Definition not_a_port (p : string) : exn :=
  CommandError (Fmt "%r is not a valid port number." (VStr p)).

Definition not_an_ipv6_address (a : option string) : exn :=
  CommandError
    (Fmt (dquote +:+ "%s" +:+ dquote +:+ " is not a valid IPv6 address.")
         (val_of a)).

Inductive address_format_error : exn → Prop :=
| afe_pair s : address_format_error (not_a_pair s)
| afe_port p : address_format_error (not_a_port p)
| afe_ipv6 a : address_format_error (not_an_ipv6_address a).

(** The malformed non-empty inputs: no match at all, a port that is not
    all digits, or, with the IPv6 flag, a host that is neither a
    bracketed literal nor an FQDN. *)
Inductive malformed (naiveip_re : string → option groups) (opt_ipv6 : bool)
  (s : string) : Prop :=
| mal_no_match :
    naiveip_re s = None → malformed naiveip_re opt_ipv6 s
| mal_port m p :
    naiveip_re s = Some m → g_port m = Some p → isdigit p = false →
    malformed naiveip_re opt_ipv6 s
| mal_not_ipv6 m p :
    naiveip_re s = Some m → g_port m = Some p → isdigit p = true →
    truthy (g_addr m) = true → truthy (g_ipv6 m) = false →
    truthy (g_fqdn m) = false → opt_ipv6 = true →
    malformed naiveip_re opt_ipv6 s.

(** The host [handle] falls back to. *)
Definition default_host (ipv6 : bool) : string :=
  if ipv6 then "::1" else "127.0.0.1".

(** Lines 93-105 of [make_location] on their own: the class selected by
    [type] and, for a subscriber, [polling]. *)
Definition location_dispatch (conf : pyval) : M pyclass :=
  loc_type ← pop conf "type";
  if py_eq_str loc_type "publisher" then mret Publisher
  else if py_eq_str loc_type "subscriber" then
    sub_type ← pop conf "polling";
    if py_eq_str sub_type "long" then mret LongPollingSubscriber
    else if py_eq_str sub_type "interval" then mret Subscriber
    else raise (CommandError
           (Fmt ("Invalid polling " +:+ dquote +:+ "%s" +:+ dquote +:+ ".")
                sub_type))
  else raise (CommandError
         (Fmt ("Invalid location type " +:+ dquote +:+ "%s" +:+ dquote +:+ ".")
              loc_type)).

(** * Instances for the examples *)

(** A matcher with the shape of Django's [naiveip_re]: an optional
    host, which is a dotted quad, a bracketed IPv6 literal or dotted
    labels, followed by a colon; then a port made of digits. *)
Definition code (ch : ascii) : nat := nat_of_ascii ch.

Definition is_hex_or_colon (ch : ascii) : bool :=
  is_digit ch || ((97 <=? code ch) && (code ch <=? 102))
  || ((65 <=? code ch) && (code ch <=? 70)) || (code ch =? 58).

Definition is_label_char (ch : ascii) : bool :=
  is_digit ch || ((97 <=? code ch) && (code ch <=? 122))
  || ((65 <=? code ch) && (code ch <=? 90)) || (code ch =? 45).

(** The text before and after the last colon. *)
Fixpoint rsplit_colon (s : string) : option (string * string) :=
  match s with
  | EmptyString => None
  | String ch s' =>
      match rsplit_colon s' with
      | Some (a, b) => Some (String ch a, b)
      | None => if code ch =? 58 then Some (EmptyString, s') else None
      end
  end.

(** The labels between dots. *)
Fixpoint split_dots (s : string) : list string :=
  match s with
  | EmptyString => [EmptyString]
  | String ch s' =>
      if code ch =? 46 then EmptyString :: split_dots s'
      else match split_dots s' with
           | lbl :: lbls => String ch lbl :: lbls
           | [] => [String ch EmptyString]
           end
  end.

Definition is_ipv4 (s : string) : bool :=
  (length (split_dots s) =? 4) &&
  forallb (λ lbl, isdigit lbl && (String.length lbl <=? 3)) (split_dots s).

Definition is_bracketed (s : string) : bool :=
  bool_decide (s = "[" +:+ strip_ends s +:+ "]") &&
  negb (bool_decide (strip_ends s = "")) &&
  forallb is_hex_or_colon (list_ascii_of_string (strip_ends s)).

Definition is_fqdn (s : string) : bool :=
  forallb (λ lbl, negb (bool_decide (lbl = "")) &&
                  forallb is_label_char (list_ascii_of_string lbl))
          (split_dots s).

(** [$] also matches before a newline that ends the string. *)
Fixpoint chomp (s : string) : string :=
  match s with
  | EmptyString => EmptyString
  | String ch s' =>
      if (code ch =? 10) && bool_decide (s' = "") then EmptyString
      else String ch (chomp s')
  end.

Definition django_naiveip_re (input : string) : option groups :=
  let s := chomp input in
  match rsplit_colon s with
  | None =>
      if isdigit s then Some (Groups None None None None (Some s)) else None
  | Some (host, p) =>
      if isdigit p then
        if is_ipv4 host then
          Some (Groups (Some host) (Some host) None None (Some p))
        else if is_bracketed host then
          Some (Groups (Some host) None (Some host) None (Some p))
        else if is_fqdn host then
          Some (Groups (Some host) None None (Some host) (Some p))
        else None
      else None
  end.

(** A command object before [handle] has run. *)
Definition fresh_command : command := Command false false None None.

(** The module heap followed by a store entry that overrides one key. *)
Definition heap_with_store : list obj :=
  module_heap ++
  [ ODict {[ "type" := VStr "memory"; "max_messages" := VInt 50 ]} ].

(** The module heap followed by an entry without a [type]. *)
Definition heap_without_type : list obj :=
  module_heap ++ [ ODict {[ "host" := VStr "cache.example.org" ]} ].

(** The module heap followed by a store entry of an unknown type. *)
Definition heap_with_sqlite : list obj :=
  module_heap ++ [ ODict {[ "type" := VStr "sqlite" ]} ].

(** The module heap followed by two store entries and the map that
    names them. *)
Definition heap_with_two_stores : list obj :=
  module_heap ++
  [ ODict {[ "type" := VStr "memory" ]};
    ODict {[ "type" := VStr "redis"; "host" := VStr "h" ]};
    ODict {[ "a" := VRef 10; "b" := VRef 11 ]} ].


(** * Further notions *)

(** [m] writes nothing to the trace. *)
Definition quiet {A} (m : M A) : Prop := ∀ w, trace (m w).1 = trace w.

(** The banner [run] writes for a command object on a platform. *)
Definition banner (platform : string) (c : command) : event :=
  StdoutWrite (shown_addr c) (str_of (port c))
    (if bool_decide (platform = "win32") then "CTRL-BREAK" else "CONTROL-C").

(** The merged configuration of a location entry [d] of declared type
    [ty]. *)
Definition location_conf (d : gmap string pyval) (ty : pyval)
  : gmap string pyval :=
  d ∪ bundle_of module_heap default_location ty.

(** The keyword arguments of a binding: the forwarded fields laid over
    the registry. *)
Definition location_kwargs (conf : gmap string pyval) (reg : pyval)
  : gmap string pyval :=
  location_rest conf ∪ {[ "registry" := reg ]}.

(** The store map at [sl] binds the name [s] to a resolved store whose
    registry is [reg]. *)
Definition store_resolves (h : list obj) (sl : nat) (s : string) (reg : pyval)
  : Prop :=
  ∃ sm el ed,
    h !! sl = Some (ODict sm) ∧ sm !! s = Some (VRef el) ∧
    h !! el = Some (ODict ed) ∧ ed !! "registry" = Some reg.

(** The keys the location factory consumes or sets itself. *)
Definition location_keys : list string :=
  ["type"; "polling"; "prefix"; "url"; "store"; "registry"].

(** A store entry the factory cannot make a store of: one without a
    [type], or with a [type] that is neither [memory] nor [redis]. *)
Definition invalid_store_entry (h : list obj) (d : gmap string pyval) : Prop :=
  d !! "type" = None ∨
  ∃ ty, d !! "type" = Some ty ∧ hashable h ty = true ∧ store_class ty = None.

(** [v] is the address of a dictionary. *)
Definition is_dict (h : list obj) (v : pyval) : Prop :=
  ∃ l d, v = VRef l ∧ h !! l = Some (ODict d).

(** The values a settings module holds: [None], booleans, numbers,
    strings, tuples, lists and dictionaries, as opposed to classes and to
    the instances of the [hbpush] classes. *)
Definition is_data (h : list obj) (v : pyval) : Prop :=
  match v with
  | VClass _ => False
  | VRef l =>
      match h !! l with
      | Some (ODict _) | Some (OList _) => True
      | _ => False
      end
  | _ => True
  end.

(** The three handler classes. *)
Definition handler_class (cls : pyclass) : Prop :=
  cls = Publisher ∨ cls = LongPollingSubscriber ∨ cls = Subscriber.

(** The exceptions the store factory raises. *)
Definition store_error (e : exn) : Prop :=
  e = TypeError ∨ e = KeyError (VStr "type") ∨ ∃ ty, e = invalid_store_type ty.

(** ** Further instances for the examples *)

(** A command object after [handle] has read an empty address. *)
Definition local_command : command :=
  Command false false (Some "127.0.0.1") (Some "8001").

(** The module heap followed by a [PUSH_SERVER] setting that gives a
    port only. *)
Definition heap_with_port_setting : list obj :=
  module_heap ++ [ ODict {[ "port" := VStr "9000" ]} ].

(** The module heap followed by a resolved memory store, the store map
    that names it ["default"], and a subscriber entry. *)
Definition subscriber_entry : gmap string pyval :=
  {[ "type" := VStr "subscriber"; "polling" := VStr "interval";
     "prefix" := VStr "/feed/"; "timeout" := VInt 30 ]}.

Definition heap_with_location : list obj :=
  module_heap ++
  [ OInst MemoryStore [] default_store_memory;
    OInst Registry [VRef 10] ∅;
    ODict {[ "store" := VRef 10; "registry" := VRef 11 ]};
    ODict {[ "default" := VRef 12 ]};
    ODict subscriber_entry ].

(** The module heap followed by a map of stores in which a store is
    named ["type"]. *)
Definition heap_with_store_named_type : list obj :=
  module_heap ++
  [ ODict {[ "type" := VRef 11; "cache" := VRef 11 ]};
    ODict {[ "type" := VStr "redis" ]} ].

(** The module heap followed by a memory store, a store of an unknown
    type, and the map that names them. *)
Definition heap_with_bad_store : list obj :=
  module_heap ++
  [ ODict {[ "type" := VStr "memory" ]};
    ODict {[ "type" := VStr "sqlite" ]};
    ODict {[ "a" := VRef 10; "b" := VRef 11 ]} ].

(** ** The settings a run works with *)

(** The dictionary [defaults] of the module. *)
Definition defaults_conf : gmap string pyval :=
  {[ "port" := VStr DEFAULT_PORT; "address" := VStr "127.0.0.1";
     "store" := VRef 6; "locations" := VTuple [VRef 7; VRef 8] ]}.

(** Lines 173-178: the configuration of a run whose [PUSH_SERVER]
    setting is the dictionary [psd]. *)
Definition run_conf (c : command) (psd : gmap string pyval)
  : gmap string pyval :=
  psd ∪ ({[ "port" := val_of (port c); "address" := val_of (addr c) ]}
         ∪ defaults_conf).

(** The entries of a [locations] value that is a tuple or a list. *)
Definition location_items (h : list obj) (locs : pyval)
  : option (list pyval) :=
  match locs with
  | VTuple xs => Some xs
  | VRef l =>
      match h !! l with
      | Some (OList xs) => Some xs
      | _ => None
      end
  | _ => None
  end.

(** A location entry with an unknown discriminator, and the error the
    factory raises for it: a [type] other than [publisher] and
    [subscriber], or, for a subscriber, a [polling] other than [long]
    and [interval]. *)
Definition invalid_location_entry (h : list obj) (d : gmap string pyval)
  (e : exn) : Prop :=
  (∃ ty, d !! "type" = Some ty ∧ hashable h ty = true ∧
         ty ≠ VStr "publisher" ∧ ty ≠ VStr "subscriber" ∧
         e = invalid_location_type ty) ∨
  (∃ p, d !! "type" = Some (VStr "subscriber") ∧ d !! "polling" = Some p ∧
        p ≠ VStr "long" ∧ p ≠ VStr "interval" ∧
        e = invalid_polling p).

(** ** Settings for the examples *)

(** The module heap followed by a location entry of the type
    ["websocket"] and by a setting whose one location it is. *)
Definition heap_with_websocket : list obj :=
  module_heap ++
  [ ODict {[ "type" := VStr "websocket" ]};
    ODict {[ "locations" := VTuple [VRef 10] ]} ].


(** * Reasoning principles *)

(** ** Running a computation step by step *)

Lemma bind_ok {A B} (m : M A) (f : A → M B) w w' a :
  m w = (w', Ok a) → (m ≫= f) w = f a w'.
Proof. intros E. unfold mbind, M_bind. by rewrite E. Qed.

Lemma bind_raise {A B} (m : M A) (f : A → M B) w w' e :
  m w = (w', Raise e) → (m ≫= f) w = (w', Raise e).
Proof. intros E. unfold mbind, M_bind. by rewrite E. Qed.

(** ** Reading a run backwards *)

Lemma bind_cases {A B} (m : M A) (f : A → M B) w w2 r :
  (m ≫= f) w = (w2, r) →
  (∃ w1 a, m w = (w1, Ok a) ∧ f a w1 = (w2, r)) ∨
  (∃ e, m w = (w2, Raise e) ∧ r = Raise e).
Proof.
  unfold mbind, M_bind. destruct (m w) as [w1 [a|e]]; intros E.
  - left. eauto.
  - right. exists e. by inversion E.
Qed.

Lemma bind_ok_inv {A B} (m : M A) (f : A → M B) w w2 b :
  (m ≫= f) w = (w2, Ok b) → ∃ w1 a, m w = (w1, Ok a) ∧ f a w1 = (w2, Ok b).
Proof. intros E. by destruct (bind_cases _ _ _ _ _ E) as [?|(? & ? & ?)]. Qed.

(** ** Induction on values, through tuples *)

Lemma pyval_ind' (P : pyval → Prop) :
  P VNone → (∀ b, P (VBool b)) → (∀ z, P (VInt z)) → (∀ s, P (VStr s)) →
  (∀ vs, Forall P vs → P (VTuple vs)) →
  (∀ c, P (VClass c)) → (∀ l, P (VRef l)) →
  ∀ v, P v.
Proof.
  intros HN HB HI HS HT HC HR.
  fix IH 1. intros [| b | z | s | vs | c | l];
    [apply HN | apply HB | apply HI | apply HS | | apply HC | apply HR].
  apply HT. induction vs as [|v vs IHvs]; constructor; [apply IH | apply IHvs].
Qed.

(** Hashability survives allocation. *)
Lemma hashable_app h k v : hashable h v = true → hashable (h ++ k) v = true.
Proof.
  induction v as [| | | | vs IH | |l] using pyval_ind'; simpl; auto.
  - induction IH as [|v vs Hv _ IHvs]; simpl; [done|].
    rewrite !andb_true_iff. intros [? ?]. auto.
  - destruct (h !! l) as [o|] eqn:E; [|done].
    by rewrite (lookup_app_l_Some _ _ _ _ E).
Qed.


(** ** What each operation does on a known heap *)

Section Operations.
Context (H : list obj) (c : command) (t : list event).
Local Abbreviation W := (World H c t).

Lemma alloc_run o : alloc o W = (World (H ++ [o]) c t, Ok (VRef (length H))).
Proof. done. Qed.

Lemma subscript_found l d s x :
  H !! l = Some (ODict d) → d !! s = Some x →
  subscript (VRef l) (VStr s) W = (W, Ok x).
Proof.
  intros Hl Hs. unfold subscript, mbind, M_bind, get_heap. simpl.
  by rewrite Hl, Hs.
Qed.

Lemma subscript_missing l d s :
  H !! l = Some (ODict d) → d !! s = None →
  subscript (VRef l) (VStr s) W = (W, Raise (KeyError (VStr s))).
Proof.
  intros Hl Hs. unfold subscript, mbind, M_bind, get_heap. simpl.
  by rewrite Hl, Hs.
Qed.

Lemma get_run l d k dflt :
  H !! l = Some (ODict d) → hashable H k = true →
  get (VRef l) k dflt W =
    (W, Ok (match k with VStr s => default dflt (d !! s) | _ => dflt end)).
Proof.
  intros Hl Hk. unfold get, mbind, M_bind, get_heap. simpl.
  rewrite Hl, Hk. by destruct k.
Qed.

Lemma copy_run l d :
  H !! l = Some (ODict d) →
  copy (VRef l) W = (World (H ++ [ODict d]) c t, Ok (VRef (length H))).
Proof.
  intros Hl. unfold copy, mbind, M_bind, get_heap. simpl. by rewrite Hl.
Qed.

Lemma update_run l d l' d' :
  H !! l = Some (ODict d) → H !! l' = Some (ODict d') →
  update (VRef l) (VRef l') W = (World (<[l := ODict (d' ∪ d)]> H) c t, Ok tt).
Proof.
  intros Hl Hl'. unfold update, mbind, M_bind, get_heap. simpl.
  by rewrite Hl, Hl'.
Qed.

Lemma pop_found l d k x :
  H !! l = Some (ODict d) → d !! k = Some x →
  pop (VRef l) k W = (World (<[l := ODict (delete k d)]> H) c t, Ok x).
Proof.
  intros Hl Hk. unfold pop, mbind, M_bind, get_heap. simpl.
  by rewrite Hl, Hk.
Qed.

Lemma pop_missing l d k :
  H !! l = Some (ODict d) → d !! k = None →
  pop (VRef l) k W = (W, Raise (KeyError (VStr k))).
Proof.
  intros Hl Hk. unfold pop, mbind, M_bind, get_heap. simpl.
  by rewrite Hl, Hk.
Qed.

Lemma pop_default_run l d k dflt :
  H !! l = Some (ODict d) →
  pop_default (VRef l) k dflt W =
    (World (<[l := ODict (delete k d)]> H) c t, Ok (default dflt (d !! k))).
Proof.
  intros Hl. unfold pop_default, mbind, M_bind, get_heap. simpl.
  rewrite Hl. destruct (d !! k) as [x|] eqn:Hk; simpl; [done|].
  rewrite delete_id by done. by rewrite list_insert_id.
Qed.

Lemma construct_run cls l d :
  H !! l = Some (ODict d) →
  construct cls (VRef l) W =
    (World (H ++ [OInst cls [] d]) c t, Ok (VRef (length H))).
Proof.
  intros Hl. unfold construct, mbind, M_bind, get_heap. simpl. by rewrite Hl.
Qed.

Lemma contains_dict s l d :
  H !! l = Some (ODict d) →
  contains s (VRef l) W = (W, Ok (bool_decide (is_Some (d !! s)))).
Proof.
  intros Hl. unfold contains, mbind, M_bind, get_heap. simpl. by rewrite Hl.
Qed.

Lemma setitem_run l d k x :
  H !! l = Some (ODict d) →
  setitem (VRef l) k x W = (World (<[l := ODict (<[k := x]> d)]> H) c t, Ok tt).
Proof.
  intros Hl. unfold setitem, mbind, M_bind, get_heap. simpl. by rewrite Hl.
Qed.

End Operations.

(** A subscript leaves the world as it is. *)
Lemma seq_subscript_pure xs k w : (seq_subscript xs k w).1 = w.
Proof.
  unfold seq_subscript. destruct (py_index k); [|done].
  by destruct (seq_item xs z).
Qed.

Lemma subscript_pure v k w : (subscript v k w).1 = w.
Proof.
  unfold subscript, mbind, M_bind, get_heap.
  destruct v as [| | |s|vs| |l]; try done; try apply seq_subscript_pure.
  destruct (heap w !! l) as [[d|xs|]|]; try done; try apply seq_subscript_pure.
  destruct (hashable (heap w) k); [|done].
  destruct k; try done. by destruct (d !! s).
Qed.

Lemma subscript_world v k w w' r : subscript v k w = (w', r) → w' = w.
Proof. intros E. by rewrite <- (subscript_pure v k w), E. Qed.

(** ** Addresses in a heap that has grown *)

Lemma lookup_grown {A} (h k : list A) i : (h ++ k) !! (length h + i) = k !! i.
Proof. rewrite lookup_app_r by lia. f_equal. lia. Qed.

Lemma lookup_grown_0 {A} (h k : list A) : (h ++ k) !! length h = k !! 0.
Proof. rewrite <- (lookup_grown h k 0). by rewrite Nat.add_0_r. Qed.

Lemma insert_grown {A} (h k : list A) i x :
  <[length h + i := x]> (h ++ k) = h ++ <[i := x]> k.
Proof. apply insert_app_r. Qed.

Lemma insert_grown_0 {A} (h k : list A) x :
  <[length h := x]> (h ++ k) = h ++ <[0 := x]> k.
Proof. rewrite <- (insert_grown h k 0). by rewrite Nat.add_0_r. Qed.

Lemma lookup_kept {A} (h k : list A) i x :
  h !! i = Some x → (h ++ k) !! i = Some x.
Proof. apply lookup_app_l_Some. Qed.

Lemma module_lookup H l o :
  module_heap `prefix_of` H → module_heap !! l = Some o → H !! l = Some o.
Proof. intros [k ->]. apply lookup_kept. Qed.

(** Looking an address up in a heap of the form [h ++ news]. *)
Ltac heap_lookup :=
  first
    [ eassumption
    | rewrite lookup_grown_0; reflexivity
    | rewrite lookup_grown; reflexivity
    | reflexivity
    | apply lookup_kept; heap_lookup
    | eapply module_lookup; [eassumption | reflexivity] ].

(** Bringing a heap back to the form [h ++ news], addresses to the
    form [length h + i]. *)
Ltac heap_norm :=
  rewrite <- ?app_assoc; simpl app;
  rewrite ?insert_grown_0, ?insert_grown; simpl insert;
  rewrite ?length_app; simpl length;
  rewrite <- ?Nat.add_assoc; simpl Nat.add.

(** ** The merge step *)


Lemma merge_store_unfold v : merge_store v = merge_with default_store v.
Proof. done. Qed.

Lemma merge_location_unfold v : merge_location v = merge_with default_location v.
Proof. done. Qed.

Lemma merge_with_run H c t table l d ty :
  table_ok H table →
  H !! l = Some (ODict d) → d !! "type" = Some ty → hashable H ty = true →
  merge_with table (VRef l) (World H c t) =
    (World (H ++ [ODict ∅; ODict (d ∪ bundle_of H table ty)]) c t,
     Ok (VRef (length H + 1))).
Proof.
  intros (tl & tab & -> & Htl & Htab) Hl Hty Hh. unfold merge_with.
  rewrite (bind_ok _ _ _ _ _ (subscript_found _ _ _ _ _ _ _ Hl Hty)).
  rewrite (bind_ok _ _ _ _ _ (alloc_run _ _ _ _)).
  rewrite (bind_ok _ _ _ _ _ (get_run _ _ _ _ _ _ _
             (lookup_kept _ _ _ _ Htl) (hashable_app _ _ _ Hh))).
  assert (∃ src bd,
    match ty with
    | VStr s => default (VRef (length H)) (tab !! s)
    | _ => VRef (length H)
    end = VRef src ∧
    (H ++ [ODict ∅]) !! src = Some (ODict bd) ∧
    bundle_of H (VRef tl) ty = bd) as (src & bd & -> & Hsrc & ->).
  { unfold bundle_of. rewrite Htl.
    assert ((H ++ [ODict ∅]) !! length H = Some (ODict ∅)) as Hnew
      by (by rewrite lookup_grown_0).
    destruct ty as [| | |s| | |]; try (by exists (length H), ∅).
    destruct (tab !! s) as [v|] eqn:Hs; simpl; [|by exists (length H), ∅].
    destruct (Htab _ _ Hs) as (b & bd & -> & Hb).
    exists b, bd. rewrite Hb. eauto using lookup_kept. }
  rewrite (bind_ok _ _ _ _ _ (copy_run _ _ _ _ _ Hsrc)).
  erewrite bind_ok; last first.
  { eapply update_run; heap_lookup. }
  rewrite insert_grown_0. simpl. rewrite <- app_assoc. simpl.
  rewrite length_app. done.
Qed.

(** The module tables are intact in every heap that extends the heap of
    the freshly imported module. *)
Lemma module_tables_ok H :
  module_heap `prefix_of` H →
  table_ok H default_store ∧ table_ok H default_location.
Proof.
  intros [k ->]. split.
  - exists 2, {[ "redis" := VRef 0; "memory" := VRef 1 ]}.
    split; [done|]. split; [done|]. intros s v.
    rewrite lookup_insert_Some, lookup_singleton_Some.
    intros [[_ <-]|[_ [_ <-]]]; eauto.
  - exists 5, {[ "subscriber" := VRef 3; "publisher" := VRef 4 ]}.
    split; [done|]. split; [done|]. intros s v.
    rewrite lookup_insert_Some, lookup_singleton_Some.
    intros [[_ <-]|[_ [_ <-]]]; eauto.
Qed.

Lemma bundle_of_store H ty :
  module_heap `prefix_of` H →
  bundle_of H default_store ty = bundle_of module_heap default_store ty.
Proof.
  intros [k ->]. destruct ty as [| | |s| | |]; try done.
  unfold bundle_of, default_store.
  change ((module_heap ++ k) !! 2) with (module_heap !! 2).
  destruct (module_heap !! 2) as [[tab| |]|] eqn:E; try done.
  destruct (tab !! s) as [v|] eqn:Hs; [|done].
  injection E as <-. revert Hs.
  rewrite lookup_insert_Some, lookup_singleton_Some.
  by intros [[_ <-]|[_ [_ <-]]].
Qed.

Lemma bundle_of_location H ty :
  module_heap `prefix_of` H →
  bundle_of H default_location ty = bundle_of module_heap default_location ty.
Proof.
  intros [k ->]. destruct ty as [| | |s| | |]; try done.
  unfold bundle_of, default_location.
  change ((module_heap ++ k) !! 5) with (module_heap !! 5).
  destruct (module_heap !! 5) as [[tab| |]|] eqn:E; try done.
  destruct (tab !! s) as [v|] eqn:Hs; [|done].
  injection E as <-. revert Hs.
  rewrite lookup_insert_Some, lookup_singleton_Some.
  by intros [[_ <-]|[_ [_ <-]]].
Qed.

Lemma merge_store_run H c t l d ty :
  module_heap `prefix_of` H →
  H !! l = Some (ODict d) → d !! "type" = Some ty → hashable H ty = true →
  merge_store (VRef l) (World H c t) =
    (World (H ++ [ODict ∅; ODict (d ∪ bundle_of module_heap default_store ty)]) c t,
     Ok (VRef (length H + 1))).
Proof.
  intros Hm Hl Hty Hh. rewrite merge_store_unfold.
  rewrite (merge_with_run _ _ _ _ _ _ _ (proj1 (module_tables_ok _ Hm)) Hl Hty Hh).
  by rewrite bundle_of_store.
Qed.

Lemma merge_location_run H c t l d ty :
  module_heap `prefix_of` H →
  H !! l = Some (ODict d) → d !! "type" = Some ty → hashable H ty = true →
  merge_location (VRef l) (World H c t) =
    (World (H ++ [ODict ∅; ODict (d ∪ bundle_of module_heap default_location ty)]) c t,
     Ok (VRef (length H + 1))).
Proof.
  intros Hm Hl Hty Hh. rewrite merge_location_unfold.
  rewrite (merge_with_run _ _ _ _ _ _ _ (proj2 (module_tables_ok _ Hm)) Hl Hty Hh).
  by rewrite bundle_of_location.
Qed.

Lemma merge_with_no_type H c t table l d :
  H !! l = Some (ODict d) → d !! "type" = None →
  merge_with table (VRef l) (World H c t) =
    (World H c t, Raise (KeyError (VStr "type"))).
Proof.
  intros Hl Hty. unfold merge_with.
  by rewrite (bind_raise _ _ _ _ _ (subscript_missing _ _ _ _ _ _ Hl Hty)).
Qed.

(** ** The dispatch step of the store factory *)


Lemma lookup_put {A} (h : list A) l x y :
  h !! l = Some x → <[l := y]> h !! l = Some y.
Proof. intros E. apply list_lookup_insert_eq. by eapply lookup_lt_Some. Qed.

Lemma build_store_run H c t l d ty cls :
  H !! l = Some (ODict d) → d !! "type" = Some ty →
  store_class ty = Some cls →
  build_store (VRef l) (World H c t) =
    (World (<[l := ODict (delete "type" d)]> H ++
              [ OInst cls [] (delete "type" d);
                OInst Registry [VRef (length H)] ∅;
                ODict {[ "store" := VRef (length H);
                         "registry" := VRef (length H + 1) ]} ]) c t,
     Ok (VRef (length H + 2))).
Proof.
  intros Hl Hty Hcls. unfold build_store.
  erewrite bind_ok by (eapply pop_found; eassumption).
  erewrite (bind_ok _ _ _ _ cls); last first.
  { unfold store_class in Hcls.
    destruct (py_eq_str ty "memory"); [by injection Hcls as <-|].
    destruct (py_eq_str ty "redis"); [by injection Hcls as <-|done]. }
  erewrite bind_ok by (eapply construct_run; eapply lookup_put; eassumption).
  erewrite bind_ok by apply alloc_run.
  rewrite alloc_run.
  rewrite !length_app, length_insert. simpl.
  rewrite <- !app_assoc. simpl.
  by rewrite <- !Nat.add_assoc.
Qed.

Lemma build_store_invalid H c t l d ty :
  H !! l = Some (ODict d) → d !! "type" = Some ty →
  store_class ty = None →
  build_store (VRef l) (World H c t) =
    (World (<[l := ODict (delete "type" d)]> H) c t,
     Raise (invalid_store_type ty)).
Proof.
  intros Hl Hty Hcls. unfold build_store.
  erewrite bind_ok by (eapply pop_found; eassumption).
  erewrite bind_raise; [done|].
  unfold store_class in Hcls.
  destruct (py_eq_str ty "memory"); [done|].
  by destruct (py_eq_str ty "redis").
Qed.

Lemma store_class_hashable h ty cls :
  store_class ty = Some cls → hashable h ty = true.
Proof. by destruct ty. Qed.

(** The whole of [make_store] on an entry with a known type. *)
Lemma make_store_run H c t l d ty cls :
  module_heap `prefix_of` H →
  H !! l = Some (ODict d) → d !! "type" = Some ty →
  store_class ty = Some cls →
  let conf := delete "type" (d ∪ bundle_of module_heap default_store ty) in
  make_store (VRef l) (World H c t) =
    (World (H ++ [ ODict ∅; ODict conf; OInst cls [] conf;
                   OInst Registry [VRef (length H + 2)] ∅;
                   ODict {[ "store" := VRef (length H + 2);
                            "registry" := VRef (length H + 3) ]} ]) c t,
     Ok (VRef (length H + 4))).
Proof.
  intros Hm Hl Hty Hcls conf. unfold make_store.
  erewrite bind_ok
    by (eapply merge_store_run; eauto using store_class_hashable).
  erewrite build_store_run; [| heap_lookup | | eassumption]; last first.
  { apply lookup_union_Some_l. eassumption. }
  rewrite insert_grown. simpl.
  rewrite !length_app. simpl.
  rewrite <- !app_assoc. simpl.
  by rewrite <- !Nat.add_assoc.
Qed.

(** ** Frame: which addresses a computation may write *)

Section Frame.
Context (ok : event → Prop).


Lemma keeps_ret {A} n (a : A) (Q : A → Prop) : Q a → keeps ok n (mret a) Q.
Proof.
  intros HQ w _. simpl. split_and!; [done..| |by intros ? [= <-]].
  exists []. by rewrite app_nil_r.
Qed.

Lemma keeps_raise {A} n e (Q : A → Prop) : keeps ok n (raise e) Q.
Proof.
  intros w _. simpl. split_and!; [done..| |done].
  exists []. by rewrite app_nil_r.
Qed.

Lemma keeps_bind {A B} n (m : M A) (f : A → M B) Q R :
  keeps ok n m Q → (∀ a, Q a → keeps ok n (f a) R) → keeps ok n (m ≫= f) R.
Proof.
  intros Hm Hf w Hn. destruct (Hm w Hn) as (Ht & Hlen & (evs & Hevs & Hok) & HQ).
  unfold mbind, M_bind. destruct (m w) as [w1 [a|e]]; simpl in *.
  - destruct (Hf a (HQ a eq_refl) w1) as (Ht' & Hlen' & (evs' & Hevs' & Hok') & HR);
      [lia|].
    split_and!; [congruence | lia | | done].
    exists (evs ++ evs'). rewrite Hevs', Hevs, app_assoc. split; [done|].
    by apply Forall_app.
  - split_and!; [done | done | by exists evs | done].
Qed.

Lemma keeps_weaken {A} n (m : M A) (Q Q' : A → Prop) :
  (∀ a, Q a → Q' a) → keeps ok n m Q → keeps ok n m Q'.
Proof.
  intros HQ Hm w Hn. destruct (Hm w Hn) as (? & ? & ? & ?). split_and!; auto.
Qed.

(** A computation that leaves the world alone keeps everything. *)
Lemma keeps_pure {A} n (m : M A) :
  (∀ w, (m w).1 = w) → keeps ok n m any.
Proof.
  intros Hm w _. rewrite Hm. split_and!; [done..| |done].
  exists []. by rewrite app_nil_r.
Qed.

Lemma keeps_mapM {A B} n (f : A → M B) xs :
  (∀ x, keeps ok n (f x) any) → keeps ok n (mapM f xs) any.
Proof.
  intros Hf. induction xs as [|x xs IH]; simpl.
  - by apply keeps_ret.
  - eapply keeps_bind; [apply Hf|]. intros y _.
    eapply keeps_bind; [apply IH|]. intros ys _. by apply keeps_ret.
Qed.

Lemma keeps_alloc n o : keeps ok n (alloc o) (fresh n).
Proof.
  intros w Hn. simpl. rewrite length_app. split_and!.
  - by rewrite take_app_le.
  - lia.
  - exists []. by rewrite app_nil_r.
  - intros a [= <-]. by exists (length (heap w)).
Qed.

Lemma keeps_put_obj n l o : n ≤ l → keeps ok n (put_obj l o) any.
Proof.
  intros Hl w Hn. simpl. rewrite length_insert. split_and!; [|done| |done].
  - by apply take_insert_ge.
  - exists []. by rewrite app_nil_r.
Qed.

Lemma keeps_get_heap n : keeps ok n get_heap any.
Proof. by apply keeps_pure. Qed.

Lemma keeps_tell n e : ok e → keeps ok n (tell e) any.
Proof.
  intros He w Hn. simpl. split_and!; [done..| |done].
  exists [e]. split; [done|]. by constructor.
Qed.

Lemma keeps_get_self n : keeps ok n get_self any.
Proof. by apply keeps_pure. Qed.

Lemma keeps_set_self n f : keeps ok n (set_self f) any.
Proof.
  intros w Hn. simpl. split_and!; [done..| |done].
  exists []. by rewrite app_nil_r.
Qed.

Lemma keeps_subscript n v k : keeps ok n (subscript v k) any.
Proof.
  apply keeps_pure. intros w. unfold subscript, seq_subscript, mbind, M_bind.
  simpl. by repeat case_match.
Qed.

Lemma keeps_contains n s v : keeps ok n (contains s v) any.
Proof.
  apply keeps_pure. intros w. unfold contains, mbind, M_bind.
  simpl. by repeat case_match.
Qed.

Lemma keeps_get n v k dflt : keeps ok n (get v k dflt) any.
Proof.
  apply keeps_pure. intros w. unfold get, mbind, M_bind.
  simpl. by repeat case_match.
Qed.

Lemma keeps_copy n v : keeps ok n (copy v) (fresh n).
Proof.
  unfold copy. eapply keeps_bind; [apply keeps_get_heap|]. intros h _.
  repeat case_match; first [apply keeps_alloc | apply keeps_raise].
Qed.

Lemma keeps_construct n cls v : keeps ok n (construct cls v) (fresh n).
Proof.
  unfold construct. eapply keeps_bind; [apply keeps_get_heap|]. intros h _.
  repeat case_match; first [apply keeps_alloc | apply keeps_raise].
Qed.

Lemma keeps_update n v other : fresh n v → keeps ok n (update v other) any.
Proof.
  intros (l & -> & Hl). unfold update.
  eapply keeps_bind; [apply keeps_get_heap|]. intros h _.
  repeat case_match; first [by apply keeps_put_obj | apply keeps_raise].
Qed.

Lemma keeps_pop n v k : fresh n v → keeps ok n (pop v k) any.
Proof.
  intros (l & -> & Hl). unfold pop.
  eapply keeps_bind; [apply keeps_get_heap|]. intros h _.
  repeat case_match; try apply keeps_raise.
  eapply keeps_bind; [by apply keeps_put_obj|]. intros _ _. by apply keeps_ret.
Qed.

Lemma keeps_pop_default n v k dflt :
  fresh n v → keeps ok n (pop_default v k dflt) any.
Proof.
  intros (l & -> & Hl). unfold pop_default.
  eapply keeps_bind; [apply keeps_get_heap|]. intros h _.
  repeat case_match; try apply keeps_raise; try by apply keeps_ret.
  eapply keeps_bind; [by apply keeps_put_obj|]. intros _ _. by apply keeps_ret.
Qed.

Lemma keeps_setitem n v k x : fresh n v → keeps ok n (setitem v k x) any.
Proof.
  intros (l & -> & Hl). unfold setitem.
  eapply keeps_bind; [apply keeps_get_heap|]. intros h _.
  repeat case_match; first [by apply keeps_put_obj | apply keeps_raise].
Qed.

(** What [keeps] gives at the size of the heap: the old heap is a prefix
    of the new one. *)
Lemma keeps_prefix {A} (m : M A) Q w :
  keeps ok (length (heap w)) m Q → heap w `prefix_of` heap (m w).1.
Proof.
  intros Hm. destruct (Hm w (le_n _)) as (Ht & _ & _ & _).
  rewrite firstn_all in Ht.
  exists (drop (length (heap w)) (heap (m w).1)).
  by rewrite <- Ht at 1; rewrite take_drop.
Qed.

End Frame.

(** ** The factories write fresh objects only *)

Ltac keeps_step :=
  first
    [ apply keeps_raise
    | apply keeps_ret; done
    | apply keeps_alloc
    | apply keeps_copy
    | apply keeps_construct
    | apply keeps_subscript
    | apply keeps_get
    | apply keeps_contains
    | apply keeps_get_heap
    | apply keeps_get_self
    | apply keeps_set_self
    | apply keeps_tell; exact I
    | apply keeps_update; assumption
    | apply keeps_pop; assumption
    | apply keeps_pop_default; assumption
    | apply keeps_setitem; assumption ].

Ltac keeps_go :=
  repeat first
    [ keeps_step
    | eapply keeps_weaken; [| keeps_step]; done
    | eapply keeps_bind; [keeps_step | intros ? ?]
    | eapply keeps_bind;
        [eapply keeps_weaken; [| keeps_step]; done | intros ? ?] ].

Lemma keeps_merge_with ok n table v : keeps ok n (merge_with table v) (fresh n).
Proof. unfold merge_with. keeps_go. Qed.

Lemma keeps_build_store ok n conf : fresh n conf → keeps ok n (build_store conf) any.
Proof.
  intros Hc. unfold build_store. keeps_go.
  eapply keeps_bind with (Q := any).
  { repeat case_match; keeps_go. }
  intros cls _. keeps_go.
Qed.

Lemma keeps_make_store ok n v : keeps ok n (make_store v) any.
Proof.
  unfold make_store. eapply keeps_bind; [apply keeps_merge_with|].
  intros conf Hc. by apply keeps_build_store.
Qed.

Lemma keeps_py_add_str ok n a b : keeps ok n (py_add_str a b) any.
Proof. unfold py_add_str. case_match; keeps_go. Qed.

Lemma keeps_build_location ok n conf stores :
  fresh n conf → keeps ok n (build_location conf stores) any.
Proof.
  intros Hc. unfold build_location. keeps_go.
  eapply keeps_bind with (Q := any).
  { repeat case_match; keeps_go. repeat case_match; keeps_go. }
  intros cls _. keeps_go.
  eapply keeps_bind; [apply keeps_py_add_str|]. intros pattern _.
  keeps_go.
Qed.

Lemma keeps_make_location ok n v stores : keeps ok n (make_location v stores) any.
Proof.
  unfold make_location. eapply keeps_bind with (Q := any).
  { case_match; keeps_go. }
  intros stores' _. eapply keeps_bind.
  { rewrite merge_location_unfold. apply keeps_merge_with. }
  intros conf Hc. by apply keeps_build_location.
Qed.

(** ** Dictionaries built from pairs *)

Lemma dict_of_pairs_snoc ps p :
  dict_of_pairs (ps ++ [p]) = <[p.1 := p.2]> (dict_of_pairs ps).
Proof. unfold dict_of_pairs. by rewrite fold_left_app. Qed.

Lemma dict_of_pairs_dom ps : dom (dict_of_pairs ps) = list_to_set ps.*1.
Proof.
  induction ps as [|p ps IH] using rev_ind.
  { unfold dict_of_pairs. simpl. apply dom_empty_L. }
  rewrite dict_of_pairs_snoc, dom_insert_L, IH, fmap_app, list_to_set_app_L.
  simpl. rewrite (right_id_L ∅ (∪)). apply (comm_L (∪)).
Qed.

Lemma dict_of_pairs_lookup ps k e :
  NoDup ps.*1 → (k, e) ∈ ps → dict_of_pairs ps !! k = Some e.
Proof.
  induction ps as [|p ps IH] using rev_ind; [by intros _ ?%elem_of_nil|].
  rewrite fmap_app, dict_of_pairs_snoc. simpl.
  intros [Hnd [Hnin _]]%NoDup_app [Hin|Heq%list_elem_of_singleton]%elem_of_app.
  - rewrite lookup_insert_ne; [by apply IH|].
    intros <-. apply (Hnin p.1); [|apply list_elem_of_here].
    apply list_elem_of_fmap. by exists (p.1, e).
  - subst p. by rewrite lookup_insert_eq.
Qed.

Lemma valid_store_conf_grow h h' v :
  h `prefix_of` h' → valid_store_conf h v → valid_store_conf h' v.
Proof.
  intros [k ->] (l & d & ty & cls & -> & Hl & Hty & Hcls).
  exists l, d, ty, cls. eauto using lookup_kept.
Qed.

Lemma resolved_store_grow h h' v e :
  h `prefix_of` h' → resolved_store h v e → resolved_store h' v e.
Proof.
  intros [k ->] (l & d & ty & cls & s & g & el & -> & Hl & Hty & Hcls & Hs & Hg & -> & He).
  exists l, d, ty, cls, s, g, el. split_and!; eauto using lookup_kept.
Qed.

(** * The command *)

Section CommandFacts.

Variable dict_order : gmap string pyval → list string.
Variable has_ipv6 : bool.
Variable platform : string.
Variable naiveip_re : string → option groups.
Variable PUSH_SERVER : option pyval.

(** A dictionary yields each of its keys once, in some order. *)
Hypothesis dict_order_perm : ∀ d, dict_order d ≡ₚ (map_to_list d).*1.

Lemma dict_order_NoDup d : NoDup (dict_order d).
Proof. rewrite dict_order_perm. apply NoDup_fst_map_to_list. Qed.

Lemma dict_order_elem d k : k ∈ dict_order d ↔ is_Some (d !! k).
Proof.
  rewrite dict_order_perm, list_elem_of_fmap. split.
  - intros ([k' v] & -> & Hin%elem_of_map_to_list). by exists v.
  - intros [v Hv]. exists (k, v). by rewrite elem_of_map_to_list.
Qed.

Lemma dict_order_singleton k v : dict_order {[ k := v ]} = [k].
Proof.
  apply Permutation_singleton_r. rewrite dict_order_perm.
  by rewrite map_to_list_singleton.
Qed.

Lemma iterate_dict H c t l d :
  H !! l = Some (ODict d) →
  iterate dict_order (VRef l) (World H c t) =
    (World H c t, Ok (VStr <$> dict_order d)).
Proof.
  intros Hl. unfold iterate, mbind, M_bind, get_heap. simpl. by rewrite Hl.
Qed.

(** Pairs whose keys are strings. *)
Lemma dict_from_run H c t (named : list (string * pyval)) :
  dict_from ((λ kv, (VStr kv.1, kv.2)) <$> named) (World H c t) =
    (World (H ++ [ODict (dict_of_pairs named)]) c t, Ok (VRef (length H))).
Proof.
  unfold dict_from.
  erewrite (bind_ok _ _ _ _ named); [apply alloc_run|].
  induction named as [|[k v] named IH]; [done|].
  rewrite fmap_cons. simpl mapM.
  erewrite bind_ok by reflexivity.
  by erewrite bind_ok by exact IH.
Qed.

(** The loop of [make_stores] over the keys of a map of valid store
    configurations. *)
Lemma stores_loop c t sl sd keys : ∀ H,
  module_heap `prefix_of` H →
  H !! sl = Some (ODict sd) →
  (∀ k, k ∈ keys → ∃ v, sd !! k = Some v ∧ valid_store_conf H v) →
  ∃ H' pairs,
    mapM (λ k, entry ← subscript (VRef sl) k;
               made ← make_store entry;
               mret (k, made)) (VStr <$> keys) (World H c t)
      = (World H' c t, Ok ((λ kv, (VStr kv.1, kv.2)) <$> pairs)) ∧
    H `prefix_of` H' ∧ pairs.*1 = keys ∧
    Forall (λ p, ∃ v, sd !! p.1 = Some v ∧ resolved_store H' v p.2) pairs.
Proof.
  induction keys as [|k keys IH]; intros H Hm Hsl Hv.
  { exists H, []. by split_and!. }
  destruct (Hv k) as (v & Hk & (l & d & ty & cls & -> & Hl & Hty & Hcls));
    [apply list_elem_of_here|].
  pose proof (make_store_run H c t l d ty cls Hm Hl Hty Hcls) as Hmade.
  simpl in Hmade.
  set (conf := delete "type" (d ∪ bundle_of module_heap default_store ty)) in *.
  set (H1 := H ++ [ ODict ∅; ODict conf; OInst cls [] conf;
                    OInst Registry [VRef (length H + 2)] ∅;
                    ODict {[ "store" := VRef (length H + 2);
                             "registry" := VRef (length H + 3) ]} ]) in *.
  assert (H `prefix_of` H1) as Hpre1 by (by eexists).
  destruct (IH H1) as (H' & pairs & Hrun & Hpre & Hkeys & Hall).
  { by etrans. }
  { by apply lookup_kept. }
  { intros k' Hk'. destruct (Hv k') as (v' & ? & ?); [by apply list_elem_of_further|].
    eauto using valid_store_conf_grow. }
  exists H', ((k, VRef (length H + 4)) :: pairs).
  split_and!.
  - simpl mapM. erewrite bind_ok; last first.
    { erewrite bind_ok by (eapply subscript_found; eassumption).
      erewrite bind_ok by exact Hmade. reflexivity. }
    erewrite bind_ok by exact Hrun. reflexivity.
  - by etrans.
  - rewrite fmap_cons. simpl. by f_equal.
  - constructor; [|done]. exists (VRef l). split; [done|].
    apply (resolved_store_grow H1); [done|].
    exists l, d, ty, cls, (length H + 2), (length H + 3), (length H + 4).
    unfold H1. split_and!; try done; try heap_lookup.
Qed.

Lemma dict_order_dom d : list_to_set (dict_order d) = dom d.
Proof.
  apply set_eq. intros k.
  by rewrite elem_of_list_to_set, dict_order_elem, elem_of_dom.
Qed.

(** Lines 84: the stores of a map of valid configurations, by name. *)
Lemma stores_build H c t a M :
  module_heap `prefix_of` H →
  H !! a = Some (ODict M) →
  (∀ k v, M !! k = Some v → valid_store_conf H v) →
  ∃ H' m,
    (keys ← iterate dict_order (VRef a);
     pairs ← mapM (λ k, entry ← subscript (VRef a) k;
                        made ← make_store entry;
                        mret (k, made)) keys;
     dict_from pairs) (World H c t)
      = (World (H' ++ [ODict m]) c t, Ok (VRef (length H'))) ∧
    H `prefix_of` H' ∧
    dom m = dom M ∧
    ∀ k v, M !! k = Some v →
      ∃ e, m !! k = Some e ∧ resolved_store (H' ++ [ODict m]) v e.
Proof.
  intros Hm Ha Hv.
  destruct (stores_loop c t a M (dict_order M) H Hm Ha)
    as (H' & pairs & Hrun & Hpre & Hkeys & Hall).
  { intros k [v Hk]%dict_order_elem. eauto. }
  exists H', (dict_of_pairs pairs). split_and!.
  - erewrite bind_ok by (by apply iterate_dict).
    erewrite bind_ok by exact Hrun. apply dict_from_run.
  - done.
  - by rewrite dict_of_pairs_dom, Hkeys, dict_order_dom.
  - intros k v Hk.
    assert (k ∈ pairs.*1) as ([k' e] & -> & Hin)%list_elem_of_fmap.
    { rewrite Hkeys. apply dict_order_elem. eauto. }
    exists e. split.
    + apply dict_of_pairs_lookup; [|done]. rewrite Hkeys. apply dict_order_NoDup.
    + rewrite Forall_forall in Hall. destruct (Hall _ Hin) as (v' & Hk' & Hres).
      simpl in *. rewrite Hk in Hk'. injection Hk' as <-.
      eapply resolved_store_grow; [|done]. by apply prefix_app_r.
Qed.

(** The stores of valid configurations, by name. *)
Lemma make_stores_resolves H c t sl sd :
  module_heap `prefix_of` H →
  H !! sl = Some (ODict sd) →
  (∀ k v, named_stores sl sd !! k = Some v → valid_store_conf H v) →
  ∃ H' r m,
    make_stores dict_order (VRef sl) (World H c t)
      = (World H' c t, Ok (VRef r)) ∧
    H `prefix_of` H' ∧
    H' !! r = Some (ODict m) ∧
    (is_Some (sd !! "type") →
       dom m = {[ "default" ]} ∧
       ∃ e, m !! "default" = Some e ∧ resolved_store H' (VRef sl) e) ∧
    (sd !! "type" = None →
       dom m = dom sd ∧
       ∀ k v, sd !! k = Some v → ∃ e, m !! k = Some e ∧ resolved_store H' v e).
Proof.
  intros Hm Hsl Hv. unfold make_stores, named_stores in *.
  erewrite bind_ok by (by apply contains_dict).
  destruct (bool_decide (is_Some (sd !! "type"))) eqn:Hsingle.
  - apply bool_decide_eq_true in Hsingle.
    erewrite bind_ok by apply alloc_run.
    destruct (stores_build (H ++ [ODict {[ "default" := VRef sl ]}]) c t
                (length H) {[ "default" := VRef sl ]})
      as (H' & m & Hrun & Hpre & Hdom & Hm').
    { by apply prefix_app_r. }
    { heap_lookup. }
    { intros k v Hk. eapply valid_store_conf_grow; [|by eapply Hv].
      by apply prefix_app_r. }
    exists (H' ++ [ODict m]), (length H'), m. split_and!.
    + exact Hrun.
    + apply prefix_app_r. etrans; [|done]. by apply prefix_app_r.
    + heap_lookup.
    + intros _. split; [by rewrite Hdom, dom_singleton_L|].
      apply Hm'. apply lookup_singleton_eq.
    + intros Hnone. destruct Hsingle as [? ?]. congruence.
  - apply bool_decide_eq_false in Hsingle.
    erewrite (bind_ok _ _ _ _ (VRef sl)) by reflexivity.
    destruct (stores_build H c t sl sd) as (H' & m & Hrun & Hpre & Hdom & Hm');
      [done..|].
    exists (H' ++ [ODict m]), (length H'), m. split_and!.
    + exact Hrun.
    + by apply prefix_app_r.
    + heap_lookup.
    + intros ?. done.
    + intros _. by split.
Qed.

(** With a [type] key at its top level, the value is wrapped under the
    name ["default"] and made into that one store, whatever comes of
    it. *)
Lemma make_stores_single H c t sl sd :
  H !! sl = Some (ODict sd) → is_Some (sd !! "type") →
  make_stores dict_order (VRef sl) (World H c t) =
    (alloc (ODict {[ "default" := VRef sl ]});;
     made ← make_store (VRef sl);
     alloc (ODict {[ "default" := made ]})) (World H c t).
Proof.
  intros Hsl Hty. unfold make_stores.
  erewrite bind_ok by (by apply contains_dict).
  rewrite bool_decide_eq_true_2 by done.
  erewrite bind_ok by apply alloc_run.
  erewrite bind_ok by (apply iterate_dict; heap_lookup).
  rewrite dict_order_singleton. simpl mapM.
  destruct (make_store (VRef sl)
              (World (H ++ [ODict {[ "default" := VRef sl ]}]) c t))
    as [[H2 c2 t2] [made|e]] eqn:E.
  - erewrite bind_ok; last first.
    { erewrite bind_ok; last first.
      { erewrite bind_ok
          by (eapply subscript_found; [heap_lookup | apply lookup_singleton_eq]).
        erewrite bind_ok by exact E. reflexivity. }
      reflexivity. }
    erewrite (bind_ok (alloc _)) by apply alloc_run.
    erewrite (bind_ok (make_store _)) by exact E.
    etrans; [apply (dict_from_run _ _ _ [("default", made)])|].
    rewrite alloc_run. unfold dict_of_pairs. simpl.
    by rewrite insert_empty.
  - erewrite bind_raise; last first.
    { erewrite bind_raise; [reflexivity|].
      erewrite bind_ok
        by (eapply subscript_found; [heap_lookup | apply lookup_singleton_eq]).
      erewrite bind_raise by exact E. reflexivity. }
    erewrite (bind_ok (alloc _)) by apply alloc_run.
    by erewrite (bind_raise (make_store _)) by exact E.
Qed.

(** C5: a [stores] value with a [type] key at its top level is taken as
    the one store named ["default"]; otherwise every key is a store name
    and every value is resolved on its own into the returned mapping
    from names to resolved stores. *)
Theorem make_stores_names_stores H c t sl sd :
  module_heap `prefix_of` H →
  H !! sl = Some (ODict sd) →
  (is_Some (sd !! "type") →
     make_stores dict_order (VRef sl) (World H c t) =
       (alloc (ODict {[ "default" := VRef sl ]});;
        made ← make_store (VRef sl);
        alloc (ODict {[ "default" := made ]})) (World H c t)) ∧
  ((∀ k v, named_stores sl sd !! k = Some v → valid_store_conf H v) →
   ∃ H' r m,
     make_stores dict_order (VRef sl) (World H c t)
       = (World H' c t, Ok (VRef r)) ∧
     H `prefix_of` H' ∧
     H' !! r = Some (ODict m) ∧
     (is_Some (sd !! "type") →
        dom m = {[ "default" ]} ∧
        ∃ e, m !! "default" = Some e ∧ resolved_store H' (VRef sl) e) ∧
     (sd !! "type" = None →
        dom m = dom sd ∧
        ∀ k v, sd !! k = Some v →
          ∃ e, m !! k = Some e ∧ resolved_store H' v e)).
Proof.
  intros Hm Hsl. split.
  - by apply make_stores_single.
  - by apply make_stores_resolves.
Qed.

Lemma keeps_iterate ok n v : keeps ok n (iterate dict_order v) any.
Proof.
  apply keeps_pure. intros w. unfold iterate, mbind, M_bind.
  simpl. by repeat case_match.
Qed.

(** The update from the setting, when the setting is a dictionary. *)
Lemma update_from_run H c t l d l' d' :
  H !! l = Some (ODict d) → H !! l' = Some (ODict d') →
  update_from dict_order (VRef l) (VRef l') (World H c t) =
    (World (<[l := ODict (d' ∪ d)]> H) c t, Ok tt).
Proof.
  intros Hl Hl'. unfold update_from, mbind at 1, M_bind at 1, get_heap.
  simpl. rewrite Hl, Hl'. by apply update_run.
Qed.

Lemma keeps_update_item ok n v item :
  fresh n v → keeps ok n (update_item dict_order v item) any.
Proof.
  intros Hv. unfold update_item.
  eapply keeps_bind; [apply keeps_iterate|]. intros kv _.
  destruct kv as [|k [|x [|y kv]]]; keeps_go.
  repeat case_match; keeps_go.
Qed.

Lemma keeps_update_from ok n v other :
  fresh n v → keeps ok n (update_from dict_order v other) any.
Proof.
  intros Hv. unfold update_from.
  eapply keeps_bind; [apply keeps_get_heap|]. intros h _.
  assert (keeps ok n (items ← iterate dict_order other;
                      mapM (update_item dict_order v) items;; mret tt) any)
    as Hpairs.
  { eapply keeps_bind; [apply keeps_iterate|]. intros items _.
    eapply keeps_bind with (Q := any).
    { apply keeps_mapM. intros item. by apply keeps_update_item. }
    intros _ _. keeps_go. }
  repeat case_match; keeps_go; done.
Qed.

Lemma keeps_as_key ok n k : keeps ok n (as_key k) any.
Proof. unfold as_key. case_match; keeps_go. Qed.

Lemma keeps_make_stores ok n v : keeps ok n (make_stores dict_order v) any.
Proof.
  unfold make_stores. keeps_go.
  eapply keeps_bind with (Q := any).
  { case_match; keeps_go. }
  intros stores_dict _.
  eapply keeps_bind; [apply keeps_iterate|]. intros keys _.
  eapply keeps_bind with (Q := any).
  { apply keeps_mapM. intros k. keeps_go.
    eapply keeps_bind; [apply keeps_make_store|]. intros made _. keeps_go. }
  intros pairs _. unfold dict_from.
  eapply keeps_bind with (Q := any).
  { apply keeps_mapM. intros kv.
    eapply keeps_bind; [apply keeps_as_key|]. intros name _. keeps_go. }
  intros named _. keeps_go.
Qed.

(** ** A failing run never listens *)

Lemma aborts_unbound_bind {A B} n (m : M A) (f : A → M B) Q :
  keeps not_listen n m Q → (∀ a, Q a → aborts_unbound n (f a)) →
  aborts_unbound n (m ≫= f).
Proof.
  intros Hm Hf w e Hn. destruct (Hm w Hn) as (_ & Hlen & (evs & Hevs & Hok) & HQ).
  unfold mbind, M_bind. destruct (m w) as [w1 [a|e']]; simpl in *.
  - intros Hr. destruct (Hf a (HQ a eq_refl) w1 e) as (evs' & Hevs' & Hok');
      [lia | done |].
    exists (evs ++ evs'). rewrite Hevs', Hevs, app_assoc. split; [done|].
    by apply Forall_app.
  - intros _. by exists evs.
Qed.

Lemma aborts_unbound_total {A} n (m : M A) :
  (∀ w, ∃ a, (m w).2 = Ok a) → aborts_unbound n m.
Proof. intros Hm w e _ Hr. destruct (Hm w) as [a Ha]. congruence. Qed.

Lemma run_aborts_unbound n : aborts_unbound n (run dict_order platform PUSH_SERVER).
Proof.
  unfold run.
  eapply aborts_unbound_bind; [apply keeps_get_self|]. intros c _.
  eapply aborts_unbound_bind; [by apply keeps_tell|]. intros _ _.
  eapply aborts_unbound_bind; [apply keeps_copy|]. intros conf Hconf.
  eapply aborts_unbound_bind; [apply keeps_alloc|]. intros overrides _.
  eapply aborts_unbound_bind; [by apply keeps_update|]. intros _ _.
  eapply aborts_unbound_bind; [apply keeps_alloc|]. intros empty _.
  eapply aborts_unbound_bind; [by apply keeps_update_from|]. intros _ _.
  eapply aborts_unbound_bind; [apply keeps_subscript|]. intros store _.
  eapply aborts_unbound_bind; [apply keeps_make_stores|]. intros stores _.
  eapply aborts_unbound_bind; [by apply keeps_setitem|]. intros _ _.
  eapply aborts_unbound_bind; [apply keeps_subscript|]. intros stores' _.
  eapply aborts_unbound_bind; [apply keeps_subscript|]. intros locations _.
  eapply aborts_unbound_bind; [apply keeps_iterate|]. intros items _.
  eapply aborts_unbound_bind.
  { apply keeps_mapM. intros x. apply keeps_make_location. }
  intros bindings _.
  eapply aborts_unbound_bind; [apply keeps_alloc|]. intros handlers _.
  eapply aborts_unbound_bind; [by apply keeps_setitem|]. intros _ _.
  eapply aborts_unbound_bind; [by apply keeps_tell|]. intros _ _.
  eapply aborts_unbound_bind; [apply keeps_subscript|]. intros handlers' _.
  eapply aborts_unbound_bind; [apply keeps_subscript|]. intros p _.
  eapply aborts_unbound_bind; [apply keeps_subscript|]. intros a _.
  apply aborts_unbound_total. intros w. by exists tt.
Qed.

Lemma keeps_resolve ok n addrport : keeps ok n (resolve naiveip_re addrport) any.
Proof.
  unfold resolve. keeps_go.
  eapply keeps_bind with (Q := any).
  { repeat case_match; keeps_go; repeat case_match; keeps_go. }
  intros _ _. keeps_go. case_match; keeps_go.
Qed.

Lemma keeps_run n :
  keeps (λ _, True) n (run dict_order platform PUSH_SERVER) any.
Proof.
  unfold run.
  eapply keeps_bind; [apply keeps_get_self|]. intros c _.
  eapply keeps_bind; [by apply keeps_tell|]. intros _ _.
  eapply keeps_bind; [apply keeps_copy|]. intros conf Hconf.
  eapply keeps_bind; [apply keeps_alloc|]. intros overrides _.
  eapply keeps_bind; [by apply keeps_update|]. intros _ _.
  eapply keeps_bind; [apply keeps_alloc|]. intros empty _.
  eapply keeps_bind; [by apply keeps_update_from|]. intros _ _.
  eapply keeps_bind; [apply keeps_subscript|]. intros store _.
  eapply keeps_bind; [apply keeps_make_stores|]. intros stores _.
  eapply keeps_bind; [by apply keeps_setitem|]. intros _ _.
  eapply keeps_bind; [apply keeps_subscript|]. intros stores' _.
  eapply keeps_bind; [apply keeps_subscript|]. intros locations _.
  eapply keeps_bind; [apply keeps_iterate|]. intros items _.
  eapply keeps_bind.
  { apply keeps_mapM. intros x. apply keeps_make_location. }
  intros bindings _.
  eapply keeps_bind; [apply keeps_alloc|]. intros handlers _.
  eapply keeps_bind; [by apply keeps_setitem|]. intros _ _.
  eapply keeps_bind; [by apply keeps_tell|]. intros _ _.
  eapply keeps_bind; [apply keeps_subscript|]. intros handlers' _.
  eapply keeps_bind; [apply keeps_subscript|]. intros p _.
  eapply keeps_bind; [apply keeps_subscript|]. intros a _.
  eapply keeps_bind; [by apply keeps_tell|]. intros _ _.
  by apply keeps_tell.
Qed.

Lemma handle_aborts_unbound n addrport args opt :
  aborts_unbound n
    (handle dict_order has_ipv6 platform naiveip_re PUSH_SERVER addrport args opt).
Proof.
  unfold handle.
  eapply aborts_unbound_bind; [apply keeps_set_self|]. intros _ _.
  eapply aborts_unbound_bind with (Q := any).
  { case_match; keeps_go. }
  intros _ _.
  eapply aborts_unbound_bind with (Q := any).
  { case_match; keeps_go. }
  intros _ _.
  eapply aborts_unbound_bind; [apply keeps_resolve|]. intros _ _.
  apply run_aborts_unbound.
Qed.

(** [make_stores] on a single store configuration of a known type. *)
Lemma make_stores_single_run H c t sl sd ty cls :
  module_heap `prefix_of` H →
  H !! sl = Some (ODict sd) → sd !! "type" = Some ty →
  store_class ty = Some cls →
  let conf := delete "type" (sd ∪ bundle_of module_heap default_store ty) in
  make_stores dict_order (VRef sl) (World H c t) =
    (World (H ++ [ ODict {[ "default" := VRef sl ]};
                   ODict ∅; ODict conf; OInst cls [] conf;
                   OInst Registry [VRef (length H + 3)] ∅;
                   ODict {[ "store" := VRef (length H + 3);
                            "registry" := VRef (length H + 4) ]};
                   ODict {[ "default" := VRef (length H + 5) ]} ]) c t,
     Ok (VRef (length H + 6))).
Proof.
  intros Hm Hsl Hty Hcls conf. unfold make_stores.
  erewrite bind_ok by (by apply contains_dict).
  rewrite bool_decide_eq_true_2 by eauto.
  erewrite bind_ok by apply alloc_run.
  erewrite bind_ok by (apply iterate_dict; heap_lookup).
  rewrite dict_order_singleton. simpl mapM.
  erewrite bind_ok; last first.
  { erewrite bind_ok; last first.
    { erewrite bind_ok
        by (eapply subscript_found; [heap_lookup | apply lookup_singleton_eq]).
      erewrite bind_ok; last first.
      { eapply make_store_run; [by apply prefix_app_r | heap_lookup | done..]. }
      reflexivity. }
    reflexivity. }
  etrans; [apply (dict_from_run _ _ _ [("default", _)])|]. fold conf.
  rewrite !length_app. simpl. rewrite <- !app_assoc. simpl.
  by rewrite <- !Nat.add_assoc.
Qed.

End CommandFacts.

(** ** The dispatch step of the location factory *)

Lemma put_put {A} (h : list A) l x y : <[l := x]> (<[l := y]> h) = <[l := x]> h.
Proof. apply list_insert_insert_eq. Qed.

Lemma lookup_put_ne {A} (h : list A) l l' x :
  l ≠ l' → <[l := x]> h !! l' = h !! l'.
Proof. apply list_lookup_insert_ne. Qed.

Lemma after_dispatch_lookup d k :
  k ≠ "type" → k ≠ "polling" → after_dispatch d !! k = d !! k.
Proof.
  intros H1 H2. unfold after_dispatch.
  repeat case_match; by rewrite ?lookup_delete_ne.
Qed.

(** Lines 93-105 on a configuration whose discriminators are known. *)
Lemma location_dispatch_run H c t l d cls :
  H !! l = Some (ODict d) → location_class d = Some cls →
  location_dispatch (VRef l) (World H c t)
  = (World (<[l := ODict (after_dispatch d)]> H) c t, Ok cls).
Proof.
  intros Hl Hcls. unfold location_dispatch, location_class, after_dispatch in *.
  destruct (d !! "type") as [ty|] eqn:Hty; [|done].
  erewrite bind_ok by (eapply pop_found; eassumption).
  destruct (py_eq_str ty "publisher"); [by injection Hcls as <-|].
  destruct (py_eq_str ty "subscriber"); [|done].
  destruct (d !! "polling") as [p|] eqn:Hp; [|done].
  erewrite bind_ok; last first.
  { eapply pop_found; [by eapply lookup_put|]. by rewrite lookup_delete_ne. }
  rewrite put_put.
  destruct (py_eq_str p "long"); [by injection Hcls as <-|].
  destruct (py_eq_str p "interval"); [by injection Hcls as <-|done].
Qed.

Lemma location_dispatch_invalid_type H c t l d ty :
  H !! l = Some (ODict d) → d !! "type" = Some ty →
  py_eq_str ty "publisher" = false → py_eq_str ty "subscriber" = false →
  location_dispatch (VRef l) (World H c t)
  = (World (<[l := ODict (delete "type" d)]> H) c t,
     Raise (invalid_location_type ty)).
Proof.
  intros Hl Hty Hp Hs. unfold location_dispatch.
  erewrite bind_ok by (eapply pop_found; eassumption).
  by rewrite Hp, Hs.
Qed.

Lemma location_dispatch_invalid_polling H c t l d ty p :
  H !! l = Some (ODict d) → d !! "type" = Some ty →
  py_eq_str ty "publisher" = false → py_eq_str ty "subscriber" = true →
  d !! "polling" = Some p →
  py_eq_str p "long" = false → py_eq_str p "interval" = false →
  location_dispatch (VRef l) (World H c t)
  = (World (<[l := ODict (delete "polling" (delete "type" d))]> H) c t,
     Raise (invalid_polling p)).
Proof.
  intros Hl Hty Hpub Hsub Hp Hlong Hint. unfold location_dispatch.
  erewrite bind_ok by (eapply pop_found; eassumption).
  rewrite Hpub, Hsub.
  erewrite bind_ok; last first.
  { eapply pop_found; [by eapply lookup_put|]. by rewrite lookup_delete_ne. }
  by rewrite put_put, Hlong, Hint.
Qed.

Lemma build_location_unfold conf stores w :
  build_location conf stores w =
    (cls ← location_dispatch conf;
     prefix ← pop_default conf "prefix" (VStr "");
     pattern ← py_add_str prefix "(.+)";
     url ← pop_default conf "url" pattern;
     store_id ← pop conf "store";
     entry ← subscript stores store_id;
     registry ← subscript entry (VStr "registry");
     kwargs ← alloc (ODict {[ "registry" := registry ]});
     update kwargs conf;;
     mret (VTuple [url; VClass cls; kwargs])) w.
Proof.
  unfold build_location, location_dispatch, mbind, M_bind.
  destruct (pop conf "type" w) as [w1 [ty|e]]; [|done].
  destruct (py_eq_str ty "publisher"); [done|].
  by destruct (py_eq_str ty "subscriber").
Qed.

Lemma py_eq_str_ne v s : v ≠ VStr s → py_eq_str v s = false.
Proof.
  destruct v; try done. simpl. intros Hne.
  apply bool_decide_eq_false_2. congruence.
Qed.

Lemma build_location_run H c t l d sl sm cls url s el ed reg :
  H !! l = Some (ODict d) → H !! sl = Some (ODict sm) → l ≠ sl →
  location_class d = Some cls → location_url d = Some url →
  d !! "store" = Some (VStr s) →
  sm !! s = Some (VRef el) → H !! el = Some (ODict ed) → l ≠ el →
  ed !! "registry" = Some reg →
  build_location (VRef l) (VRef sl) (World H c t) =
    (World (<[l := ODict (location_rest d)]> H ++
              [ODict (location_rest d ∪ {[ "registry" := reg ]})]) c t,
     Ok (VTuple [url; VClass cls; VRef (length H)])).
Proof.
  intros Hl Hsl Hne Hcls Hurl Hstore Hs Hel Hne' Hreg.
  rewrite build_location_unfold.
  erewrite bind_ok by (by eapply location_dispatch_run).
  erewrite bind_ok by (eapply pop_default_run; by eapply lookup_put).
  rewrite put_put. unfold location_url in Hurl.
  rewrite (after_dispatch_lookup d "prefix") by done.
  destruct (default (VStr "") (d !! "prefix")) as [| | |p| | |]; try done.
  injection Hurl as <-.
  erewrite bind_ok by reflexivity.
  erewrite bind_ok by (eapply pop_default_run; by eapply lookup_put).
  rewrite put_put, lookup_delete_ne, (after_dispatch_lookup d "url") by done.
  erewrite bind_ok; last first.
  { eapply pop_found; [by eapply lookup_put|].
    by rewrite !lookup_delete_ne, after_dispatch_lookup. }
  rewrite put_put.
  erewrite bind_ok; last first.
  { eapply subscript_found; [|done]. by rewrite lookup_put_ne. }
  erewrite bind_ok; last first.
  { eapply subscript_found; [|done]. by rewrite lookup_put_ne. }
  erewrite bind_ok by apply alloc_run.
  erewrite bind_ok; last first.
  { eapply update_run; [by rewrite lookup_grown_0|].
    apply lookup_kept. by eapply lookup_put. }
  rewrite insert_grown_0, length_insert. done.
Qed.

(** The whole of [make_location] on an entry whose merged configuration
    has known discriminators and names a resolved store. *)
Lemma make_location_run H c t l d ty sl sm cls url s el ed reg :
  module_heap `prefix_of` H →
  H !! l = Some (ODict d) → d !! "type" = Some ty → hashable H ty = true →
  let conf := d ∪ bundle_of module_heap default_location ty in
  location_class conf = Some cls → location_url conf = Some url →
  conf !! "store" = Some (VStr s) →
  H !! sl = Some (ODict sm) → sm !! s = Some (VRef el) →
  H !! el = Some (ODict ed) → ed !! "registry" = Some reg →
  make_location (VRef l) (VRef sl) (World H c t) =
    (World (H ++ [ ODict ∅; ODict (location_rest conf);
                   ODict (location_rest conf ∪ {[ "registry" := reg ]}) ]) c t,
     Ok (VTuple [url; VClass cls; VRef (length H + 2)])).
Proof.
  intros Hm Hl Hty Hh conf Hcls Hurl Hstore Hsl Hs Hel Hreg.
  unfold make_location.
  erewrite (bind_ok _ _ _ _ (VRef sl)) by reflexivity.
  erewrite bind_ok by (by eapply merge_location_run).
  pose proof (lookup_lt_Some _ _ _ Hsl). pose proof (lookup_lt_Some _ _ _ Hel).
  erewrite build_location_run; try eassumption; try heap_lookup; try lia.
  rewrite insert_grown. simpl.
  rewrite !length_app. simpl. rewrite <- !app_assoc. simpl.
  by rewrite <- ?Nat.add_assoc.
Qed.

(** * The merge step, as specified *)

(** C4: the merged store configuration is the default bundle of the
    declared type, copied, overwritten with every key of the entry: a key
    of the entry wins, whole value for whole value.  An entry that is
    exactly [{type: memory}] merges to the three memory defaults plus
    [type]; giving [max_messages: 50] changes that key only. *)
Theorem store_merge_overlays_defaults H c t l d ty :
  module_heap `prefix_of` H →
  H !! l = Some (ODict d) → d !! "type" = Some ty → hashable H ty = true →
  let bundle := bundle_of module_heap default_store ty in
  merge_store (VRef l) (World H c t) =
    (World (H ++ [ODict ∅; ODict (d ∪ bundle)]) c t, Ok (VRef (length H + 1))) ∧
  (∀ k, (d ∪ bundle) !! k =
        match d !! k with Some v => Some v | None => bundle !! k end) ∧
  (d = {[ "type" := VStr "memory" ]} →
   d ∪ bundle = {[ "type" := VStr "memory"; "min_messages" := VInt 0;
                   "max_messages" := VInt 0; "message_timeout" := VInt 0 ]}) ∧
  (d = {[ "type" := VStr "memory"; "max_messages" := VInt 50 ]} →
   d ∪ bundle = {[ "type" := VStr "memory"; "min_messages" := VInt 0;
                   "max_messages" := VInt 50; "message_timeout" := VInt 0 ]}).
Proof.
  intros Hm Hl Hty Hh bundle. split_and!.
  - by apply merge_store_run.
  - intros k. rewrite lookup_union.
    by destruct (d !! k), (bundle !! k).
  - intros ->. subst bundle. vm_compute in Hty. injection Hty as <-.
    vm_compute. reflexivity.
  - intros ->. subst bundle. vm_compute in Hty. injection Hty as <-.
    vm_compute. reflexivity.
Qed.

Lemma merge_with_unhashable H c t table tl tab l d ty :
  table = VRef tl → H !! tl = Some (ODict tab) →
  H !! l = Some (ODict d) → d !! "type" = Some ty →
  hashable (H ++ [ODict ∅]) ty = false →
  merge_with table (VRef l) (World H c t) =
    (World (H ++ [ODict ∅]) c t, Raise TypeError).
Proof.
  intros -> Htl Hl Hty Hh. unfold merge_with.
  erewrite bind_ok by (eapply subscript_found; eassumption).
  erewrite bind_ok by apply alloc_run.
  erewrite bind_raise; [done|].
  unfold get, mbind, M_bind, get_heap. simpl.
  by rewrite (lookup_kept H [ODict ∅] _ _ Htl), Hh.
Qed.

(** C2, as the code has it: an entry with a hashable [type], known to
    the tables or not, is merged without an error, whatever else it
    holds; an entry with no [type] key makes the lookup of the default
    bundle raise [KeyError('type')], and one whose [type] is a list or
    a dictionary makes it raise [TypeError]. *)
Theorem merge_needs_a_type H c t l d :
  module_heap `prefix_of` H → H !! l = Some (ODict d) →
  (∀ ty, d !! "type" = Some ty → hashable H ty = true →
     (∃ W conf, merge_store (VRef l) (World H c t) = (W, Ok conf)) ∧
     (∃ W conf, merge_location (VRef l) (World H c t) = (W, Ok conf))) ∧
  (d !! "type" = None →
     merge_store (VRef l) (World H c t) =
       (World H c t, Raise (KeyError (VStr "type"))) ∧
     merge_location (VRef l) (World H c t) =
       (World H c t, Raise (KeyError (VStr "type")))) ∧
  (∀ r o, d !! "type" = Some (VRef r) → H !! r = Some o →
     (∀ cls args kwargs, o ≠ OInst cls args kwargs) →
     merge_store (VRef l) (World H c t) =
       (World (H ++ [ODict ∅]) c t, Raise TypeError) ∧
     merge_location (VRef l) (World H c t) =
       (World (H ++ [ODict ∅]) c t, Raise TypeError)).
Proof.
  intros Hm Hl. split_and!.
  - intros ty Hty Hh. split; eexists _, _.
    + by eapply merge_store_run.
    + by eapply merge_location_run.
  - intros Hty. rewrite merge_store_unfold, merge_location_unfold.
    split; by eapply merge_with_no_type.
  - intros r o Hty Hr Ho.
    assert (hashable (H ++ [ODict ∅]) (VRef r) = false) as Hh.
    { simpl. rewrite (lookup_kept H [ODict ∅] _ _ Hr).
      destruct o as [| |cls args kwargs]; try done. by destruct (Ho cls args kwargs). }
    rewrite merge_store_unfold, merge_location_unfold.
    split; eapply merge_with_unhashable; try done;
      by eapply module_lookup.
Qed.

(** * Address and port *)

Lemma length_snoc s ch : String.length (s +:+ String ch "") = S (String.length s).
Proof. induction s as [|ch' s IH]; simpl; [done|]. by rewrite IH. Qed.

Lemma substring_prefix s u : substring 0 (String.length s) (s +:+ u) = s.
Proof.
  induction s as [|ch s IH]; simpl; [by destruct u|]. by rewrite IH.
Qed.

Lemma strip_ends_bracketed body : strip_ends ("[" +:+ body +:+ "]") = body.
Proof.
  unfold strip_ends.
  change ("[" +:+ body +:+ "]") with (String "["%char (body +:+ "]")).
  cbn [String.length]. rewrite length_snoc.
  replace (S (S (String.length body)) - 2) with (String.length body) by lia.
  cbn [substring]. apply substring_prefix.
Qed.

Lemma bracketed_differs a : "[" +:+ a +:+ "]" ≠ a.
Proof.
  intros E. apply (f_equal String.length) in E.
  change ("[" +:+ a +:+ "]") with (String "["%char (a +:+ "]")) in E.
  cbn [String.length] in E. rewrite length_snoc in E. lia.
Qed.

Section Address.

Variable naiveip_re : string → option groups.

Lemma resolve_unfold_nonempty s m p H c t :
  s ≠ "" → naiveip_re s = Some m → g_port m = Some p → isdigit p = true →
  resolve naiveip_re s (World H c t) =
    (if truthy (g_addr m) then
       if truthy (g_ipv6 m) then
         let a := strip_ends <$> g_addr m in
         (World H (Command true true
                     (if truthy a then a else Some (default_host true))
                     (Some p)) t, Ok tt)
       else if use_ipv6 c && negb (truthy (g_fqdn m)) then
         (World H (Command (use_ipv6 c) false (g_addr m) (Some p)) t,
          Raise (not_an_ipv6_address (g_addr m)))
       else
         (World H (Command (use_ipv6 c) false (g_addr m) (Some p)) t, Ok tt)
     else
       (World H (Command (use_ipv6 c) (use_ipv6 c)
                   (Some (default_host (use_ipv6 c))) (Some p)) t, Ok tt)).
Proof.
  intros Hs Hm Hp Hd. unfold resolve, mbind, M_bind. simpl.
  rewrite bool_decide_eq_false_2 by done. rewrite Hm. simpl.
  rewrite Hp, Hd. simpl.
  destruct (truthy (g_addr m)) eqn:Ha; simpl.
  - destruct (truthy (g_ipv6 m)) eqn:H6; simpl.
    + destruct (truthy (strip_ends <$> g_addr m)) eqn:Hs'; by simpl.
    + destruct (use_ipv6 c && negb (truthy (g_fqdn m))) eqn:Hu; simpl; [done|].
      by rewrite Ha.
  - by rewrite Ha.
Qed.

Lemma resolve_empty H c t :
  resolve naiveip_re "" (World H c t) =
    (World H (Command (use_ipv6 c) (use_ipv6 c)
                (Some (default_host (use_ipv6 c))) (Some DEFAULT_PORT)) t,
     Ok tt).
Proof. done. Qed.

Lemma resolve_no_match s H c t :
  s ≠ "" → naiveip_re s = None →
  resolve naiveip_re s (World H c t) =
    (World H (Command (use_ipv6 c) false (addr c) (port c)) t,
     Raise (not_a_pair s)).
Proof.
  intros Hs Hm. unfold resolve, mbind, M_bind. simpl.
  rewrite bool_decide_eq_false_2 by done. by rewrite Hm.
Qed.

Lemma resolve_bad_port s m p H c t :
  s ≠ "" → naiveip_re s = Some m → g_port m = Some p → isdigit p = false →
  resolve naiveip_re s (World H c t) =
    (World H (Command (use_ipv6 c) false (g_addr m) (Some p)) t,
     Raise (not_a_port p)).
Proof.
  intros Hs Hm Hp Hd. unfold resolve, mbind, M_bind. simpl.
  rewrite bool_decide_eq_false_2 by done. rewrite Hm. simpl.
  by rewrite Hp, Hd.
Qed.

End Address.

(** * Assembly *)

Lemma tell_run H c t e : tell e (World H c t) = (World H c (t ++ [e]), Ok tt).
Proof. done. Qed.

Lemma get_self_run H c t : get_self (World H c t) = (World H c t, Ok c).
Proof. done. Qed.

(** A lookup in a dictionary given by inserts over a closed map. *)
Ltac map_lookup :=
  first
    [ eassumption
    | apply lookup_insert_eq
    | apply lookup_singleton_eq
    | rewrite lookup_insert_ne by done; map_lookup
    | vm_compute; reflexivity ].

Ltac step tac := erewrite bind_ok by tac; heap_norm.

Section RunFacts.

Variable dict_order : gmap string pyval → list string.
Variable has_ipv6 : bool.
Variable platform : string.
Variable naiveip_re : string → option groups.
Variable PUSH_SERVER : option pyval.
Hypothesis dict_order_perm : ∀ d, dict_order d ≡ₚ (map_to_list d).*1.

(** C3: with the built-in defaults and no [PUSH_SERVER] setting, the
    handlers passed to the listener are exactly two bindings, in the
    order of [defaults['locations']]: [Publisher] at [/publisher/(.+)]
    and then [LongPollingSubscriber] at [/subscriber/(.+)]; the
    [registry] argument of both is the registry of the one store,
    named ["default"], which is a [MemoryStore]. *)
Theorem default_configuration_bindings H c t :
  module_heap `prefix_of` H →
  ∃ H' conf confd stores entry store registry handlers pub sub,
    run dict_order platform None (World H c t) =
      (World H' c
         (t ++ [ StdoutWrite (shown_addr c) (str_of (port c))
                   (if bool_decide (platform = "win32")
                    then "CTRL-BREAK" else "CONTROL-C");
                 SetLogLevel "INFO";
                 Listen (VRef handlers) (val_of (port c)) (val_of (addr c));
                 IOLoopStart ]),
       Ok tt) ∧
    H' !! handlers =
      Some (OList
        [ VTuple [VStr "/publisher/(.+)"; VClass Publisher; VRef pub];
          VTuple [VStr "/subscriber/(.+)"; VClass LongPollingSubscriber;
                  VRef sub] ]) ∧
    H' !! pub = Some (ODict {[ "registry" := VRef registry;
                               "create_on_post" := VBool true ]}) ∧
    H' !! sub = Some (ODict {[ "registry" := VRef registry;
                               "create_on_get" := VBool false ]}) ∧
    H' !! conf = Some (ODict confd) ∧
    confd !! "locations" = Some (VRef handlers) ∧
    confd !! "store" = Some (VRef stores) ∧
    H' !! stores = Some (ODict {[ "default" := VRef entry ]}) ∧
    H' !! entry = Some (ODict {[ "store" := VRef store;
                                 "registry" := VRef registry ]}) ∧
    H' !! registry = Some (OInst Registry [VRef store] ∅) ∧
    H' !! store = Some (OInst MemoryStore [] default_store_memory).
Proof.
  intros Hm.
  eexists _, (length H), _, (length H + 9), (length H + 8), (length H + 6),
    (length H + 7), (length H + 16), (length H + 12), (length H + 15).
  split.
  { unfold run.
    step ltac:(apply get_self_run).
    step ltac:(apply tell_run).
    step ltac:(apply copy_run; heap_lookup).
    step ltac:(apply alloc_run).
    step ltac:(eapply update_run; heap_lookup).
    step ltac:(apply alloc_run).
    step ltac:(eapply update_from_run; heap_lookup).
    step ltac:(eapply subscript_found; [heap_lookup|map_lookup]).
    step ltac:(eapply (make_stores_single_run dict_order dict_order_perm)
                 with (ty := VStr "memory") (cls := MemoryStore);
               [by apply prefix_app_r | heap_lookup | reflexivity | reflexivity]).
    step ltac:(eapply setitem_run; heap_lookup).
    step ltac:(eapply subscript_found; [heap_lookup|map_lookup]).
    step ltac:(eapply subscript_found; [heap_lookup|map_lookup]).
    step ltac:(reflexivity).
    simpl mapM.
    erewrite bind_ok; last first.
    { step ltac:(eapply make_location_run
                   with (ty := VStr "publisher") (cls := Publisher)
                        (url := VStr "/publisher/(.+)") (s := "default");
                 [by apply prefix_app_r | heap_lookup | reflexivity | reflexivity
                 | vm_compute; reflexivity | vm_compute; reflexivity
                 | vm_compute; reflexivity
                 | heap_lookup | map_lookup | heap_lookup | map_lookup]).
      erewrite bind_ok; last first.
      { step ltac:(eapply make_location_run
                     with (ty := VStr "subscriber") (cls := LongPollingSubscriber)
                          (url := VStr "/subscriber/(.+)") (s := "default");
                   [by apply prefix_app_r | heap_lookup | reflexivity | reflexivity
                   | vm_compute; reflexivity | vm_compute; reflexivity
                   | vm_compute; reflexivity
                   | heap_lookup | map_lookup | heap_lookup | map_lookup]).
        reflexivity. }
      reflexivity. }
    heap_norm.
    step ltac:(apply alloc_run).
    step ltac:(eapply setitem_run; heap_lookup).
    step ltac:(apply tell_run).
    step ltac:(eapply subscript_found; [heap_lookup|map_lookup]).
    step ltac:(eapply subscript_found; [heap_lookup|map_lookup]).
    step ltac:(eapply subscript_found; [heap_lookup|map_lookup]).
    step ltac:(apply tell_run).
    rewrite tell_run. heap_norm. reflexivity. }
  split_and!.
  - by rewrite lookup_grown.
  - by rewrite lookup_grown.
  - by rewrite lookup_grown.
  - by rewrite lookup_grown_0.
  - apply lookup_insert_eq.
  - rewrite lookup_insert_ne by done. apply lookup_insert_eq.
  - by rewrite lookup_grown.
  - by rewrite lookup_grown.
  - by rewrite lookup_grown.
  - by rewrite lookup_grown.
Qed.


(** ** Address resolution *)

Lemma handle_resolves addrport opt H c t :
  (opt = true → has_ipv6 = true) →
  handle dict_order has_ipv6 platform naiveip_re PUSH_SERVER addrport [] opt
    (World H c t) =
  (resolve naiveip_re addrport ≫= λ _, run dict_order platform PUSH_SERVER)
    (World H (set_use_ipv6 opt c) t).
Proof.
  intros Hv6. unfold handle.
  erewrite bind_ok by reflexivity.
  erewrite bind_ok; last first.
  { destruct opt; [|reflexivity]. rewrite Hv6 by done. reflexivity. }
  erewrite bind_ok by reflexivity. done.
Qed.

(** C7: for the empty input the port is ["8001"] and the host is
    ["127.0.0.1"], or ["::1"] with the IPv6 flag, and [_raw_ipv6] is the
    flag; a parsed host that is empty gets the same host and
    [_raw_ipv6]. *)
Theorem empty_address_defaults H c t :
  resolve naiveip_re "" (World H c t) =
    (World H (Command (use_ipv6 c) (use_ipv6 c)
                (Some (if use_ipv6 c then "::1" else "127.0.0.1"))
                (Some "8001")) t, Ok tt) ∧
  (∀ opt, (opt = true → has_ipv6 = true) →
     handle dict_order has_ipv6 platform naiveip_re PUSH_SERVER "" [] opt
       (World H c t) =
     run dict_order platform PUSH_SERVER
       (World H (Command opt opt
                   (Some (if opt then "::1" else "127.0.0.1"))
                   (Some "8001")) t)) ∧
  (∀ s m p, s ≠ "" → naiveip_re s = Some m →
     g_port m = Some p → isdigit p = true → truthy (g_addr m) = false →
     resolve naiveip_re s (World H c t) =
       (World H (Command (use_ipv6 c) (use_ipv6 c)
                   (Some (if use_ipv6 c then "::1" else "127.0.0.1"))
                   (Some p)) t, Ok tt)).
Proof.
  split_and!.
  - apply resolve_empty.
  - intros opt Hv6. rewrite handle_resolves by done.
    erewrite bind_ok by apply resolve_empty. done.
  - intros s m p Hs Hm Hp Hd Ha.
    rewrite (resolve_unfold_nonempty _ s m p) by done. by rewrite Ha.
Qed.

(** C8: a bracketed IPv6 literal loses its brackets and sets both
    [use_ipv6] and [_raw_ipv6]; the address is shown in brackets exactly
    when [_raw_ipv6] is set. *)
Theorem bracketed_ipv6_literal H c t s m body p :
  s ≠ "" → naiveip_re s = Some m →
  g_port m = Some p → isdigit p = true →
  g_addr m = Some ("[" +:+ body +:+ "]") → truthy (g_ipv6 m) = true →
  resolve naiveip_re s (World H c t) =
    (World H (Command true true
                (Some (if bool_decide (body = "") then "::1" else body))
                (Some p)) t, Ok tt) ∧
  (∀ c' a, addr c' = Some a →
     (shown_addr c' = "[" +:+ a +:+ "]" ↔ _raw_ipv6 c' = true) ∧
     (_raw_ipv6 c' = false → shown_addr c' = a)).
Proof.
  intros Hs Hm Hp Hd Ha H6. split.
  - rewrite (resolve_unfold_nonempty _ s m p) by done.
    rewrite Ha, H6. simpl. rewrite strip_ends_bracketed.
    by destruct (bool_decide (body = "")).
  - intros c' a Hc'. unfold shown_addr. rewrite Hc'. simpl.
    destruct (_raw_ipv6 c'); (split; [split|]); try done.
    intros E. by apply eq_sym, bracketed_differs in E.
Qed.

(** C9, as the code has it: a malformed non-empty [addrport] makes
    [handle] raise a [CommandError] before anything is written,
    allocated or bound, and [run] is not entered; once the IPv6 support
    and the argument count are in order, the error is one of the three
    about the form of the address.  The command object is not left as
    it was: [use_ipv6] is the option and [_raw_ipv6] is unset, and when
    the input has matched, [addr] and [port] already hold the host and
    the port of the match (line 138), whichever check raises after
    that; only an input that does not match leaves them as they were. *)
Theorem malformed_address_fails H c t s args opt :
  s ≠ "" → malformed naiveip_re opt s →
  ∃ c' e,
    handle dict_order has_ipv6 platform naiveip_re PUSH_SERVER s args opt
      (World H c t) = (World H c' t, Raise e) ∧
    (∃ m, e = CommandError m) ∧
    use_ipv6 c' = opt ∧
    ((opt = true → has_ipv6 = true) → args = [] →
     address_format_error e ∧
     _raw_ipv6 c' = false ∧
     match naiveip_re s with
     | None => addr c' = addr c ∧ port c' = port c
     | Some m => addr c' = g_addr m ∧ port c' = g_port m
     end).
Proof.
  intros Hs Hmal. unfold handle.
  erewrite bind_ok by reflexivity.
  destruct (opt && negb has_ipv6) eqn:Hguard.
  { eexists _, _. split; [reflexivity|]. split; [by eexists|].
    split; [done|].
    intros Hv6. destruct opt; [|done]. by rewrite Hv6 in Hguard. }
  erewrite bind_ok by reflexivity.
  destruct args as [|arg args].
  2:{ eexists _, _. split; [reflexivity|]. split; [by eexists|]. done. }
  erewrite bind_ok by reflexivity.
  destruct Hmal as [Hm | m p Hm Hp Hd | m p Hm Hp Hd Ha H6 Hf ->].
  - erewrite bind_raise by (by apply resolve_no_match).
    eexists _, _. split; [reflexivity|]. split; [by eexists|].
    split; [done|]. intros _ _. rewrite Hm. split_and!; try done. constructor.
  - erewrite bind_raise by (by eapply resolve_bad_port).
    eexists _, _. split; [reflexivity|]. split; [by eexists|].
    split; [done|]. intros _ _. rewrite Hm. split_and!; try done. constructor.
  - erewrite bind_raise; last first.
    { etrans; [by apply (resolve_unfold_nonempty _ s m p)|].
      rewrite Ha, H6, Hf. reflexivity. }
    eexists _, _. split; [reflexivity|]. split; [by eexists|].
    split; [done|]. intros _ _. rewrite Hm. split_and!; try done. constructor.
Qed.

(** ** Unknown discriminators *)

Lemma store_class_unknown ty :
  ty ≠ VStr "memory" → ty ≠ VStr "redis" → store_class ty = None.
Proof.
  intros Hm Hr. unfold store_class. by rewrite !py_eq_str_ne.
Qed.

Lemma make_stores_single_invalid H c t sl sd ty :
  module_heap `prefix_of` H →
  H !! sl = Some (ODict sd) → sd !! "type" = Some ty →
  hashable H ty = true → store_class ty = None →
  ∃ H', make_stores dict_order (VRef sl) (World H c t) =
          (World H' c t, Raise (invalid_store_type ty)).
Proof.
  intros Hm Hsl Hty Hh Hcls. unfold make_stores.
  erewrite bind_ok by (by apply contains_dict).
  rewrite bool_decide_eq_true_2 by eauto.
  erewrite bind_ok by apply alloc_run.
  erewrite bind_ok by (apply iterate_dict; heap_lookup).
  rewrite dict_order_singleton by done. simpl mapM.
  eexists. erewrite bind_raise; [reflexivity|].
  erewrite bind_raise; [reflexivity|].
  erewrite bind_ok
    by (eapply subscript_found; [heap_lookup | apply lookup_singleton_eq]).
  erewrite bind_raise; [reflexivity|].
  unfold make_store.
  erewrite bind_ok; last first.
  { eapply merge_store_run; [by apply prefix_app_r | heap_lookup | done |].
    by apply hashable_app. }
  eapply build_store_invalid; [heap_lookup | | done].
  by apply lookup_union_Some_l.
Qed.

(** A [PUSH_SERVER] setting whose [store] is a single configuration of
    an unknown type: the run stops with the error of the store factory,
    the banner being all it has written. *)
Lemma run_invalid_store_type H c t ps psd l d ty :
  module_heap `prefix_of` H →
  PUSH_SERVER = Some (VRef ps) → H !! ps = Some (ODict psd) →
  psd !! "store" = Some (VRef l) → H !! l = Some (ODict d) →
  d !! "type" = Some ty → hashable H ty = true → store_class ty = None →
  ∃ H',
    run dict_order platform PUSH_SERVER (World H c t) =
      (World H' c
         (t ++ [ StdoutWrite (shown_addr c) (str_of (port c))
                   (if bool_decide (platform = "win32")
                    then "CTRL-BREAK" else "CONTROL-C") ]),
       Raise (invalid_store_type ty)).
Proof.
  intros Hm -> Hps Hstore Hl Hty Hh Hcls. unfold run.
  step ltac:(apply get_self_run).
  step ltac:(apply tell_run).
  step ltac:(apply copy_run; heap_lookup).
  step ltac:(apply alloc_run).
  step ltac:(eapply update_run; heap_lookup).
  step ltac:(apply alloc_run).
  step ltac:(eapply update_from_run; heap_lookup).
  step ltac:(eapply subscript_found;
             [heap_lookup | by apply lookup_union_Some_l]).
  edestruct (make_stores_single_invalid) as [H' E];
    [| | exact Hty | | exact Hcls |].
  { apply prefix_app_r. exact Hm. }
  { apply lookup_kept. exact Hl. }
  { by apply hashable_app. }
  eexists. erewrite bind_raise by exact E. reflexivity.
Qed.

(** ** A reference to a store that is not there *)

Lemma location_dispatch_fails H c t l d :
  H !! l = Some (ODict d) → location_class d = None →
  ∃ H' e, location_dispatch (VRef l) (World H c t) = (World H' c t, Raise e).
Proof.
  intros Hl Hcls. unfold location_class in Hcls.
  destruct (d !! "type") as [ty|] eqn:Hty; last first.
  { eexists _, _. unfold location_dispatch.
    erewrite bind_raise; [reflexivity|]. by eapply pop_missing. }
  destruct (py_eq_str ty "publisher") eqn:Hpub; [done|].
  destruct (py_eq_str ty "subscriber") eqn:Hsub; last first.
  { eexists _, _. by eapply location_dispatch_invalid_type. }
  destruct (d !! "polling") as [p|] eqn:Hp; last first.
  { eexists _, _. unfold location_dispatch.
    erewrite bind_ok by (eapply pop_found; eassumption).
    rewrite Hpub, Hsub.
    erewrite bind_raise; [reflexivity|].
    eapply pop_missing; [by eapply lookup_put|]. by rewrite lookup_delete_ne. }
  destruct (py_eq_str p "long") eqn:Hlong; [done|].
  destruct (py_eq_str p "interval") eqn:Hint; [done|].
  eexists _, _. by eapply location_dispatch_invalid_polling.
Qed.

Lemma build_location_missing_store H c t l d sl sm s :
  H !! l = Some (ODict d) → H !! sl = Some (ODict sm) → l ≠ sl →
  d !! "store" = Some (VStr s) → sm !! s = None →
  ∃ H' e,
    build_location (VRef l) (VRef sl) (World H c t) = (World H' c t, Raise e) ∧
    (∀ cls url, location_class d = Some cls → location_url d = Some url →
       e = KeyError (VStr s)).
Proof.
  intros Hl Hsl Hne Hstore Hs. rewrite build_location_unfold.
  destruct (location_class d) as [cls|] eqn:Hcls; last first.
  { destruct (location_dispatch_fails H c t l d) as (H' & e & E); [done..|].
    exists H', e. split; [|done]. by erewrite bind_raise. }
  erewrite bind_ok by (by eapply location_dispatch_run).
  erewrite bind_ok by (eapply pop_default_run; by eapply lookup_put).
  rewrite put_put. unfold location_url.
  rewrite (after_dispatch_lookup d "prefix") by done.
  destruct (default (VStr "") (d !! "prefix")) as [| | |p| | |];
    try (eexists _, _; split; [reflexivity|done]).
  erewrite bind_ok by reflexivity.
  erewrite bind_ok by (eapply pop_default_run; by eapply lookup_put).
  rewrite put_put.
  erewrite bind_ok; last first.
  { eapply pop_found; [by eapply lookup_put|].
    by rewrite !lookup_delete_ne, after_dispatch_lookup. }
  rewrite put_put.
  erewrite bind_raise; last first.
  { eapply subscript_missing; [|done]. by rewrite lookup_put_ne. }
  eexists _, _. split; [reflexivity|done].
Qed.

Lemma make_location_missing_store H c t l d ty sl sm s :
  module_heap `prefix_of` H →
  H !! l = Some (ODict d) → d !! "type" = Some ty → hashable H ty = true →
  let conf := d ∪ bundle_of module_heap default_location ty in
  conf !! "store" = Some (VStr s) →
  H !! sl = Some (ODict sm) → sm !! s = None →
  ∃ H' e,
    make_location (VRef l) (VRef sl) (World H c t) = (World H' c t, Raise e) ∧
    (∀ cls url, location_class conf = Some cls → location_url conf = Some url →
       e = KeyError (VStr s)).
Proof.
  intros Hm Hl Hty Hh conf Hstore Hsl Hs. unfold make_location.
  erewrite (bind_ok _ _ _ _ (VRef sl)) by reflexivity.
  erewrite bind_ok by (by eapply merge_location_run).
  pose proof (lookup_lt_Some _ _ _ Hsl).
  eapply build_location_missing_store; try eassumption; try heap_lookup; lia.
Qed.

(** A computation that keeps the objects of a heap keeps the heap as a
    prefix. *)
Lemma keeps_base {A} ok (m : M A) Q H0 w :
  keeps ok (length H0) m Q →
  H0 `prefix_of` heap w → H0 `prefix_of` heap (m w).1.
Proof.
  intros Hk [k Hw]. destruct (Hk w) as (Ht & _ & _ & _).
  { rewrite Hw, length_app. lia. }
  rewrite Hw, take_app_length in Ht.
  exists (drop (length H0) (heap (m w).1)).
  by rewrite <- Ht at 1; rewrite take_drop.
Qed.

Lemma keeps_quiet {A} (m : M A) n Q w :
  keeps no_event n m Q → n ≤ length (heap w) → trace (m w).1 = trace w.
Proof.
  intros Hk Hn. destruct (Hk w Hn) as (_ & _ & (evs & -> & Hevs) & _).
  destruct evs as [|e evs]; [by rewrite app_nil_r|].
  by inversion Hevs.
Qed.

(** ** A run that meets a location it cannot bind *)

Lemma prefix_insert {A} (h h' : list A) a x :
  h `prefix_of` h' → length h ≤ a → h `prefix_of` <[a := x]> h'.
Proof.
  intros [k ->] Ha. exists (<[a - length h := x]> k).
  by rewrite insert_app_r_alt.
Qed.

Lemma iterate_items H H' c t locs items :
  location_items H locs = Some items → H `prefix_of` H' →
  iterate dict_order locs (World H' c t) = (World H' c t, Ok items).
Proof.
  intros Hitems [k ->]. unfold iterate, mbind, M_bind, get_heap. simpl.
  destruct locs as [| | | |xs| |l]; try done.
  - by injection Hitems as <-.
  - simpl in Hitems. destruct (H !! l) as [[| xs |]|] eqn:Hl; try done.
    injection Hitems as <-. by rewrite (lookup_kept _ _ _ _ Hl).
Qed.

(** The map over the locations raises as soon as one of them does. *)
Lemma locations_raise H0 stores bad items : ∀ w,
  (∀ w, H0 `prefix_of` heap w →
        ∃ w' e, make_location bad stores w = (w', Raise e)) →
  bad ∈ items → H0 `prefix_of` heap w →
  ∃ w' e,
    mapM (λ loc_dict, make_location loc_dict stores) items w = (w', Raise e) ∧
    trace w' = trace w.
Proof.
  intros w Hbad. revert w.
  induction items as [|x items IH]; intros w Hin Hpre.
  { by apply elem_of_nil in Hin. }
  simpl mapM.
  pose proof (keeps_base no_event (make_location x stores) any H0 w
                (keeps_make_location _ _ _ _) Hpre) as Hpre1.
  pose proof (keeps_quiet (make_location x stores) 0 any w
                (keeps_make_location _ _ _ _) (Nat.le_0_l _)) as Htr1.
  destruct (make_location x stores w) as [w1 [y|e]] eqn:E; simpl in *.
  - apply elem_of_cons in Hin as [<-|Hin].
    { destruct (Hbad w Hpre) as (w' & e & E'). congruence. }
    destruct (IH w1 Hin Hpre1) as (w' & e & E' & Htr).
    exists w', e. split; [|congruence].
    erewrite bind_ok by exact E. by erewrite bind_raise by exact E'.
  - exists w1, e. split; [|done]. by erewrite bind_raise by exact E.
Qed.

Lemma run_stops_at_location H c t ps psd storev locs items bad :
  module_heap `prefix_of` H → H !! ps = Some (ODict psd) →
  run_conf c psd !! "store" = Some storev →
  run_conf c psd !! "locations" = Some locs →
  location_items H locs = Some items → bad ∈ items →
  (∀ w8 stores,
     make_stores dict_order storev
       (World (H ++ [ ODict (run_conf c psd);
                      ODict {[ "port" := val_of (port c);
                               "address" := val_of (addr c) ]};
                      ODict ∅ ]) c (t ++ [banner platform c]))
       = (w8, Ok stores) →
     ∀ w, <[length H := ODict (<["store" := stores]> (run_conf c psd))]>
            (heap w8) `prefix_of` heap w →
          ∃ w' e, make_location bad stores w = (w', Raise e)) →
  ∃ w' e,
    run dict_order platform (Some (VRef ps)) (World H c t) = (w', Raise e) ∧
    trace w' = t ++ [banner platform c].
Proof.
  intros Hm Hps Hstore Hlocs Hitems Hin Hbad. unfold run.
  step ltac:(apply get_self_run).
  step ltac:(apply tell_run).
  step ltac:(apply copy_run; heap_lookup).
  step ltac:(apply alloc_run).
  step ltac:(eapply update_run; heap_lookup).
  step ltac:(apply alloc_run).
  step ltac:(eapply update_from_run;
             [heap_lookup | apply lookup_kept; exact Hps]).
  fold defaults_conf. fold (run_conf c psd). fold (banner platform c).
  step ltac:(eapply subscript_found; [heap_lookup|exact Hstore]).
  set (W7 := World _ c (t ++ [banner platform c])) in *.
  pose proof (keeps_base no_event (make_stores dict_order storev) any
                (heap W7) W7 (keeps_make_stores _ _ _ _) (reflexivity _))
    as Hpre8.
  pose proof (keeps_quiet (make_stores dict_order storev) 0 any W7
                (keeps_make_stores _ _ _ _) (Nat.le_0_l _)) as Htr8.
  destruct (make_stores dict_order storev W7) as [w8 [stores|e]] eqn:E8;
    simpl in Hpre8, Htr8; last first.
  { exists w8, e. by erewrite bind_raise by exact E8. }
  specialize (Hbad w8 stores eq_refl).
  erewrite bind_ok by exact E8.
  destruct w8 as [H8 c8 t8]. simpl in *. subst t8.
  destruct Hpre8 as [k ->].
  step ltac:(eapply setitem_run; heap_lookup).
  step ltac:(eapply subscript_found; [heap_lookup|apply lookup_insert_eq]).
  step ltac:(eapply subscript_found;
             [heap_lookup|rewrite lookup_insert_ne by done; exact Hlocs]).
  erewrite bind_ok
    by (eapply iterate_items; [exact Hitems | by apply prefix_app_r]).
  rewrite <- app_assoc, insert_grown_0 in Hbad. simpl in Hbad.
  match goal with
  | |- ∃ w' e, (_ ≫= _) ?w = _ ∧ _ =>
      destruct (locations_raise _ stores bad items w Hbad Hin (reflexivity _))
        as (w' & e & E & Htr)
  end.
  exists w', e. split; [|exact Htr].
  by erewrite bind_raise by exact E.
Qed.

(** The first step of [make_location], whatever [stores] is. *)
Lemma stores_argument H c t stores :
  ∃ k stores',
    (match stores with
     | VNone => alloc (ODict ∅)
     | _ => mret stores
     end) (World H c t) = (World (H ++ k) c t, Ok stores').
Proof.
  destruct stores;
    try (eexists [], _; rewrite app_nil_r; reflexivity).
  by eexists [ODict ∅], _.
Qed.

Lemma make_location_invalid_type H c t l d ty stores :
  module_heap `prefix_of` H →
  H !! l = Some (ODict d) → d !! "type" = Some ty → hashable H ty = true →
  ty ≠ VStr "publisher" → ty ≠ VStr "subscriber" →
  ∃ H', make_location (VRef l) stores (World H c t) =
          (World H' c t, Raise (invalid_location_type ty)).
Proof.
  intros Hm Hl Hty Hh Hpub Hsub. unfold make_location.
  destruct (stores_argument H c t stores) as (k & stores' & E).
  erewrite bind_ok by exact E.
  erewrite bind_ok; last first.
  { eapply merge_location_run;
      [by apply prefix_app_r | by apply lookup_kept | done
      | by apply hashable_app]. }
  rewrite build_location_unfold. eexists.
  erewrite bind_raise; [reflexivity|].
  eapply location_dispatch_invalid_type;
    [heap_lookup | by apply lookup_union_Some_l
    | by apply py_eq_str_ne | by apply py_eq_str_ne].
Qed.

Lemma make_location_invalid_polling H c t l d p stores :
  module_heap `prefix_of` H →
  H !! l = Some (ODict d) → d !! "type" = Some (VStr "subscriber") →
  d !! "polling" = Some p → p ≠ VStr "long" → p ≠ VStr "interval" →
  ∃ H', make_location (VRef l) stores (World H c t) =
          (World H' c t, Raise (invalid_polling p)).
Proof.
  intros Hm Hl Hty Hp Hlong Hint. unfold make_location.
  destruct (stores_argument H c t stores) as (k & stores' & E).
  erewrite bind_ok by exact E.
  erewrite bind_ok; last first.
  { eapply merge_location_run;
      [by apply prefix_app_r | by apply lookup_kept | done | done]. }
  rewrite build_location_unfold. eexists.
  erewrite bind_raise; [reflexivity|].
  eapply location_dispatch_invalid_polling;
    [heap_lookup | by apply lookup_union_Some_l | done | done
    | by apply lookup_union_Some_l
    | by apply py_eq_str_ne | by apply py_eq_str_ne].
Qed.

(** A location that raises in every heap that extends [H] stops a run
    whose settings list it. *)
Lemma run_stops_at_failing_location H c t ps psd locs items l :
  module_heap `prefix_of` H → H !! ps = Some (ODict psd) →
  psd !! "locations" = Some locs →
  location_items H locs = Some items → VRef l ∈ items →
  (∀ stores k c' t', ∃ H' e,
     make_location (VRef l) stores (World (H ++ k) c' t') =
       (World H' c' t', Raise e)) →
  ∃ w' e,
    run dict_order platform (Some (VRef ps)) (World H c t) = (w', Raise e) ∧
    trace w' = t ++ [banner platform c].
Proof.
  intros Hm Hps Hlocs Hitems Hin Hbad.
  assert (is_Some (run_conf c psd !! "store")) as [storev Hstore].
  { unfold run_conf. rewrite lookup_union.
    destruct (psd !! "store"); [by eexists|].
    rewrite lookup_union_r by done. by eexists. }
  eapply run_stops_at_location; try eassumption.
  - by apply lookup_union_Some_l.
  - intros w8 stores E8 w Hw.
    assert (H `prefix_of` heap w8) as Hpre8.
    { pose proof (keeps_base no_event (make_stores dict_order storev) any H
                    (World (H ++ [ ODict (run_conf c psd);
                                   ODict {[ "port" := val_of (port c);
                                            "address" := val_of (addr c) ]};
                                   ODict ∅ ]) c (t ++ [banner platform c]))
                    (keeps_make_stores _ _ _ _)) as Hpre.
      rewrite E8 in Hpre. apply Hpre. by apply prefix_app_r. }
    assert (H `prefix_of` heap w) as [k Hk].
    { etrans; [|exact Hw]. by apply prefix_insert. }
    destruct w as [Hw' c' t']. simpl in Hk. subst Hw'.
    destruct (Hbad stores k c' t') as (H' & e & E). eauto.
Qed.

(** ** The store map, read backwards *)





(** With valid stores, the error of a run is that of the first location
    when that one raises. *)
Lemma run_first_location_error H c t ps psd sl0 sd locs l rest e0 :
  module_heap `prefix_of` H → H !! ps = Some (ODict psd) →
  run_conf c psd !! "store" = Some (VRef sl0) →
  H !! sl0 = Some (ODict sd) →
  (∀ k v, named_stores sl0 sd !! k = Some v → valid_store_conf H v) →
  psd !! "locations" = Some locs →
  location_items H locs = Some (VRef l :: rest) →
  (∀ stores k c' t', ∃ H',
     make_location (VRef l) stores (World (H ++ k) c' t') =
       (World H' c' t', Raise e0)) →
  ∃ H',
    run dict_order platform (Some (VRef ps)) (World H c t) =
      (World H' c (t ++ [banner platform c]), Raise e0).
Proof.
  intros Hm Hps Hstore Hsl0 Hvalid Hlocs Hitems Hbad. unfold run.
  step ltac:(apply get_self_run).
  step ltac:(apply tell_run).
  step ltac:(apply copy_run; heap_lookup).
  step ltac:(apply alloc_run).
  step ltac:(eapply update_run; heap_lookup).
  step ltac:(apply alloc_run).
  step ltac:(eapply update_from_run;
             [heap_lookup | apply lookup_kept; exact Hps]).
  fold defaults_conf. fold (run_conf c psd). fold (banner platform c).
  step ltac:(eapply subscript_found; [heap_lookup|exact Hstore]).
  edestruct (make_stores_resolves dict_order dict_order_perm)
    as (H8 & r & m & E8 & [k ->] & _); [| | | erewrite bind_ok by exact E8].
  { by apply prefix_app_r. }
  { apply lookup_kept. exact Hsl0. }
  { intros k v Hk. eapply valid_store_conf_grow; [|by eapply Hvalid].
    by apply prefix_app_r. }
  rewrite <- app_assoc. simpl app.
  step ltac:(eapply setitem_run; heap_lookup).
  step ltac:(eapply subscript_found; [heap_lookup|apply lookup_insert_eq]).
  step ltac:(eapply subscript_found;
             [heap_lookup
             |rewrite lookup_insert_ne by done;
              by apply lookup_union_Some_l]).
  erewrite bind_ok
    by (eapply iterate_items; [exact Hitems | by apply prefix_app_r]).
  simpl mapM.
  match goal with
  | |- ∃ H', _ (World (H ++ ?k) _ _) = _ =>
      destruct (Hbad (VRef r) k c (t ++ [banner platform c])) as [H' E]
  end.
  exists H'. erewrite bind_raise; [reflexivity|].
  by erewrite bind_raise by exact E.
Qed.



Lemma invalid_location_raises H l d e0 :
  module_heap `prefix_of` H → H !! l = Some (ODict d) →
  invalid_location_entry H d e0 →
  ∀ stores k c t, ∃ H',
    make_location (VRef l) stores (World (H ++ k) c t) =
      (World H' c t, Raise e0).
Proof.
  intros Hm Hl Hbad stores k c t.
  destruct Hbad as [(ty & Hty & Hh & Hpub & Hsub & ->)
                   |(p & Hty & Hp & Hlong & Hint & ->)].
  - eapply make_location_invalid_type; try done.
    + by apply prefix_app_r.
    + by apply lookup_kept.
    + by apply hashable_app.
  - eapply make_location_invalid_polling; try done.
    + by apply prefix_app_r.
    + by apply lookup_kept.
Qed.

(** C6: a store [type] other than [memory] and [redis], a location
    [type] other than [publisher] and [subscriber], a subscriber
    [polling] other than [long] and [interval]: the factory raises a
    [CommandError] whose message is formatted with the offending value,
    at the dispatch and for the whole of [make_location]; a run that
    raises has not bound the listening socket.  A [PUSH_SERVER] setting
    whose one store has an unknown type stops the run with that error
    right after the banner; so does a setting that lists a location of
    an unknown type or polling, wherever it stands among the locations
    and whatever the stores are, and with valid stores the error of the
    run is that of the first location. *)
Theorem unknown_discriminators_abort H c t l d :
  H !! l = Some (ODict d) →
  (∀ ty, d !! "type" = Some ty → ty ≠ VStr "memory" → ty ≠ VStr "redis" →
     build_store (VRef l) (World H c t) =
       (World (<[l := ODict (delete "type" d)]> H) c t,
        Raise (CommandError
          (Fmt ("Invalid store type " +:+ dquote +:+ "%s" +:+ dquote +:+ ".")
               ty)))) ∧
  (∀ ty stores,
     d !! "type" = Some ty → ty ≠ VStr "publisher" → ty ≠ VStr "subscriber" →
     build_location (VRef l) stores (World H c t) =
       (World (<[l := ODict (delete "type" d)]> H) c t,
        Raise (CommandError
          (Fmt ("Invalid location type " +:+ dquote +:+ "%s" +:+ dquote +:+ ".")
               ty)))) ∧
  (∀ p stores,
     d !! "type" = Some (VStr "subscriber") → d !! "polling" = Some p →
     p ≠ VStr "long" → p ≠ VStr "interval" →
     build_location (VRef l) stores (World H c t) =
       (World (<[l := ODict (delete "polling" (delete "type" d))]> H) c t,
        Raise (CommandError
          (Fmt ("Invalid polling " +:+ dquote +:+ "%s" +:+ dquote +:+ ".")
               p)))) ∧
  (∀ w e addrport args opt,
     (handle dict_order has_ipv6 platform naiveip_re PUSH_SERVER
        addrport args opt w).2 = Raise e →
     ∃ evs,
       trace (handle dict_order has_ipv6 platform naiveip_re PUSH_SERVER
                addrport args opt w).1 = trace w ++ evs ∧
       Forall not_listen evs) ∧
  (∀ ps psd ty,
     module_heap `prefix_of` H →
     PUSH_SERVER = Some (VRef ps) → H !! ps = Some (ODict psd) →
     psd !! "store" = Some (VRef l) →
     d !! "type" = Some ty → hashable H ty = true →
     ty ≠ VStr "memory" → ty ≠ VStr "redis" →
     ∃ H',
       run dict_order platform PUSH_SERVER (World H c t) =
         (World H' c
            (t ++ [ StdoutWrite (shown_addr c) (str_of (port c))
                      (if bool_decide (platform = "win32")
                       then "CTRL-BREAK" else "CONTROL-C") ]),
          Raise (CommandError
            (Fmt ("Invalid store type " +:+ dquote +:+ "%s" +:+ dquote +:+ ".")
                 ty)))) ∧
  (∀ ty stores,
     module_heap `prefix_of` H →
     d !! "type" = Some ty → hashable H ty = true →
     ty ≠ VStr "publisher" → ty ≠ VStr "subscriber" →
     ∃ H',
       make_location (VRef l) stores (World H c t) =
         (World H' c t,
          Raise (CommandError
            (Fmt ("Invalid location type " +:+ dquote +:+ "%s" +:+ dquote +:+ ".")
                 ty)))) ∧
  (∀ p stores,
     module_heap `prefix_of` H →
     d !! "type" = Some (VStr "subscriber") → d !! "polling" = Some p →
     p ≠ VStr "long" → p ≠ VStr "interval" →
     ∃ H',
       make_location (VRef l) stores (World H c t) =
         (World H' c t,
          Raise (CommandError
            (Fmt ("Invalid polling " +:+ dquote +:+ "%s" +:+ dquote +:+ ".")
                 p)))) ∧
  (∀ ps psd locs items e0,
     module_heap `prefix_of` H →
     PUSH_SERVER = Some (VRef ps) → H !! ps = Some (ODict psd) →
     psd !! "locations" = Some locs →
     location_items H locs = Some items → VRef l ∈ items →
     invalid_location_entry H d e0 →
     ∃ w' e,
       run dict_order platform PUSH_SERVER (World H c t) = (w', Raise e) ∧
       trace w' = t ++ [banner platform c]) ∧
  (∀ ps psd sl sd locs rest e0,
     module_heap `prefix_of` H →
     PUSH_SERVER = Some (VRef ps) → H !! ps = Some (ODict psd) →
     run_conf c psd !! "store" = Some (VRef sl) →
     H !! sl = Some (ODict sd) →
     (∀ k v, named_stores sl sd !! k = Some v → valid_store_conf H v) →
     psd !! "locations" = Some locs →
     location_items H locs = Some (VRef l :: rest) →
     invalid_location_entry H d e0 →
     ∃ H',
       run dict_order platform PUSH_SERVER (World H c t) =
         (World H' c (t ++ [banner platform c]), Raise e0)).
Proof.
  intros Hl. split_and!.
  - intros ty Hty Hm Hr.
    by apply build_store_invalid; [..|apply store_class_unknown].
  - intros ty stores Hty Hp Hs. rewrite build_location_unfold.
    erewrite bind_raise; [reflexivity|].
    by apply location_dispatch_invalid_type; [..|apply py_eq_str_ne|apply py_eq_str_ne].
  - intros p stores Hty Hp Hlong Hint. rewrite build_location_unfold.
    erewrite bind_raise; [reflexivity|].
    by eapply location_dispatch_invalid_polling;
      [..|apply py_eq_str_ne|apply py_eq_str_ne].
  - intros w e addrport args opt Hr.
    eapply (handle_aborts_unbound _ _ _ _ _ 0); [lia|done].
  - intros ps psd ty Hm Hps Hpsd Hstore Hty Hh Hmem Hred.
    eapply run_invalid_store_type; try eassumption.
    by apply store_class_unknown.
  - intros ty stores Hm Hty Hh Hpub Hsub.
    by eapply make_location_invalid_type.
  - intros p stores Hm Hty Hp Hlong Hint.
    by eapply make_location_invalid_polling.
  - intros ps psd locs items e0 Hm -> Hps Hlocs Hitems Hin Hbad.
    eapply run_stops_at_failing_location; try eassumption.
    intros stores k c' t'.
    destruct (invalid_location_raises H l d e0 Hm Hl Hbad stores k c' t')
      as [H' E].
    by exists H', e0.
  - intros ps psd sl sd locs rest e0 Hm -> Hps Hstore Hsl Hvalid Hlocs Hitems
      Hbad.
    eapply run_first_location_error; try eassumption.
    by eapply invalid_location_raises.
Qed.

Section MissingStore.

Context (H0 : list obj) (l : nat) (d : gmap string pyval) (ty : pyval)
        (sl : nat) (sm : gmap string pyval) (s : string).
Hypothesis module_intact : module_heap `prefix_of` H0.
Hypothesis entry_at : H0 !! l = Some (ODict d).
Hypothesis entry_type : d !! "type" = Some ty.
Hypothesis type_hashable : hashable H0 ty = true.
Hypothesis names_store :
  (d ∪ bundle_of module_heap default_location ty) !! "store" = Some (VStr s).
Hypothesis stores_at : H0 !! sl = Some (ODict sm).
Hypothesis store_absent : sm !! s = None.



End MissingStore.


(** ** Nothing that exists is written *)

Lemma merge_store_again w l d ty :
  module_heap `prefix_of` heap w → heap w !! l = Some (ODict d) →
  d !! "type" = Some ty → hashable (heap w) ty = true →
  ∃ w' conf,
    merge_store (VRef l) w = (w', Ok (VRef conf)) ∧
    heap w' !! conf =
      Some (ODict (d ∪ bundle_of module_heap default_store ty)).
Proof.
  destruct w as [H c t]. simpl. intros Hm Hl Hty Hh.
  eexists _, _. split; [by apply merge_store_run|]. simpl.
  by rewrite lookup_grown.
Qed.

Lemma merge_location_again w l d ty :
  module_heap `prefix_of` heap w → heap w !! l = Some (ODict d) →
  d !! "type" = Some ty → hashable (heap w) ty = true →
  ∃ w' conf,
    merge_location (VRef l) w = (w', Ok (VRef conf)) ∧
    heap w' !! conf =
      Some (ODict (d ∪ bundle_of module_heap default_location ty)).
Proof.
  destruct w as [H c t]. simpl. intros Hm Hl Hty Hh.
  eexists _, _. split; [by apply merge_location_run|]. simpl.
  by rewrite lookup_grown.
Qed.

(** C10: the factories and the run write no object that existed before
    the call: the heap they leave extends the heap they found, so the
    module tables and the dictionaries passed in are as they were, and
    an entry merged after any call merges to what it merged to before. *)
Theorem factories_write_fresh_objects_only w v stores :
  heap w `prefix_of` heap (make_store v w).1 ∧
  heap w `prefix_of` heap (make_stores dict_order v w).1 ∧
  heap w `prefix_of` heap (make_location v stores w).1 ∧
  heap w `prefix_of` heap (run dict_order platform PUSH_SERVER w).1 ∧
  (∀ l d ty,
     module_heap `prefix_of` heap w → heap w !! l = Some (ODict d) →
     d !! "type" = Some ty → hashable (heap w) ty = true →
     ∀ w1, w1 = w ∨ w1 = (make_store v w).1 ∨
           w1 = (make_stores dict_order v w).1 ∨
           w1 = (make_location v stores w).1 →
     (∃ w' conf,
        merge_store (VRef l) w1 = (w', Ok (VRef conf)) ∧
        heap w' !! conf =
          Some (ODict (d ∪ bundle_of module_heap default_store ty))) ∧
     (∃ w' conf,
        merge_location (VRef l) w1 = (w', Ok (VRef conf)) ∧
        heap w' !! conf =
          Some (ODict (d ∪ bundle_of module_heap default_location ty)))).
Proof.
  assert (heap w `prefix_of` heap (make_store v w).1) as H1
    by (eapply keeps_prefix, (keeps_make_store no_event)).
  assert (heap w `prefix_of` heap (make_stores dict_order v w).1) as H2
    by (eapply keeps_prefix, (keeps_make_stores _ no_event)).
  assert (heap w `prefix_of` heap (make_location v stores w).1) as H3
    by (eapply keeps_prefix, (keeps_make_location no_event)).
  split_and!; try done.
  - eapply keeps_prefix, keeps_run.
  - intros l d ty Hm Hl Hty Hh w1 Hw1.
    assert (heap w `prefix_of` heap w1) as [k Hk].
    { destruct Hw1 as [->|[->|[->| ->]]]; done. }
    split.
    + apply merge_store_again; rewrite ?Hk; try done.
      * by apply prefix_app_r.
      * by apply lookup_kept.
      * by apply hashable_app.
    + apply merge_location_again; rewrite ?Hk; try done.
      * by apply prefix_app_r.
      * by apply lookup_kept.
      * by apply hashable_app.
Qed.

End RunFacts.

(** * Examples *)

Lemma listed_order_perm d : listed_order d ≡ₚ (map_to_list d).*1.
Proof. done. Qed.

Example naiveip_port_only :
  django_naiveip_re "8000" = Some (Groups None None None None (Some "8000")).
Proof. reflexivity. Qed.

Example naiveip_bracketed :
  django_naiveip_re "[::1]:8000" =
    Some (Groups (Some "[::1]") None (Some "[::1]") None (Some "8000")).
Proof. vm_compute. reflexivity. Qed.

Example naiveip_ipv4 :
  django_naiveip_re "10.0.0.1:8000" =
    Some (Groups (Some "10.0.0.1") (Some "10.0.0.1") None None (Some "8000")).
Proof. vm_compute. reflexivity. Qed.

Example naiveip_fqdn :
  django_naiveip_re "push.example.org:80" =
    Some (Groups (Some "push.example.org") None None
            (Some "push.example.org") (Some "80")).
Proof. vm_compute. reflexivity. Qed.

Example naiveip_garbage : django_naiveip_re "not a port" = None.
Proof. vm_compute. reflexivity. Qed.

Example naiveip_trailing_newline :
  django_naiveip_re ("8000" +:+ String "010"%char EmptyString) =
    Some (Groups None None None None (Some "8000")).
Proof. vm_compute. reflexivity. Qed.

(** ** The update from a setting that is no dictionary *)

Example update_from_pairs :
  update_from listed_order (VRef 0)
    (VTuple [VTuple [VStr "port"; VStr "9000"]; VStr "ab"])
    (World [ODict {[ "port" := VStr "8001" ]}] fresh_command []) =
    (World [ODict {[ "port" := VStr "9000"; "a" := VStr "b" ]}]
       fresh_command [], Ok tt).
Proof. vm_compute. reflexivity. Qed.

Example update_from_none :
  update_from listed_order (VRef 0) VNone
    (World [ODict ∅] fresh_command []) =
    (World [ODict ∅] fresh_command [], Raise TypeError).
Proof. reflexivity. Qed.

Example update_from_short_item :
  update_from listed_order (VRef 0) (VStr "abc")
    (World [ODict ∅] fresh_command []) =
    (World [ODict ∅] fresh_command [], Raise ValueError).
Proof. vm_compute. reflexivity. Qed.

(** ** Worked instances *)

(** The entry [{type: memory, max_messages: 50}] merges to the memory
    defaults with that one key overridden. *)
Lemma store_merge_overlays_defaults_witness :
  merge_store (VRef 10) (World heap_with_store fresh_command []) =
    (World (heap_with_store ++
              [ ODict ∅;
                ODict ({[ "type" := VStr "memory"; "max_messages" := VInt 50 ]}
                       ∪ bundle_of module_heap default_store (VStr "memory")) ])
       fresh_command [],
     Ok (VRef (length heap_with_store + 1))) ∧
  {[ "type" := VStr "memory"; "max_messages" := VInt 50 ]}
  ∪ bundle_of module_heap default_store (VStr "memory")
  = ({[ "type" := VStr "memory"; "min_messages" := VInt 0;
        "max_messages" := VInt 50; "message_timeout" := VInt 0 ]}
     : gmap string pyval).
Proof.
  destruct (store_merge_overlays_defaults heap_with_store fresh_command [] 10
              {[ "type" := VStr "memory"; "max_messages" := VInt 50 ]}
              (VStr "memory")) as (Hrun & _ & _ & Hmax).
  - by eexists.
  - reflexivity.
  - vm_compute. reflexivity.
  - reflexivity.
  - split; [exact Hrun | exact (Hmax eq_refl)].
Defined.

(** An entry without a [type] does not get through the merge step. *)
Lemma merge_without_type_raises :
  (merge_store (VRef 10) (World heap_without_type fresh_command [])).2
    = Raise (KeyError (VStr "type")) ∧
  (merge_location (VRef 10) (World heap_without_type fresh_command [])).2
    = Raise (KeyError (VStr "type")) ∧
  ¬ (∃ conf,
       (merge_store (VRef 10) (World heap_without_type fresh_command [])).2
         = Ok conf).
Proof.
  assert ((merge_store (VRef 10) (World heap_without_type fresh_command [])).2
            = Raise (KeyError (VStr "type"))) as E.
  { rewrite merge_store_unfold.
    by erewrite merge_with_no_type; [|reflexivity|vm_compute]. }
  split_and!.
  - exact E.
  - rewrite merge_location_unfold.
    by erewrite merge_with_no_type; [|reflexivity|vm_compute].
  - intros [conf Hconf]. rewrite E in Hconf. discriminate.
Qed.

Lemma merge_needs_a_type_witness :
  (∃ W conf,
     merge_store (VRef 10) (World heap_with_sqlite fresh_command [])
       = (W, Ok conf)) ∧
  merge_store (VRef 10) (World heap_without_type fresh_command []) =
    (World heap_without_type fresh_command [], Raise (KeyError (VStr "type"))).
Proof.
  split.
  - refine (proj1 (proj1 (merge_needs_a_type heap_with_sqlite fresh_command []
                            10 {[ "type" := VStr "sqlite" ]} _ _)
                     (VStr "sqlite") _ _)).
    + by eexists.
    + reflexivity.
    + vm_compute. reflexivity.
    + reflexivity.
  - refine (proj1 (proj1 (proj2 (merge_needs_a_type heap_without_type
                                   fresh_command [] 10
                                   {[ "host" := VStr "cache.example.org" ]}
                                   _ _)) _)).
    + by eexists.
    + reflexivity.
    + vm_compute. reflexivity.
Defined.



Lemma default_configuration_bindings_witness :
  ∃ H' conf confd stores entry store registry handlers pub sub,
    run listed_order "linux" None (World module_heap fresh_command []) =
      (World H' fresh_command
         ([] ++ [ StdoutWrite (shown_addr fresh_command)
                    (str_of (port fresh_command))
                    (if bool_decide ("linux" = "win32")
                     then "CTRL-BREAK" else "CONTROL-C");
                  SetLogLevel "INFO";
                  Listen (VRef handlers) (val_of (port fresh_command))
                    (val_of (addr fresh_command));
                  IOLoopStart ]),
       Ok tt) ∧
    H' !! handlers =
      Some (OList
        [ VTuple [VStr "/publisher/(.+)"; VClass Publisher; VRef pub];
          VTuple [VStr "/subscriber/(.+)"; VClass LongPollingSubscriber;
                  VRef sub] ]) ∧
    H' !! pub = Some (ODict {[ "registry" := VRef registry;
                               "create_on_post" := VBool true ]}) ∧
    H' !! sub = Some (ODict {[ "registry" := VRef registry;
                               "create_on_get" := VBool false ]}) ∧
    H' !! conf = Some (ODict confd) ∧
    confd !! "locations" = Some (VRef handlers) ∧
    confd !! "store" = Some (VRef stores) ∧
    H' !! stores = Some (ODict {[ "default" := VRef entry ]}) ∧
    H' !! entry = Some (ODict {[ "store" := VRef store;
                                 "registry" := VRef registry ]}) ∧
    H' !! registry = Some (OInst Registry [VRef store] ∅) ∧
    H' !! store = Some (OInst MemoryStore [] default_store_memory).
Proof.
  apply (default_configuration_bindings listed_order "linux" listed_order_perm
           module_heap fresh_command []).
  reflexivity.
Defined.

(** The stores [{"a": {type: memory}, "b": {type: redis, host: "h"}}]:
    both names are resolved, ["b"] to a [RedisStore]. *)
Lemma make_stores_names_stores_witness :
  ∃ H' r m,
    make_stores listed_order (VRef 12)
      (World heap_with_two_stores fresh_command [])
      = (World H' fresh_command [], Ok (VRef r)) ∧
    H' !! r = Some (ODict m) ∧
    dom m = dom ({[ "a" := VRef 10; "b" := VRef 11 ]} : gmap string pyval) ∧
    ∃ e, m !! "b" = Some e ∧ resolved_store H' (VRef 11) e.
Proof.
  destruct (make_stores_names_stores listed_order listed_order_perm
              heap_with_two_stores fresh_command [] 12
              {[ "a" := VRef 10; "b" := VRef 11 ]}) as [_ Hres].
  - by eexists.
  - reflexivity.
  - destruct Hres as (H' & r & m & E & _ & Hr & _ & Hmap); last first.
    { exists H', r, m. destruct Hmap as [Hdom Hres]; [vm_compute; reflexivity|].
      split_and!; [exact E | exact Hr | exact Hdom |].
      apply Hres. vm_compute. reflexivity. }
    intros k v. unfold named_stores.
    replace (bool_decide (is_Some (({[ "a" := VRef 10; "b" := VRef 11 ]}
               : gmap string pyval) !! "type"))) with false
      by (vm_compute; reflexivity).
    rewrite lookup_insert_Some, lookup_singleton_Some.
    intros [[_ <-]|[_ [_ <-]]].
    + exists 10, {[ "type" := VStr "memory" ]}, (VStr "memory"), MemoryStore.
      split_and!; reflexivity.
    + exists 11, {[ "type" := VStr "redis"; "host" := VStr "h" ]},
        (VStr "redis"), RedisStore.
      split_and!; reflexivity.
Defined.

(** A setting whose one location has the type ["websocket"]: the run
    stops after the banner with the error that names it. *)
Lemma unknown_discriminators_abort_witness :
  ∃ H',
    run listed_order "linux" (Some (VRef 11))
      (World heap_with_websocket fresh_command []) =
      (World H' fresh_command [banner "linux" fresh_command],
       Raise (CommandError
         (Fmt ("Invalid location type " +:+ dquote +:+ "%s" +:+ dquote +:+ ".")
              (VStr "websocket")))).
Proof.
  destruct (unknown_discriminators_abort listed_order true "linux"
              django_naiveip_re (Some (VRef 11)) listed_order_perm
              heap_with_websocket fresh_command []
              10 {[ "type" := VStr "websocket" ]})
    as (_ & _ & _ & _ & _ & _ & _ & _ & Hrun).
  - reflexivity.
  - apply (Hrun 11 {[ "locations" := VTuple [VRef 10] ]} 6 defaults_store
             (VTuple [VRef 10]) []
             (invalid_location_type (VStr "websocket"))).
    + by eexists.
    + reflexivity.
    + reflexivity.
    + vm_compute. reflexivity.
    + reflexivity.
    + intros k v. unfold named_stores.
      replace (bool_decide (is_Some (defaults_store !! "type"))) with true
        by (vm_compute; reflexivity).
      rewrite lookup_singleton_Some. intros [_ <-].
      exists 6, defaults_store, (VStr "memory"), MemoryStore.
      split_and!; reflexivity.
    + reflexivity.
    + reflexivity.
    + left. exists (VStr "websocket"). split_and!; try done.
Defined.

(** The input ["8000"] has no host: the default host is taken. *)
Lemma empty_address_defaults_witness :
  resolve django_naiveip_re "8000" (World module_heap fresh_command []) =
    (World module_heap
       (Command false false (Some "127.0.0.1") (Some "8000")) [], Ok tt).
Proof.
  refine (proj2 (proj2 (empty_address_defaults listed_order true "linux"
                          django_naiveip_re None module_heap fresh_command []))
            "8000" (Groups None None None None (Some "8000")) "8000"
            _ _ _ _ _).
  - discriminate.
  - reflexivity.
  - reflexivity.
  - reflexivity.
  - reflexivity.
Defined.

(** The input ["[::1]:8000"]. *)
Lemma bracketed_ipv6_literal_witness :
  resolve django_naiveip_re "[::1]:8000" (World module_heap fresh_command []) =
    (World module_heap (Command true true (Some "::1") (Some "8000")) [],
     Ok tt).
Proof.
  refine (proj1 (bracketed_ipv6_literal django_naiveip_re module_heap
                   fresh_command [] "[::1]:8000"
                   (Groups (Some "[::1]") None (Some "[::1]") None (Some "8000"))
                   "::1" "8000" _ _ _ _ _ _)).
  - discriminate.
  - vm_compute. reflexivity.
  - reflexivity.
  - reflexivity.
  - reflexivity.
  - reflexivity.
Defined.

(** The input ["not a port"] does not match. *)
Lemma malformed_address_fails_witness :
  ∃ c' e,
    handle listed_order true "linux" django_naiveip_re None
      "not a port" [] false (World module_heap fresh_command [])
      = (World module_heap c' [], Raise e) ∧
    (∃ m, e = CommandError m) ∧
    use_ipv6 c' = false ∧
    ((false = true → true = true) → @nil string = [] →
     address_format_error e ∧
     _raw_ipv6 c' = false ∧
     match django_naiveip_re "not a port" with
     | None => addr c' = addr fresh_command ∧ port c' = port fresh_command
     | Some m => addr c' = g_addr m ∧ port c' = g_port m
     end).
Proof.
  apply (malformed_address_fails listed_order true "linux" django_naiveip_re
           None module_heap fresh_command [] "not a port" [] false).
  - discriminate.
  - apply mal_no_match. vm_compute. reflexivity.
Defined.

(** The input ["10.0.0.1:8000"] with the IPv6 option: the command raises,
    and the host and the port of the match are on the command object. *)
Lemma rejected_address_is_assigned :
  handle listed_order true "linux" django_naiveip_re None
    "10.0.0.1:8000" [] true (World module_heap fresh_command []) =
    (World module_heap
       (Command true false (Some "10.0.0.1") (Some "8000")) [],
     Raise (CommandError
       (Fmt (dquote +:+ "%s" +:+ dquote +:+ " is not a valid IPv6 address.")
            (VStr "10.0.0.1")))) ∧
  addr (handle listed_order true "linux" django_naiveip_re None
          "10.0.0.1:8000" [] true
          (World module_heap fresh_command [])).1.(self)
    ≠ addr fresh_command ∧
  port (handle listed_order true "linux" django_naiveip_re None
          "10.0.0.1:8000" [] true
          (World module_heap fresh_command [])).1.(self)
    ≠ port fresh_command.
Proof.
  assert (handle listed_order true "linux" django_naiveip_re None
            "10.0.0.1:8000" [] true (World module_heap fresh_command []) =
          (World module_heap
             (Command true false (Some "10.0.0.1") (Some "8000")) [],
           Raise (CommandError
             (Fmt (dquote +:+ "%s" +:+ dquote +:+
                   " is not a valid IPv6 address.")
                  (VStr "10.0.0.1"))))) as E.
  { unfold handle.
    erewrite bind_ok by reflexivity.
    erewrite bind_ok by reflexivity.
    erewrite bind_ok by reflexivity.
    erewrite bind_raise; [reflexivity|].
    etrans; [apply (resolve_unfold_nonempty _ "10.0.0.1:8000"
                      (Groups (Some "10.0.0.1") (Some "10.0.0.1") None None
                         (Some "8000")) "8000");
             [discriminate | vm_compute; reflexivity | reflexivity
             | reflexivity]|].
    reflexivity. }
  rewrite E. split; [done|]. split; discriminate.
Qed.

(** After [make_store] has run on the entry at address 10, the same
    entry still merges to the memory defaults with its one override. *)
Lemma factories_write_fresh_objects_only_witness :
  ∃ w' conf,
    merge_store (VRef 10)
      (make_store (VRef 10) (World heap_with_store fresh_command [])).1
      = (w', Ok (VRef conf)) ∧
    heap w' !! conf =
      Some (ODict ({[ "type" := VStr "memory"; "max_messages" := VInt 50 ]}
                   ∪ bundle_of module_heap default_store (VStr "memory"))).
Proof.
  refine (proj1 (proj2 (proj2 (proj2 (proj2
            (factories_write_fresh_objects_only listed_order "linux" None
               (World heap_with_store fresh_command []) (VRef 10) VNone))))
            10 {[ "type" := VStr "memory"; "max_messages" := VInt 50 ]}
            (VStr "memory") _ _ _ _ _ _)).
  - by eexists.
  - reflexivity.
  - vm_compute. reflexivity.
  - reflexivity.
  - right. left. reflexivity.
Defined.

(** * More about the command *)

(** ** The order of the effects of a run *)

Lemma quiet_of_keeps {A} (m : M A) Q : keeps no_event 0 m Q → quiet m.
Proof. intros Hk w. eapply keeps_quiet; [done|lia]. Qed.

Lemma quiet_result {A} (m : M A) w w' r :
  quiet m → m w = (w', r) → trace w' = trace w.
Proof. intros Hq E. specialize (Hq w). by rewrite E in Hq. Qed.

Lemma quiet_update v other : quiet (update v other).
Proof.
  intros w. unfold update, mbind, M_bind. simpl. by repeat case_match.
Qed.

Lemma quiet_setitem v k x : quiet (setitem v k x).
Proof.
  intros w. unfold setitem, mbind, M_bind. simpl. by repeat case_match.
Qed.

Lemma quiet_bind {A B} (m : M A) (f : A → M B) :
  quiet m → (∀ a, quiet (f a)) → quiet (m ≫= f).
Proof.
  intros Hm Hf w. unfold mbind, M_bind. specialize (Hm w).
  destruct (m w) as [w1 [a|e]]; simpl in *; [|done]. by rewrite Hf.
Qed.

Lemma quiet_mapM {A B} (f : A → M B) xs : (∀ x, quiet (f x)) → quiet (mapM f xs).
Proof.
  intros Hf. induction xs as [|x xs IH]; [done|]. simpl.
  apply quiet_bind; [done|]. intros y.
  apply quiet_bind; [done|]. by intros ys w.
Qed.

Lemma quiet_update_item order v item : quiet (update_item order v item).
Proof.
  unfold update_item.
  apply quiet_bind; [eapply quiet_of_keeps, keeps_iterate|]. intros kv.
  destruct kv as [|k [|x [|y kv]]]; try (by intros w).
  apply quiet_bind; [by intros w|]. intros h.
  repeat case_match; first [apply quiet_setitem | by intros w].
Qed.

Lemma quiet_update_from order v other : quiet (update_from order v other).
Proof.
  assert (quiet (items ← iterate order other;
                 mapM (update_item order v) items;; mret tt)) as Hpairs.
  { apply quiet_bind; [eapply quiet_of_keeps, keeps_iterate|]. intros items.
    apply quiet_bind; [|by intros ? w].
    apply quiet_mapM. intros item. apply quiet_update_item. }
  unfold update_from. apply quiet_bind; [by intros w|]. intros h.
  repeat case_match; first [apply quiet_update | done | by intros w].
Qed.

Lemma tell_result e w w' r :
  tell e w = (w', r) → trace w' = trace w ++ [e] ∧ r = Ok tt.
Proof. by intros [= <- <-]. Qed.

Section Effects.

Variable dict_order : gmap string pyval → list string.
Variable has_ipv6 : bool.
Variable platform : string.
Variable naiveip_re : string → option groups.
Variable PUSH_SERVER : option pyval.

Ltac quiet_tac :=
  first
    [ apply quiet_update
    | apply quiet_update_from
    | apply quiet_setitem
    | eapply quiet_of_keeps;
      first [ apply keeps_copy | apply keeps_alloc | apply keeps_subscript
            | apply keeps_get_self
            | apply keeps_make_stores | apply keeps_iterate
            | apply keeps_mapM; intros ?; apply keeps_make_location ] ].

Ltac run_done Ht :=
  rewrite <- ?app_assoc in Ht; simpl in Ht; rewrite ?app_nil_r in Ht;
  solve [eauto].

(** One step of a run: a quiet operation. *)
Ltac run_quiet H Ht :=
  let E := fresh "E" in
  apply bind_cases in H as [(? & ? & E & H)|(? & E & ->)];
  (apply quiet_result in E; [|quiet_tac]);
  rewrite Ht in E; clear Ht; rename E into Ht;
  [ | run_done Ht ].

(** One step of a run: an event. *)
Ltac run_tell H Ht :=
  let E := fresh "E" in
  apply bind_cases in H as [(? & ? & E & H)|(? & E & ->)];
  [ apply tell_result in E as [E _]; rewrite Ht in E; clear Ht; rename E into Ht
  | by apply tell_result in E as [_ ?] ].

Lemma run_event_order_at w w' r :
  run dict_order platform PUSH_SERVER w = (w', r) →
  match r with
  | Ok _ =>
      ∃ handlers p a,
        trace w' = trace w ++ [ banner platform (self w); SetLogLevel "INFO";
                                Listen handlers p a; IOLoopStart ]
  | Raise _ =>
      trace w' = trace w ++ [banner platform (self w)] ∨
      trace w' = trace w ++ [banner platform (self w); SetLogLevel "INFO"]
  end.
Proof.
  intros Hrun. unfold run in Hrun. unfold banner.
  apply bind_cases in Hrun as [(w0 & c & E & Hrun)|(? & E & _)]; [|done].
  injection E as <- <-.
  assert (trace w = trace w ++ []) as Ht by (by rewrite app_nil_r).
  run_tell Hrun Ht.
  do 14 run_quiet Hrun Ht.
  run_tell Hrun Ht.
  do 3 run_quiet Hrun Ht.
  run_tell Hrun Ht.
  apply tell_result in Hrun as [E ->]. rewrite Ht in E.
  rewrite <- ?app_assoc in E. simpl in E. eauto.
Qed.

(** X1: every run writes the banner first.  A run that returns has then
    set the log level, bound the socket once and started the loop, in
    this order and nothing else; a run that raises has at most set the
    log level besides. *)
Theorem run_event_order w :
  match (run dict_order platform PUSH_SERVER w).2 with
  | Ok _ =>
      ∃ handlers p a,
        trace (run dict_order platform PUSH_SERVER w).1 =
          trace w ++ [ banner platform (self w); SetLogLevel "INFO";
                       Listen handlers p a; IOLoopStart ]
  | Raise _ =>
      trace (run dict_order platform PUSH_SERVER w).1 =
        trace w ++ [banner platform (self w)] ∨
      trace (run dict_order platform PUSH_SERVER w).1 =
        trace w ++ [banner platform (self w); SetLogLevel "INFO"]
  end.
Proof.
  destruct (run dict_order platform PUSH_SERVER w) as [w' r] eqn:E.
  by apply run_event_order_at in E.
Qed.

(** ** Settings against the command line *)

Hypothesis dict_order_perm : ∀ d, dict_order d ≡ₚ (map_to_list d).*1.

Lemma lookup_union_default (m1 m2 : gmap string pyval) k x :
  m2 !! k = Some x → (m1 ∪ m2) !! k = Some (default x (m1 !! k)).
Proof.
  intros Hk. rewrite lookup_union, Hk. by destruct (m1 !! k).
Qed.

Ltac settings_lookup :=
  first
    [ apply lookup_insert_eq
    | rewrite lookup_insert_ne by done; settings_lookup
    | rewrite lookup_union_r by assumption; vm_compute; reflexivity
    | apply lookup_union_default; vm_compute; reflexivity ].

(** X2: the keys of [settings.PUSH_SERVER] are laid over the port and
    address of the command line: with a setting that gives no [store]
    and no [locations], the socket is bound to the setting's [port] and
    [address] where it has them, while the banner shows those of the
    command line. *)
Theorem settings_override_command_line H c t ps psd :
  module_heap `prefix_of` H →
  H !! ps = Some (ODict psd) →
  psd !! "store" = None → psd !! "locations" = None →
  ∃ H' handlers,
    run dict_order platform (Some (VRef ps)) (World H c t) =
      (World H' c
         (t ++ [ banner platform c; SetLogLevel "INFO";
                 Listen (VRef handlers)
                   (default (val_of (port c)) (psd !! "port"))
                   (default (val_of (addr c)) (psd !! "address"));
                 IOLoopStart ]),
       Ok tt).
Proof.
  intros Hm Hps Hstore Hlocs. eexists _, _. unfold run, banner.
  step ltac:(apply get_self_run).
  step ltac:(apply tell_run).
  step ltac:(apply copy_run; heap_lookup).
  step ltac:(apply alloc_run).
  step ltac:(eapply update_run; heap_lookup).
  step ltac:(apply alloc_run).
  step ltac:(eapply update_from_run;
             [heap_lookup | apply lookup_kept; exact Hps]).
  step ltac:(eapply subscript_found; [heap_lookup|settings_lookup]).
  step ltac:(eapply (make_stores_single_run dict_order dict_order_perm)
               with (ty := VStr "memory") (cls := MemoryStore);
             [by apply prefix_app_r | heap_lookup | reflexivity | reflexivity]).
  step ltac:(eapply setitem_run; heap_lookup).
  step ltac:(eapply subscript_found; [heap_lookup|settings_lookup]).
  step ltac:(eapply subscript_found; [heap_lookup|settings_lookup]).
  step ltac:(reflexivity).
  simpl mapM.
  erewrite bind_ok; last first.
  { step ltac:(eapply make_location_run
                 with (ty := VStr "publisher") (cls := Publisher)
                      (url := VStr "/publisher/(.+)") (s := "default");
               [by apply prefix_app_r | heap_lookup | reflexivity | reflexivity
               | vm_compute; reflexivity | vm_compute; reflexivity
               | vm_compute; reflexivity
               | heap_lookup | map_lookup | heap_lookup | map_lookup]).
    erewrite bind_ok; last first.
    { step ltac:(eapply make_location_run
                   with (ty := VStr "subscriber") (cls := LongPollingSubscriber)
                        (url := VStr "/subscriber/(.+)") (s := "default");
                 [by apply prefix_app_r | heap_lookup | reflexivity | reflexivity
                 | vm_compute; reflexivity | vm_compute; reflexivity
                 | vm_compute; reflexivity
                 | heap_lookup | map_lookup | heap_lookup | map_lookup]).
      reflexivity. }
    reflexivity. }
  heap_norm.
  step ltac:(apply alloc_run).
  step ltac:(eapply setitem_run; heap_lookup).
  step ltac:(apply tell_run).
  step ltac:(eapply subscript_found; [heap_lookup|settings_lookup]).
  step ltac:(eapply subscript_found; [heap_lookup|settings_lookup]).
  step ltac:(eapply subscript_found; [heap_lookup|settings_lookup]).
  step ltac:(apply tell_run).
  rewrite tell_run. heap_norm. reflexivity.
Qed.

End Effects.

(** ** A setting given as pairs *)

Section Pairs.

Variable dict_order : gmap string pyval → list string.
Variable platform : string.
Hypothesis dict_order_perm : ∀ d, dict_order d ≡ₚ (map_to_list d).*1.

Ltac pairs_lookup :=
  first
    [ apply lookup_insert_eq
    | rewrite lookup_insert_ne by done; pairs_lookup
    | vm_compute; reflexivity ].

Lemma update_from_pair H c t l d k x :
  H !! l = Some (ODict d) →
  update_from dict_order (VRef l) (VTuple [VTuple [VStr k; x]]) (World H c t) =
    (World (<[l := ODict (<[k := x]> d)]> H) c t, Ok tt).
Proof.
  intros Hl.
  unfold update_from, update_item, iterate, setitem, mbind, M_bind, get_heap.
  simpl. rewrite Hl. simpl. unfold mbind, M_bind. simpl. by rewrite Hl.
Qed.

(** X16: a [PUSH_SERVER] setting need not be a dictionary: given as a
    sequence of key/value pairs it is laid over the defaults in the same
    way.  With the one pair [("port", p)] the run binds the socket to
    the port [p] and to the address of the command line. *)
Theorem settings_as_pairs H c t p :
  module_heap `prefix_of` H →
  ∃ H' handlers,
    run dict_order platform (Some (VTuple [VTuple [VStr "port"; p]]))
      (World H c t) =
      (World H' c
         (t ++ [ banner platform c; SetLogLevel "INFO";
                 Listen (VRef handlers) p (val_of (addr c));
                 IOLoopStart ]),
       Ok tt).
Proof.
  intros Hm. eexists _, _. unfold run, banner.
  step ltac:(apply get_self_run).
  step ltac:(apply tell_run).
  step ltac:(apply copy_run; heap_lookup).
  step ltac:(apply alloc_run).
  step ltac:(eapply update_run; heap_lookup).
  step ltac:(apply alloc_run).
  step ltac:(eapply update_from_pair; heap_lookup).
  step ltac:(eapply subscript_found; [heap_lookup|pairs_lookup]).
  step ltac:(eapply (make_stores_single_run dict_order dict_order_perm)
               with (ty := VStr "memory") (cls := MemoryStore);
             [by apply prefix_app_r | heap_lookup | reflexivity | reflexivity]).
  step ltac:(eapply setitem_run; heap_lookup).
  step ltac:(eapply subscript_found; [heap_lookup|pairs_lookup]).
  step ltac:(eapply subscript_found; [heap_lookup|pairs_lookup]).
  step ltac:(reflexivity).
  simpl mapM.
  erewrite bind_ok; last first.
  { step ltac:(eapply make_location_run
                 with (ty := VStr "publisher") (cls := Publisher)
                      (url := VStr "/publisher/(.+)") (s := "default");
               [by apply prefix_app_r | heap_lookup | reflexivity | reflexivity
               | vm_compute; reflexivity | vm_compute; reflexivity
               | vm_compute; reflexivity
               | heap_lookup | map_lookup | heap_lookup | map_lookup]).
    erewrite bind_ok; last first.
    { step ltac:(eapply make_location_run
                   with (ty := VStr "subscriber") (cls := LongPollingSubscriber)
                        (url := VStr "/subscriber/(.+)") (s := "default");
                 [by apply prefix_app_r | heap_lookup | reflexivity | reflexivity
                 | vm_compute; reflexivity | vm_compute; reflexivity
                 | vm_compute; reflexivity
                 | heap_lookup | map_lookup | heap_lookup | map_lookup]).
      reflexivity. }
    reflexivity. }
  heap_norm.
  step ltac:(apply alloc_run).
  step ltac:(eapply setitem_run; heap_lookup).
  step ltac:(apply tell_run).
  step ltac:(eapply subscript_found; [heap_lookup|pairs_lookup]).
  step ltac:(eapply subscript_found; [heap_lookup|pairs_lookup]).
  step ltac:(eapply subscript_found; [heap_lookup|pairs_lookup]).
  step ltac:(apply tell_run).
  rewrite tell_run. heap_norm. reflexivity.
Qed.

End Pairs.

(** ** What a binding is made of *)

Lemma make_location_binding H c t l d ty sl cls url s reg :
  module_heap `prefix_of` H →
  H !! l = Some (ODict d) → d !! "type" = Some ty → hashable H ty = true →
  location_class (location_conf d ty) = Some cls →
  location_url (location_conf d ty) = Some url →
  location_conf d ty !! "store" = Some (VStr s) →
  store_resolves H sl s reg →
  make_location (VRef l) (VRef sl) (World H c t) =
    (World (H ++ [ ODict ∅; ODict (location_rest (location_conf d ty));
                   ODict (location_kwargs (location_conf d ty) reg) ]) c t,
     Ok (VTuple [url; VClass cls; VRef (length H + 2)])).
Proof.
  intros Hm Hl Hty Hh Hcls Hurl Hstore (sm & el & ed & Hsl & Hs & Hel & Hreg).
  by eapply make_location_run.
Qed.

Lemma location_rest_lookup conf k :
  k ≠ "type" → k ≠ "polling" → k ≠ "prefix" → k ≠ "url" → k ≠ "store" →
  location_rest conf !! k = conf !! k.
Proof.
  intros. unfold location_rest.
  rewrite !lookup_delete_ne by done. by apply after_dispatch_lookup.
Qed.

Lemma location_kwargs_lookup conf reg k :
  k ≠ "registry" → location_kwargs conf reg !! k = location_rest conf !! k.
Proof.
  intros Hk. unfold location_kwargs.
  rewrite lookup_union, lookup_singleton_ne by done.
  by destruct (location_rest conf !! k).
Qed.

Lemma after_dispatch_type conf cls :
  location_class conf = Some cls → after_dispatch conf !! "type" = None.
Proof.
  unfold location_class, after_dispatch.
  destruct (conf !! "type") as [ty|]; [|done]. intros _.
  repeat case_match; rewrite ?lookup_delete_ne by done; apply lookup_delete_eq.
Qed.

Lemma after_dispatch_polling conf cls :
  location_class conf = Some cls →
  after_dispatch conf !! "polling" =
    match cls with Publisher => conf !! "polling" | _ => None end.
Proof.
  unfold location_class, after_dispatch.
  destruct (conf !! "type") as [ty|]; [|done].
  destruct (py_eq_str ty "publisher").
  { intros [= <-]. by rewrite lookup_delete_ne. }
  destruct (py_eq_str ty "subscriber"); [|done].
  destruct (conf !! "polling") as [p|]; [|done].
  destruct (py_eq_str p "long").
  { intros [= <-]. by rewrite lookup_delete_eq. }
  destruct (py_eq_str p "interval"); [|done].
  intros [= <-]. by rewrite lookup_delete_eq.
Qed.

(** X3: of a location entry the handler gets every field but [type],
    [prefix], [url] and [store], and, for a subscriber, [polling]; a
    publisher's [polling] is passed on.  The [registry] argument is the
    registry of the named store unless the entry has a [registry] field
    of its own, which then replaces it. *)
Theorem location_fields_forwarded H c t l d ty sl cls url s reg :
  module_heap `prefix_of` H →
  H !! l = Some (ODict d) → d !! "type" = Some ty → hashable H ty = true →
  location_class (location_conf d ty) = Some cls →
  location_url (location_conf d ty) = Some url →
  location_conf d ty !! "store" = Some (VStr s) →
  store_resolves H sl s reg →
  ∃ rest kwargs,
    make_location (VRef l) (VRef sl) (World H c t) =
      (World (H ++ [ODict ∅; ODict rest; ODict kwargs]) c t,
       Ok (VTuple [url; VClass cls; VRef (length H + 2)])) ∧
    kwargs !! "registry" =
      Some (default reg (location_conf d ty !! "registry")) ∧
    kwargs !! "type" = None ∧ kwargs !! "prefix" = None ∧
    kwargs !! "url" = None ∧ kwargs !! "store" = None ∧
    kwargs !! "polling" =
      match cls with
      | Publisher => location_conf d ty !! "polling"
      | _ => None
      end ∧
    (∀ k, k ∉ location_keys → kwargs !! k = location_conf d ty !! k).
Proof.
  intros Hm Hl Hty Hh Hcls Hurl Hstore Hres.
  eexists _, _. split; [by eapply make_location_binding|].
  set (conf := location_conf d ty) in *. split_and!.
  - unfold location_kwargs. rewrite lookup_union, lookup_singleton_eq.
    rewrite location_rest_lookup by done. by destruct (conf !! "registry").
  - rewrite location_kwargs_lookup by done. unfold location_rest.
    rewrite !lookup_delete_ne by done. by eapply after_dispatch_type.
  - rewrite location_kwargs_lookup by done. unfold location_rest.
    rewrite !lookup_delete_ne by done. apply lookup_delete_eq.
  - rewrite location_kwargs_lookup by done. unfold location_rest.
    rewrite !lookup_delete_ne by done. apply lookup_delete_eq.
  - rewrite location_kwargs_lookup by done. unfold location_rest.
    apply lookup_delete_eq.
  - rewrite location_kwargs_lookup by done. unfold location_rest.
    rewrite !lookup_delete_ne by done. by apply after_dispatch_polling.
  - intros k Hk. unfold location_keys in Hk.
    rewrite !not_elem_of_cons in Hk. destruct Hk as (?&?&?&?&?&?&_).
    rewrite location_kwargs_lookup by done. by apply location_rest_lookup.
Qed.


(** ** The URL pattern *)

Lemma make_location_bad_prefix H c t l d ty sl cls v :
  module_heap `prefix_of` H →
  H !! l = Some (ODict d) → d !! "type" = Some ty → hashable H ty = true →
  location_class (location_conf d ty) = Some cls →
  location_conf d ty !! "prefix" = Some v → (∀ p, v ≠ VStr p) →
  make_location (VRef l) (VRef sl) (World H c t) =
    (World (H ++ [ ODict ∅;
                   ODict (delete "prefix" (after_dispatch (location_conf d ty))) ])
       c t,
     Raise TypeError).
Proof.
  intros Hm Hl Hty Hh Hcls Hp Hv. unfold make_location.
  erewrite (bind_ok _ _ _ _ (VRef sl)) by reflexivity.
  erewrite bind_ok by (by eapply merge_location_run).
  rewrite build_location_unfold.
  erewrite bind_ok by (eapply location_dispatch_run; [heap_lookup|exact Hcls]).
  erewrite bind_ok by (eapply pop_default_run; eapply lookup_put; heap_lookup).
  rewrite put_put, (after_dispatch_lookup _ "prefix") by done.
  fold (location_conf d ty). rewrite Hp. simpl default.
  erewrite bind_raise; last first.
  { destruct v as [| | |p| | |]; try reflexivity. by destruct (Hv p). }
  by rewrite insert_grown.
Qed.

(** X4: the pattern of a binding is the entry's [url], whatever it is,
    when it has one; else its [prefix] followed by [(.+)]; else [(.+)]
    alone.  The prefix is read in every case: one that is not a string
    makes the factory raise [TypeError] even beside a [url]. *)
Theorem location_pattern H c t l d ty sl cls s reg :
  module_heap `prefix_of` H →
  H !! l = Some (ODict d) → d !! "type" = Some ty → hashable H ty = true →
  location_class (location_conf d ty) = Some cls →
  location_conf d ty !! "store" = Some (VStr s) →
  store_resolves H sl s reg →
  let bound url :=
    ∃ W kwargs,
      make_location (VRef l) (VRef sl) (World H c t) =
        (W, Ok (VTuple [url; VClass cls; kwargs])) in
  (∀ u, location_conf d ty !! "url" = Some u →
     (location_conf d ty !! "prefix" = None ∨
      ∃ p, location_conf d ty !! "prefix" = Some (VStr p)) →
     bound u) ∧
  (∀ p, location_conf d ty !! "url" = None →
     location_conf d ty !! "prefix" = Some (VStr p) →
     bound (VStr (p +:+ "(.+)"))) ∧
  (location_conf d ty !! "url" = None →
   location_conf d ty !! "prefix" = None →
   bound (VStr "(.+)")) ∧
  (∀ v, location_conf d ty !! "prefix" = Some v → (∀ p, v ≠ VStr p) →
     ∃ W, make_location (VRef l) (VRef sl) (World H c t) = (W, Raise TypeError)).
Proof.
  intros Hm Hl Hty Hh Hcls Hstore Hres bound.
  assert (∀ url, location_url (location_conf d ty) = Some url → bound url)
    as Hbound.
  { intros url Hurl. eexists _, _. by eapply make_location_binding. }
  split_and!.
  - intros u Hu Hp. apply Hbound. unfold location_url. rewrite Hu.
    by destruct Hp as [-> | [p ->]].
  - intros p Hu Hp. apply Hbound. unfold location_url. by rewrite Hu, Hp.
  - intros Hu Hp. apply Hbound. unfold location_url. by rewrite Hu, Hp.
  - intros v Hp Hv. eexists. by eapply make_location_bad_prefix.
Qed.

(** ** Which handler *)

Lemma location_conf_type d ty :
  d !! "type" = Some ty → location_conf d ty !! "type" = Some ty.
Proof. intros Hty. by apply lookup_union_Some_l. Qed.

Lemma subscriber_polling d :
  location_conf d (VStr "subscriber") !! "polling" =
    Some (default (VStr "long") (d !! "polling")).
Proof.
  unfold location_conf. rewrite lookup_union.
  replace (bundle_of module_heap default_location (VStr "subscriber") !! "polling")
    with (Some (VStr "long")) by (vm_compute; reflexivity).
  by destruct (d !! "polling").
Qed.

(** X5: a subscriber entry without [polling], or with [polling: long],
    is bound to [LongPollingSubscriber]; with [polling: interval], to
    [Subscriber]; a publisher entry is bound to [Publisher] whatever
    [polling] it carries. *)
Theorem handler_selection H c t l d ty sl url s reg :
  module_heap `prefix_of` H →
  H !! l = Some (ODict d) → d !! "type" = Some ty →
  location_url (location_conf d ty) = Some url →
  location_conf d ty !! "store" = Some (VStr s) →
  store_resolves H sl s reg →
  let bound cls :=
    ∃ W kwargs,
      make_location (VRef l) (VRef sl) (World H c t) =
        (W, Ok (VTuple [url; VClass cls; kwargs])) in
  (ty = VStr "publisher" → bound Publisher) ∧
  (ty = VStr "subscriber" →
   d !! "polling" = None ∨ d !! "polling" = Some (VStr "long") →
   bound LongPollingSubscriber) ∧
  (ty = VStr "subscriber" → d !! "polling" = Some (VStr "interval") →
   bound Subscriber).
Proof.
  intros Hm Hl Hty Hurl Hstore Hres bound.
  assert (∀ cls, hashable H ty = true →
            location_class (location_conf d ty) = Some cls → bound cls)
    as Hbound.
  { intros cls Hh Hcls. eexists _, _. by eapply make_location_binding. }
  pose proof (location_conf_type d ty Hty) as Hct.
  split_and!.
  - intros ->. apply Hbound; [done|]. unfold location_class. by rewrite Hct.
  - intros -> Hp. apply Hbound; [done|]. unfold location_class.
    rewrite Hct, subscriber_polling. by destruct Hp as [-> | ->].
  - intros -> Hp. apply Hbound; [done|]. unfold location_class.
    by rewrite Hct, subscriber_polling, Hp.
Qed.

(** ** The store a location falls back to *)

Lemma default_store_name d ty :
  ty = VStr "publisher" ∨ ty = VStr "subscriber" →
  location_conf d ty !! "store" =
    Some (default (VStr "default") (d !! "store")).
Proof.
  intros Hty. unfold location_conf. rewrite lookup_union.
  replace (bundle_of module_heap default_location ty !! "store")
    with (Some (VStr "default"))
    by (destruct Hty as [-> | ->]; vm_compute; reflexivity).
  by destruct (d !! "store").
Qed.

(** X6: a publisher or subscriber entry without a [store] field is bound
    to the store named ["default"]: the [registry] argument of its
    handler is the registry of that store (unless the entry has a
    [registry] field of its own), and no [store] argument is passed.
    When the store map has no such name, as with stores given by other
    names only, the factory raises, with [KeyError('default')] once the
    class and the pattern are in order. *)
Theorem location_falls_back_to_default_store H c t l d ty sl :
  module_heap `prefix_of` H →
  H !! l = Some (ODict d) → d !! "type" = Some ty →
  ty = VStr "publisher" ∨ ty = VStr "subscriber" →
  d !! "store" = None →
  (∀ cls url reg,
     location_class (location_conf d ty) = Some cls →
     location_url (location_conf d ty) = Some url →
     store_resolves H sl "default" reg →
     ∃ rest kwargs,
       make_location (VRef l) (VRef sl) (World H c t) =
         (World (H ++ [ODict ∅; ODict rest; ODict kwargs]) c t,
          Ok (VTuple [url; VClass cls; VRef (length H + 2)])) ∧
       kwargs !! "registry" = Some (default reg (d !! "registry")) ∧
       kwargs !! "store" = None) ∧
  (∀ sm, H !! sl = Some (ODict sm) → sm !! "default" = None →
     ∃ W e,
       make_location (VRef l) (VRef sl) (World H c t) = (W, Raise e) ∧
       (∀ cls url,
          location_class (location_conf d ty) = Some cls →
          location_url (location_conf d ty) = Some url →
          e = KeyError (VStr "default"))).
Proof.
  intros Hm Hl Hty Hknown Hnone.
  assert (hashable H ty = true) as Hh by (by destruct Hknown as [-> | ->]).
  assert (location_conf d ty !! "store" = Some (VStr "default")) as Hstore.
  { rewrite default_store_name by done. by rewrite Hnone. }
  assert (location_conf d ty !! "registry" = d !! "registry") as Hown.
  { unfold location_conf. rewrite lookup_union.
    replace (bundle_of module_heap default_location ty !! "registry")
      with (@None pyval)
      by (destruct Hknown as [-> | ->]; vm_compute; reflexivity).
    by destruct (d !! "registry"). }
  split.
  - intros cls url reg Hcls Hurl Hres. eexists _, _. split_and!.
    + by eapply make_location_binding.
    + unfold location_kwargs. rewrite lookup_union, lookup_singleton_eq.
      rewrite location_rest_lookup, Hown by done.
      by destruct (d !! "registry").
    + rewrite location_kwargs_lookup by done. unfold location_rest.
      apply lookup_delete_eq.
  - intros sm Hsl Hs.
    destruct (make_location_missing_store H c t l d ty sl sm "default")
      as (H' & e & E & He); try done.
    by exists (World H' c t), e.
Qed.

(** * More about the stores *)

(** X7: the constructor of a store is called with the merged
    configuration without its [type]: a field of the entry as the entry
    has it, any other field of the default bundle as the bundle has it;
    the registry is made of that very instance, and both are returned
    in a new dictionary. *)
Theorem store_constructor_arguments H c t l d ty cls :
  module_heap `prefix_of` H →
  H !! l = Some (ODict d) → d !! "type" = Some ty →
  store_class ty = Some cls →
  ∃ conf kwargs,
    make_store (VRef l) (World H c t) =
      (World (H ++ [ ODict ∅; ODict conf; OInst cls [] kwargs;
                     OInst Registry [VRef (length H + 2)] ∅;
                     ODict {[ "store" := VRef (length H + 2);
                              "registry" := VRef (length H + 3) ]} ]) c t,
       Ok (VRef (length H + 4))) ∧
    kwargs !! "type" = None ∧
    ∀ k, k ≠ "type" →
      kwargs !! k =
        match d !! k with
        | Some v => Some v
        | None => bundle_of module_heap default_store ty !! k
        end.
Proof.
  intros Hm Hl Hty Hcls. eexists _, _. split_and!.
  - by eapply make_store_run.
  - apply lookup_delete_eq.
  - intros k Hk. rewrite lookup_delete_ne, lookup_union by done.
    by destruct (d !! k), (bundle_of module_heap default_store ty !! k).
Qed.

Lemma not_dict_subscript h v w :
  heap w = h → ¬ is_dict h v →
  subscript v (VStr "type") w = (w, Raise TypeError).
Proof.
  intros <- Hv. unfold subscript, mbind, M_bind, get_heap. simpl.
  destruct v as [| | |s|vs| |l]; try done.
  destruct (heap w !! l) as [[d|xs|]|] eqn:E; try done.
  destruct Hv. by exists l, d.
Qed.

Lemma make_store_not_dict v w :
  ¬ is_dict (heap w) v → make_store v w = (w, Raise TypeError).
Proof.
  intros Hv. unfold make_store. erewrite bind_raise; [reflexivity|].
  unfold merge_store. erewrite bind_raise; [reflexivity|].
  by eapply not_dict_subscript.
Qed.

Lemma make_location_not_dict v stores w :
  ¬ is_dict (heap w) v → stores ≠ VNone →
  make_location v stores w = (w, Raise TypeError).
Proof.
  intros Hv Hs. unfold make_location.
  erewrite (bind_ok _ _ _ _ stores) by (by destruct stores).
  erewrite bind_raise; [reflexivity|].
  unfold merge_location. erewrite bind_raise; [reflexivity|].
  by eapply not_dict_subscript.
Qed.

(** X8: an entry that is not a dictionary, be it a string, a number, a
    tuple, a list or [None], makes either factory raise [TypeError] at
    once, with nothing allocated. *)
Theorem entry_must_be_a_dictionary v stores w :
  is_data (heap w) v → ¬ is_dict (heap w) v →
  make_store v w = (w, Raise TypeError) ∧
  (stores ≠ VNone → make_location v stores w = (w, Raise TypeError)).
Proof.
  intros _ Hv. split; [by apply make_store_not_dict|].
  intros Hs. by apply make_location_not_dict.
Qed.

Section Stores.

Variable dict_order : gmap string pyval → list string.
Hypothesis dict_order_perm : ∀ d, dict_order d ≡ₚ (map_to_list d).*1.

(** X9: a map of stores in which a store is named ["type"] is taken for
    a single store configuration whose type is that store's dictionary:
    the lookup of the default bundle raises [TypeError]. *)
Theorem store_named_type H c t sl sd r rd :
  module_heap `prefix_of` H →
  H !! sl = Some (ODict sd) →
  sd !! "type" = Some (VRef r) → H !! r = Some (ODict rd) →
  make_stores dict_order (VRef sl) (World H c t) =
    (World (H ++ [ODict {[ "default" := VRef sl ]}; ODict ∅]) c t,
     Raise TypeError).
Proof.
  intros Hm Hsl Hty Hr.
  rewrite (make_stores_single dict_order dict_order_perm H c t sl sd) by eauto.
  erewrite bind_ok by apply alloc_run.
  erewrite bind_raise; [reflexivity|].
  unfold make_store. erewrite bind_raise; [reflexivity|].
  rewrite merge_store_unfold.
  erewrite merge_with_unhashable; try done.
  - by rewrite <- app_assoc.
  - apply lookup_kept. by eapply module_lookup.
  - by apply lookup_kept.
  - simpl. by rewrite (lookup_kept _ [ODict ∅] _ _ (lookup_kept _ _ _ _ Hr)).
Qed.

Lemma invalid_store_raises H c t l d :
  module_heap `prefix_of` H →
  H !! l = Some (ODict d) → invalid_store_entry H d →
  ∃ H' e, make_store (VRef l) (World H c t) = (World H' c t, Raise e) ∧
    (d !! "type" = None → e = KeyError (VStr "type")) ∧
    (∀ ty, d !! "type" = Some ty → e = invalid_store_type ty).
Proof.
  intros Hm Hl [Hty|(ty & Hty & Hh & Hcls)]; unfold make_store.
  - eexists _, _. split_and!.
    + erewrite bind_raise; [reflexivity|].
      rewrite merge_store_unfold. by eapply merge_with_no_type.
    + done.
    + intros ty Hty'. congruence.
  - eexists _, _. split_and!.
    + erewrite bind_ok by (by eapply merge_store_run).
      eapply build_store_invalid; [heap_lookup | | done].
      by apply lookup_union_Some_l.
    + intros Hty'. congruence.
    + intros ty' Hty'. congruence.
Qed.

Lemma invalid_store_entry_grow h k d :
  invalid_store_entry h d → invalid_store_entry (h ++ k) d.
Proof.
  intros [?|(ty & ? & ? & ?)]; [by left|right].
  exists ty. eauto using hashable_app.
Qed.

Lemma stores_loop_invalid H0 sl sd k l d keys : ∀ w,
  module_heap `prefix_of` H0 →
  H0 !! sl = Some (ODict sd) →
  sd !! k = Some (VRef l) → H0 !! l = Some (ODict d) →
  invalid_store_entry H0 d →
  k ∈ keys → H0 `prefix_of` heap w →
  ∃ w' e,
    mapM (λ k, entry ← subscript (VRef sl) k;
               made ← make_store entry;
               mret (k, made)) (VStr <$> keys) w = (w', Raise e) ∧
    trace w' = trace w.
Proof.
  intros w Hm Hsl Hk Hl Hbad. revert w.
  induction keys as [|k' keys IH]; intros w Hin Hpre.
  { by apply elem_of_nil in Hin. }
  rewrite fmap_cons. simpl mapM.
  set (body := λ k : pyval, entry ← subscript (VRef sl) k;
                 made ← make_store entry; mret (k, made)).
  assert (∀ n, keeps no_event n (body (VStr k')) any) as Hkeep.
  { intros n. unfold body. eapply keeps_bind; [apply keeps_subscript|].
    intros entry _. eapply keeps_bind; [apply keeps_make_store|].
    intros made _. by apply keeps_ret. }
  pose proof (keeps_base no_event (body (VStr k')) any H0 w (Hkeep _) Hpre)
    as Hpre1.
  pose proof (keeps_quiet (body (VStr k')) 0 any w (Hkeep _) (Nat.le_0_l _))
    as Htr1.
  destruct (body (VStr k') w) as [w1 [y|e]] eqn:E; simpl in *.
  - apply elem_of_cons in Hin as [<-|Hin].
    { exfalso. destruct Hpre as [h Hw]. destruct w as [H c t].
      simpl in Hw. subst H. unfold body in E.
      erewrite bind_ok in E
        by (eapply subscript_found; [by apply lookup_kept | done]).
      destruct (invalid_store_raises (H0 ++ h) c t l d) as (H' & e & E' & _).
      { by apply prefix_app_r. }
      { by apply lookup_kept. }
      { by apply invalid_store_entry_grow. }
      erewrite bind_raise in E by exact E'. congruence. }
    destruct (IH w1 Hin Hpre1) as (w' & e & E' & Htr).
    exists w', e. split; [|congruence].
    erewrite bind_ok by exact E. by erewrite bind_raise by exact E'.
  - exists w1, e. split; [|done]. by erewrite bind_raise by exact E.
Qed.

(** X10: one store of a map of named stores that has no [type], or a
    [type] that is neither [memory] nor [redis], makes [make_stores]
    raise in whatever order the map yields its names, without an event;
    when it is the only store of the map the error is that store's. *)
Theorem one_invalid_store_fails_the_map H c t sl sd k l d :
  module_heap `prefix_of` H →
  H !! sl = Some (ODict sd) → sd !! "type" = None →
  sd !! k = Some (VRef l) → H !! l = Some (ODict d) →
  invalid_store_entry H d →
  ∃ w' e,
    make_stores dict_order (VRef sl) (World H c t) = (w', Raise e) ∧
    trace w' = t ∧
    (sd = {[ k := VRef l ]} →
       (d !! "type" = None → e = KeyError (VStr "type")) ∧
       (∀ ty, d !! "type" = Some ty → e = invalid_store_type ty)).
Proof.
  intros Hm Hsl Hnone Hk Hl Hbad. unfold make_stores.
  erewrite bind_ok by (by apply contains_dict).
  rewrite bool_decide_eq_false_2 by (rewrite Hnone; by intros [? ?]).
  erewrite (bind_ok _ _ _ _ (VRef sl)) by reflexivity.
  erewrite bind_ok by (by apply iterate_dict).
  destruct (stores_loop_invalid H sl sd k l d (dict_order sd) (World H c t))
    as (w' & e & E & Htr); try done.
  { apply dict_order_elem; eauto. }
  exists w', e. split_and!.
  - by erewrite bind_raise by exact E.
  - done.
  - intros ->. rewrite dict_order_singleton in E by done. simpl in E.
    destruct (invalid_store_raises H c t l d) as (H' & e' & E' & He1 & He2);
      try done.
    erewrite bind_raise in E; last first.
    { erewrite bind_ok
        by (eapply subscript_found; [done | apply lookup_singleton_eq]).
      erewrite bind_raise by exact E'. reflexivity. }
    assert (e = e') as -> by congruence. by split.
Qed.

End Stores.

(** * More about [handle] *)

Section Handle.

Variable dict_order : gmap string pyval → list string.
Variable has_ipv6 : bool.
Variable platform : string.
Variable naiveip_re : string → option groups.
Variable PUSH_SERVER : option pyval.

(** X11: the two guards of [handle] come before the address is read:
    with the IPv6 flag on a Python without IPv6 the command stops with
    that error whatever the address and the other arguments are, and
    otherwise any further positional argument stops it with the usage
    error whatever the address is; [use_ipv6] has been assigned, nothing
    else has changed. *)
Theorem guards_come_first addrport args opt H c t :
  (opt = true → has_ipv6 = false →
     handle dict_order has_ipv6 platform naiveip_re PUSH_SERVER
       addrport args opt (World H c t) =
     (World H (set_use_ipv6 true c) t,
      Raise (CommandError (Msg "Your Python does not support IPv6.")))) ∧
  ((opt = true → has_ipv6 = true) → args ≠ [] →
     handle dict_order has_ipv6 platform naiveip_re PUSH_SERVER
       addrport args opt (World H c t) =
     (World H (set_use_ipv6 opt c) t,
      Raise (CommandError (Fmt "Usage is runpushserver %s"
                             (VStr "[optional port number, or ipaddr:port]"))))).
Proof.
  split.
  - intros -> ->. done.
  - intros Hv6 Hargs. unfold handle, mbind, M_bind. simpl.
    assert (opt && negb has_ipv6 = false) as ->.
    { destruct opt; [by rewrite Hv6|done]. }
    simpl. by destruct args.
Qed.

(** X12: a host that is accepted is shown in the banner as it was
    typed: a bracketed IPv6 literal is stored without its brackets and
    shown with them, any other host is stored and shown as it is; an
    IPv4 address or a name needs no flag, and with the IPv6 flag a name
    (the [fqdn] group) is still accepted.  The port is the one typed. *)
Theorem host_shown_as_typed s m p a H c t :
  s ≠ "" → naiveip_re s = Some m →
  g_port m = Some p → isdigit p = true →
  g_addr m = Some a → a ≠ "" →
  (truthy (g_ipv6 m) = true → ∃ body, body ≠ "" ∧ a = "[" +:+ body +:+ "]") →
  (truthy (g_ipv6 m) = false → use_ipv6 c = true → truthy (g_fqdn m) = true) →
  ∃ c',
    resolve naiveip_re s (World H c t) = (World H c' t, Ok tt) ∧
    shown_addr c' = a ∧ port c' = Some p ∧
    _raw_ipv6 c' = truthy (g_ipv6 m) ∧
    use_ipv6 c' = use_ipv6 c || truthy (g_ipv6 m).
Proof.
  intros Hs Hm Hp Hd Ha Hne H6 Hname.
  rewrite (resolve_unfold_nonempty _ s m p) by done.
  rewrite Ha. simpl. rewrite bool_decide_eq_false_2 by done. simpl.
  destruct (truthy (g_ipv6 m)) eqn:E6.
  - destruct H6 as (body & Hbody & ->); [done|]. simpl.
    rewrite strip_ends_bracketed.
    rewrite bool_decide_eq_false_2 by done. simpl.
    eexists. split_and!; try done. by rewrite orb_true_r.
  - destruct (use_ipv6 c) eqn:Eu; simpl.
    + rewrite Hname by done. simpl. eexists. by split_and!.
    + eexists. by split_and!.
Qed.

End Handle.

(** * What the factories return, and when *)

Lemma get_world v k dflt w w' r : get v k dflt w = (w', r) → w' = w.
Proof.
  unfold get, mbind, M_bind, get_heap.
  destruct v as [| | | | | |l]; try by intros [= <-].
  destruct (heap w !! l) as [[d| |]|]; try by intros [= <-].
  destruct (hashable (heap w) k); [|by intros [= <-]].
  destruct k; by intros [= <-].
Qed.

Lemma subscript_type_inv H c t v w' ty :
  subscript v (VStr "type") (World H c t) = (w', Ok ty) →
  ∃ l d, v = VRef l ∧ H !! l = Some (ODict d) ∧ d !! "type" = Some ty ∧
         w' = World H c t.
Proof.
  intros E. pose proof (subscript_world _ _ _ _ _ E) as ->.
  destruct v as [| | |s|vs| |l];
    try (by rewrite (not_dict_subscript H) in E
           by (done || by intros (? & ? & ? & ?))).
  destruct (H !! l) as [[d|xs|]|] eqn:Hl;
    try (by rewrite (not_dict_subscript H) in E
           by (done || (intros (? & ? & [= <-] & ?); simpl in *; congruence))).
  exists l, d. split_and!; try done.
  destruct (d !! "type") as [x|] eqn:Hty.
  - rewrite (subscript_found _ _ _ _ _ _ _ Hl Hty) in E. congruence.
  - by rewrite (subscript_missing _ _ _ _ _ _ Hl Hty) in E.
Qed.

Lemma subscript_dict_inv H c t l d k w' x :
  H !! l = Some (ODict d) →
  subscript (VRef l) k (World H c t) = (w', Ok x) →
  ∃ s, k = VStr s ∧ d !! s = Some x.
Proof.
  intros Hl. unfold subscript, mbind, M_bind, get_heap. simpl. rewrite Hl.
  destruct (hashable H k); [|done].
  destruct k as [| | |s| | |]; try done.
  destruct (d !! s) eqn:Hs; [|done]. intros [= _ <-]. eauto.
Qed.

Lemma copy_inv H c t v w' r :
  copy v (World H c t) = (w', Ok r) →
  ∃ l d, v = VRef l ∧ H !! l = Some (ODict d) ∧
         w' = World (H ++ [ODict d]) c t ∧ r = VRef (length H).
Proof.
  unfold copy, mbind, M_bind, get_heap. simpl.
  destruct v as [| | | | | |l]; try done.
  destruct (H !! l) as [[d| |]|] eqn:Hl; try done.
  intros [= <- <-]. by exists l, d.
Qed.

(** The merge, read backwards: it returns only on a dictionary with a
    [type], and then with that dictionary laid over some bundle. *)
Lemma merge_with_inv H c t table v w' r :
  merge_with table v (World H c t) = (w', Ok r) →
  ∃ l d ty bd,
    v = VRef l ∧ H !! l = Some (ODict d) ∧ d !! "type" = Some ty ∧
    w' = World (H ++ [ODict ∅; ODict (d ∪ bd)]) c t ∧
    r = VRef (length H + 1).
Proof.
  intros E. unfold merge_with in E.
  apply bind_ok_inv in E as (w1 & ty & E1 & E).
  apply subscript_type_inv in E1 as (l & d & -> & Hl & Hty & ->).
  erewrite bind_ok in E by apply alloc_run.
  apply bind_ok_inv in E as (w2 & b & E2 & E).
  apply get_world in E2 as ->.
  apply bind_ok_inv in E as (w3 & conf & E3 & E).
  apply copy_inv in E3 as (lb & bd & -> & Hlb & -> & ->).
  erewrite bind_ok in E; last first.
  { eapply update_run; heap_lookup. }
  injection E as <- <-.
  exists l, d, ty, bd. split_and!; try done.
  - rewrite insert_grown_0. simpl. by rewrite <- app_assoc.
  - by rewrite length_app.
Qed.

Lemma hashable_alloc_dict h v :
  hashable h v = false → hashable (h ++ [ODict ∅]) v = false.
Proof.
  induction v as [| | | | vs IH | |l] using pyval_ind'; simpl; auto.
  - induction IH as [|v vs Hv _ IHvs]; simpl; [done|].
    rewrite !andb_false_iff. intros [?|?]; auto.
  - destruct (h !! l) as [o|] eqn:E.
    + by rewrite (lookup_app_l_Some _ _ _ _ E).
    + intros _. apply lookup_ge_None in E.
      destruct (decide (l = length h)) as [->|Hne].
      * by rewrite lookup_grown_0.
      * rewrite lookup_ge_None_2; [done|]. rewrite length_app. simpl. lia.
Qed.

Lemma is_dict_dec h v : is_dict h v ∨ ¬ is_dict h v.
Proof.
  destruct v as [| | | | | |l]; try (by right; intros (? & ? & ? & ?)).
  destruct (h !! l) as [[d| |]|] eqn:Hl;
    try (right; intros (? & ? & [= <-] & ?); congruence).
  left. by exists l, d.
Qed.

(** X13: on a value of the settings the store factory returns exactly
    when the value is a dictionary whose [type] is [memory] or [redis];
    on anything else it raises [TypeError] (the value is no dictionary,
    or its [type] is unhashable), [KeyError('type')] or the error about
    the store type, and no other exception; it writes no event and
    leaves the command as it is. *)
Theorem make_store_outcomes H c t v :
  module_heap `prefix_of` H → is_data H v →
  ∃ H' r,
    make_store v (World H c t) = (World H' c t, r) ∧
    match r with
    | Ok _ => valid_store_conf H v
    | Raise e => ¬ valid_store_conf H v ∧ store_error e
    end.
Proof.
  intros Hm _.
  destruct (is_dict_dec H v) as [(l & d & -> & Hl)|Hno]; last first.
  { exists H, (Raise TypeError). split.
    - by apply (make_store_not_dict v (World H c t)).
    - split; [|by left].
      intros (l & d & ? & ? & -> & Hl & _). apply Hno. by exists l, d. }
  destruct (d !! "type") as [ty|] eqn:Hty; last first.
  { destruct (invalid_store_raises H c t l d) as (H' & e & E & He & _);
      [done|done|by left|].
    exists H', (Raise e). split; [done|]. split.
    - intros (? & ? & ? & ? & [= <-] & ? & ? & ?). congruence.
    - right. left. by apply He. }
  destruct (store_class ty) as [cls|] eqn:Hcls.
  { eexists _, _. split; [by eapply make_store_run|].
    by exists l, d, ty, cls. }
  assert (¬ valid_store_conf H (VRef l)) as Hinv.
  { intros (? & ? & ? & ? & [= <-] & ? & ? & ?). congruence. }
  destruct (hashable H ty) eqn:Hh.
  - destruct (invalid_store_raises H c t l d) as (H' & e & E & _ & He);
      [done|done|right; eauto|].
    exists H', (Raise e). split; [done|]. split; [done|].
    right. right. eauto.
  - eexists _, (Raise TypeError). split; [|split; [done|by left]].
    unfold make_store. erewrite bind_raise; [reflexivity|].
    rewrite merge_store_unfold.
    eapply merge_with_unhashable; try done.
    + by eapply module_lookup.
    + by apply hashable_alloc_dict.
Qed.

(** Lines 93-111, read backwards. *)
Lemma build_location_inv H c t l d stores w' r :
  H !! l = Some (ODict d) →
  build_location (VRef l) stores (World H c t) = (w', Ok r) →
  let H1 := <[l := ODict (location_rest d)]> H in
  ∃ cls url store_id entry reg,
    location_class d = Some cls ∧ location_url d = Some url ∧
    d !! "store" = Some store_id ∧
    subscript stores store_id (World H1 c t) = (World H1 c t, Ok entry) ∧
    subscript entry (VStr "registry") (World H1 c t)
      = (World H1 c t, Ok reg) ∧
    w' = World (H1 ++ [ODict (location_rest d ∪ {[ "registry" := reg ]})]) c t ∧
    r = VTuple [url; VClass cls; VRef (length H)].
Proof.
  intros Hl E H1. rewrite build_location_unfold in E.
  destruct (location_class d) as [cls|] eqn:Hcls; last first.
  { destruct (location_dispatch_fails H c t l d Hl Hcls) as (H' & e & E').
    by erewrite bind_raise in E by exact E'. }
  erewrite bind_ok in E by (by eapply location_dispatch_run).
  erewrite bind_ok in E by (eapply pop_default_run; by eapply lookup_put).
  rewrite put_put in E.
  rewrite (after_dispatch_lookup d "prefix") in E by done.
  unfold location_url.
  destruct (default (VStr "") (d !! "prefix")) as [| | |p| | |]; try done.
  erewrite bind_ok in E by reflexivity.
  erewrite bind_ok in E by (eapply pop_default_run; by eapply lookup_put).
  rewrite put_put, lookup_delete_ne, (after_dispatch_lookup d "url") in E
    by done.
  destruct (d !! "store") as [store_id|] eqn:Hstore; last first.
  { erewrite bind_raise in E; [done|].
    eapply pop_missing; [by eapply lookup_put|].
    by rewrite !lookup_delete_ne, after_dispatch_lookup. }
  erewrite bind_ok in E; last first.
  { eapply pop_found; [by eapply lookup_put|].
    by rewrite !lookup_delete_ne, after_dispatch_lookup. }
  rewrite put_put in E. fold (location_rest d) in E. fold H1 in E.
  apply bind_ok_inv in E as (w1 & entry & E1 & E).
  pose proof (subscript_world _ _ _ _ _ E1) as ->.
  apply bind_ok_inv in E as (w2 & reg & E2 & E).
  pose proof (subscript_world _ _ _ _ _ E2) as ->.
  erewrite bind_ok in E by apply alloc_run.
  erewrite bind_ok in E; last first.
  { eapply update_run; [by rewrite lookup_grown_0|].
    apply lookup_kept. by eapply lookup_put. }
  injection E as <- <-.
  eexists cls, _, store_id, entry, reg. split_and!; try done.
  - by rewrite insert_grown_0.
  - unfold H1. by rewrite length_insert.
Qed.

(** The whole of [make_location], read backwards. *)
Lemma make_location_inv H c t v stores w' r :
  make_location v stores (World H c t) = (w', Ok r) →
  stores ≠ VNone ∧
  ∃ l d ty bd cls url reg,
    v = VRef l ∧ H !! l = Some (ODict d) ∧ d !! "type" = Some ty ∧
    location_class (d ∪ bd) = Some cls ∧ location_url (d ∪ bd) = Some url ∧
    is_Some ((d ∪ bd) !! "store") ∧
    w' = World (H ++ [ ODict ∅; ODict (location_rest (d ∪ bd));
                       ODict (location_kwargs (d ∪ bd) reg) ]) c t ∧
    r = VTuple [url; VClass cls; VRef (length H + 2)].
Proof.
  intros E. unfold make_location in E.
  assert (stores = VNone ∨ stores ≠ VNone) as [->|Hs]
    by (destruct stores; auto).
  - exfalso. erewrite bind_ok in E by apply alloc_run.
    apply bind_ok_inv in E as (w1 & conf & E1 & E).
    rewrite merge_location_unfold in E1.
    apply merge_with_inv in E1 as (l & d & ty & bd & -> & Hl & Hty & -> & ->).
    apply build_location_inv with (d := d ∪ bd) in E; [|heap_lookup].
    destruct E as (cls & url & sid & entry & reg & _ & _ & _ & E & _).
    apply (subscript_dict_inv _ _ _ _ ∅) in E as (s & _ & Hs).
    + by rewrite lookup_empty in Hs.
    + rewrite lookup_put_ne by (rewrite !length_app; simpl; lia).
      apply lookup_kept. by rewrite lookup_grown_0.
  - split; [done|].
    erewrite (bind_ok _ _ _ _ stores) in E by (by destruct stores).
    apply bind_ok_inv in E as (w1 & conf & E1 & E).
    rewrite merge_location_unfold in E1.
    apply merge_with_inv in E1 as (l & d & ty & bd & -> & Hl & Hty & -> & ->).
    apply build_location_inv with (d := d ∪ bd) in E; [|heap_lookup].
    destruct E as (cls & url & sid & entry & reg & Hcls & Hurl & Hsid & _ & _
                   & -> & ->).
    exists l, d, ty, bd, cls, url, reg. split_and!; try done.
    + rewrite insert_grown. simpl. rewrite <- app_assoc. done.
    + by rewrite length_app.
Qed.

(** X14: whenever the location factory returns, it returns a triple of
    a URL pattern, one of the three handler classes and a new dictionary
    of keyword arguments; that dictionary has a [registry] and has none
    of [type], [prefix], [url] and [store], nor [polling] for a
    subscriber; the entry was a dictionary with a [type], and no event
    was written. *)
Theorem make_location_returns H c t v stores w' r :
  make_location v stores (World H c t) = (w', Ok r) →
  ∃ url cls k kwargs,
    r = VTuple [url; VClass cls; VRef k] ∧ handler_class cls ∧
    length H ≤ k ∧ heap w' !! k = Some (ODict kwargs) ∧
    is_Some (kwargs !! "registry") ∧
    kwargs !! "type" = None ∧ kwargs !! "prefix" = None ∧
    kwargs !! "url" = None ∧ kwargs !! "store" = None ∧
    (cls ≠ Publisher → kwargs !! "polling" = None) ∧
    is_dict H v ∧ H `prefix_of` heap w' ∧ self w' = c ∧ trace w' = t.
Proof.
  intros E. apply make_location_inv in E as (_ & E).
  destruct E as (l & d & ty & bd & cls & url & reg & -> & Hl & Hty & Hcls
                 & Hurl & Hstore & -> & ->).
  exists url, cls, (length H + 2), (location_kwargs (d ∪ bd) reg).
  pose proof (location_kwargs_lookup (d ∪ bd) reg) as Hk.
  split_and!; try done.
  - unfold location_class in Hcls. unfold handler_class.
    repeat case_match; simplify_eq; auto.
  - lia.
  - simpl. by rewrite lookup_grown.
  - unfold location_kwargs. rewrite lookup_union.
    rewrite lookup_singleton_eq.
    by destruct (location_rest (d ∪ bd) !! "registry").
  - rewrite Hk by done. unfold location_rest.
    rewrite !lookup_delete_ne by done. by eapply after_dispatch_type.
  - rewrite Hk by done. unfold location_rest.
    rewrite !lookup_delete_ne by done. apply lookup_delete_eq.
  - rewrite Hk by done. unfold location_rest.
    rewrite !lookup_delete_ne by done. apply lookup_delete_eq.
  - rewrite Hk by done. unfold location_rest. apply lookup_delete_eq.
  - intros Hpub. rewrite Hk by done. unfold location_rest.
    rewrite !lookup_delete_ne by done.
    rewrite (after_dispatch_polling _ cls) by done. by destruct cls.
  - by exists l, d.
  - by apply prefix_app_r.
Qed.

(** X15: called without a store map (the default [stores=None]) the
    location factory never returns: the map it makes for itself is
    empty, and every entry stops at the latest at the lookup of its
    store, with [KeyError] of the store's name when the rest of the
    entry is in order.  No event is written. *)
Theorem location_needs_a_store_map :
  (∀ v w, ∃ w' e,
     make_location v VNone w = (w', Raise e) ∧ trace w' = trace w) ∧
  (∀ H c t l d ty s cls url,
     module_heap `prefix_of` H →
     H !! l = Some (ODict d) → d !! "type" = Some ty → hashable H ty = true →
     location_conf d ty !! "store" = Some (VStr s) →
     location_class (location_conf d ty) = Some cls →
     location_url (location_conf d ty) = Some url →
     ∃ H', make_location (VRef l) VNone (World H c t) =
             (World H' c t, Raise (KeyError (VStr s)))).
Proof.
  split.
  - intros v w.
    pose proof (keeps_quiet (make_location v VNone) 0 any w
                  (keeps_make_location _ _ _ _) (Nat.le_0_l _)) as Htr.
    destruct (make_location v VNone w) as [w' [r|e]] eqn:E.
    + destruct w as [H c t]. by apply make_location_inv in E as [? _].
    + by exists w', e.
  - intros H c t l d ty s cls url Hm Hl Hty Hh Hstore Hcls Hurl.
    destruct (make_location_missing_store
                (H ++ [ODict ∅]) c t l d ty (length H) ∅ s)
      as (H' & e & E & He); try done.
    + by apply prefix_app_r.
    + by apply lookup_kept.
    + by apply hashable_app.
    + by rewrite lookup_grown_0.
    + exists H'. rewrite <- (He cls url Hcls Hurl).
      unfold make_location in *.
      erewrite bind_ok by apply alloc_run.
      by erewrite (bind_ok _ _ _ _ (VRef (length H))) in E by reflexivity.
Qed.

(** * Worked instances of the further properties *)

(** A setting that gives the port ["9000"] against the command line's
    ["8001"]. *)
Lemma settings_override_command_line_witness :
  ∃ H' handlers,
    run listed_order "linux" (Some (VRef 10))
      (World heap_with_port_setting local_command []) =
      (World H' local_command
         [ banner "linux" local_command; SetLogLevel "INFO";
           Listen (VRef handlers) (VStr "9000") (VStr "127.0.0.1");
           IOLoopStart ],
       Ok tt).
Proof.
  destruct (settings_override_command_line listed_order "linux"
              listed_order_perm heap_with_port_setting local_command [] 10
              {[ "port" := VStr "9000" ]})
    as (H' & handlers & E).
  - by eexists.
  - reflexivity.
  - reflexivity.
  - reflexivity.
  - exists H', handlers. rewrite E. do 2 f_equal.
Defined.

(** The subscriber entry with [timeout: 30]: the timeout is passed on,
    the polling is not. *)
Lemma location_fields_forwarded_witness :
  ∃ rest kwargs,
    make_location (VRef 14) (VRef 13)
      (World heap_with_location fresh_command []) =
      (World (heap_with_location ++ [ODict ∅; ODict rest; ODict kwargs])
         fresh_command [],
       Ok (VTuple [VStr "/feed/(.+)"; VClass Subscriber;
                   VRef (length heap_with_location + 2)])) ∧
    kwargs !! "registry" = Some (VRef 11) ∧
    kwargs !! "polling" = None ∧
    kwargs !! "timeout" = Some (VInt 30).
Proof.
  destruct (location_fields_forwarded heap_with_location fresh_command [] 14
              subscriber_entry (VStr "subscriber") 13 Subscriber
              (VStr "/feed/(.+)") "default" (VRef 11))
    as (rest & kwargs & E & Hreg & _ & _ & _ & _ & Hpoll & Hrest).
  - by eexists.
  - reflexivity.
  - reflexivity.
  - reflexivity.
  - vm_compute. reflexivity.
  - vm_compute. reflexivity.
  - vm_compute. reflexivity.
  - exists {[ "default" := VRef 12 ]}, 12,
      {[ "store" := VRef 10; "registry" := VRef 11 ]}.
    split_and!; reflexivity.
  - exists rest, kwargs. split_and!.
    + exact E.
    + exact Hreg.
    + exact Hpoll.
    + rewrite Hrest; [vm_compute; reflexivity|].
      unfold location_keys. rewrite !not_elem_of_cons.
      split_and!; try discriminate. apply not_elem_of_nil.
Defined.

(** The prefix ["/feed/"] gives the pattern ["/feed/(.+)"]. *)
Lemma location_pattern_witness :
  ∃ W kwargs,
    make_location (VRef 14) (VRef 13)
      (World heap_with_location fresh_command []) =
      (W, Ok (VTuple [VStr "/feed/(.+)"; VClass Subscriber; kwargs])).
Proof.
  destruct (location_pattern heap_with_location fresh_command [] 14
              subscriber_entry (VStr "subscriber") 13 Subscriber
              "default" (VRef 11))
    as (_ & Hprefix & _).
  - by eexists.
  - reflexivity.
  - reflexivity.
  - reflexivity.
  - vm_compute. reflexivity.
  - vm_compute. reflexivity.
  - exists {[ "default" := VRef 12 ]}, 12,
      {[ "store" := VRef 10; "registry" := VRef 11 ]}.
    split_and!; reflexivity.
  - apply (Hprefix "/feed/"); vm_compute; reflexivity.
Defined.

(** [polling: interval] selects [Subscriber]. *)
Lemma handler_selection_witness :
  ∃ W kwargs,
    make_location (VRef 14) (VRef 13)
      (World heap_with_location fresh_command []) =
      (W, Ok (VTuple [VStr "/feed/(.+)"; VClass Subscriber; kwargs])).
Proof.
  destruct (handler_selection heap_with_location fresh_command [] 14
              subscriber_entry (VStr "subscriber") 13
              (VStr "/feed/(.+)") "default" (VRef 11))
    as (_ & _ & Hinterval).
  - by eexists.
  - reflexivity.
  - reflexivity.
  - vm_compute. reflexivity.
  - vm_compute. reflexivity.
  - exists {[ "default" := VRef 12 ]}, 12,
      {[ "store" := VRef 10; "registry" := VRef 11 ]}.
    split_and!; reflexivity.
  - apply Hinterval; reflexivity.
Defined.

(** The subscriber entry names no store and is bound to ["default"]:
    its handler gets the registry at address 11. *)
Lemma location_falls_back_to_default_store_witness :
  ∃ rest kwargs,
    make_location (VRef 14) (VRef 13)
      (World heap_with_location fresh_command []) =
      (World (heap_with_location ++ [ODict ∅; ODict rest; ODict kwargs])
         fresh_command [],
       Ok (VTuple [VStr "/feed/(.+)"; VClass Subscriber;
                   VRef (length heap_with_location + 2)])) ∧
    kwargs !! "registry" = Some (VRef 11) ∧
    kwargs !! "store" = None.
Proof.
  destruct (location_falls_back_to_default_store heap_with_location
              fresh_command [] 14 subscriber_entry (VStr "subscriber") 13)
    as [Hbound _].
  - by eexists.
  - reflexivity.
  - reflexivity.
  - by right.
  - reflexivity.
  - apply (Hbound Subscriber (VStr "/feed/(.+)") (VRef 11)).
    + vm_compute. reflexivity.
    + vm_compute. reflexivity.
    + exists {[ "default" := VRef 12 ]}, 12,
        {[ "store" := VRef 10; "registry" := VRef 11 ]}.
      split_and!; reflexivity.
Defined.

(** The memory store with [max_messages: 50] is constructed with that
    value and without [type]. *)
Lemma store_constructor_arguments_witness :
  ∃ conf kwargs,
    make_store (VRef 10) (World heap_with_store fresh_command []) =
      (World (heap_with_store ++
                [ ODict ∅; ODict conf; OInst MemoryStore [] kwargs;
                  OInst Registry [VRef (length heap_with_store + 2)] ∅;
                  ODict {[ "store" := VRef (length heap_with_store + 2);
                           "registry" := VRef (length heap_with_store + 3) ]} ])
         fresh_command [],
       Ok (VRef (length heap_with_store + 4))) ∧
    kwargs !! "type" = None ∧
    kwargs !! "max_messages" = Some (VInt 50).
Proof.
  destruct (store_constructor_arguments heap_with_store fresh_command [] 10
              {[ "type" := VStr "memory"; "max_messages" := VInt 50 ]}
              (VStr "memory") MemoryStore)
    as (conf & kwargs & E & Hty & Hk).
  - by eexists.
  - reflexivity.
  - reflexivity.
  - reflexivity.
  - exists conf, kwargs. split_and!; [exact E | exact Hty |].
    rewrite Hk by discriminate. reflexivity.
Defined.

(** The string ["memory"] in place of a store entry. *)
Lemma entry_must_be_a_dictionary_witness :
  make_store (VStr "memory") (World module_heap fresh_command []) =
    (World module_heap fresh_command [], Raise TypeError).
Proof.
  refine (proj1 (entry_must_be_a_dictionary (VStr "memory") VNone
                   (World module_heap fresh_command []) I _)).
  intros (l & d & Hv & _). discriminate.
Defined.

(** The stores [{"type": {type: redis}, "cache": ...}]. *)
Lemma store_named_type_witness :
  make_stores listed_order (VRef 10)
    (World heap_with_store_named_type fresh_command []) =
    (World (heap_with_store_named_type ++
              [ODict {[ "default" := VRef 10 ]}; ODict ∅]) fresh_command [],
     Raise TypeError).
Proof.
  apply (store_named_type listed_order listed_order_perm
           heap_with_store_named_type fresh_command [] 10
           {[ "type" := VRef 11; "cache" := VRef 11 ]} 11
           {[ "type" := VStr "redis" ]}).
  - by eexists.
  - reflexivity.
  - reflexivity.
  - reflexivity.
Defined.

(** The stores [{"a": {type: memory}, "b": {type: sqlite}}]. *)
Lemma one_invalid_store_fails_the_map_witness :
  ∃ w' e,
    make_stores listed_order (VRef 12)
      (World heap_with_bad_store fresh_command []) = (w', Raise e) ∧
    trace w' = [].
Proof.
  destruct (one_invalid_store_fails_the_map listed_order listed_order_perm
              heap_with_bad_store fresh_command [] 12
              {[ "a" := VRef 10; "b" := VRef 11 ]} "b" 11
              {[ "type" := VStr "sqlite" ]})
    as (w' & e & E & Ht & _).
  - by eexists.
  - reflexivity.
  - reflexivity.
  - reflexivity.
  - reflexivity.
  - right. exists (VStr "sqlite"). split_and!; reflexivity.
  - by exists w', e.
Defined.

(** A second positional argument, with an address that is no address. *)
Lemma guards_come_first_witness :
  handle listed_order true "linux" django_naiveip_re None
    "not a port" ["8000"] false (World module_heap fresh_command []) =
    (World module_heap (set_use_ipv6 false fresh_command) [],
     Raise (CommandError (Fmt "Usage is runpushserver %s"
                            (VStr "[optional port number, or ipaddr:port]")))).
Proof.
  refine (proj2 (guards_come_first listed_order true "linux" django_naiveip_re
                   None "not a port" ["8000"] false
                   module_heap fresh_command []) _ _).
  - discriminate.
  - discriminate.
Defined.

(** A name with the IPv6 flag set. *)
Lemma host_shown_as_typed_witness :
  ∃ c',
    resolve django_naiveip_re "push.example.org:80"
      (World module_heap (Command true false None None) []) =
      (World module_heap c' [], Ok tt) ∧
    shown_addr c' = "push.example.org" ∧ port c' = Some "80" ∧
    _raw_ipv6 c' = false ∧ use_ipv6 c' = true.
Proof.
  apply (host_shown_as_typed django_naiveip_re "push.example.org:80"
           (Groups (Some "push.example.org") None None
              (Some "push.example.org") (Some "80"))
           "80" "push.example.org" module_heap
           (Command true false None None) []).
  - discriminate.
  - vm_compute. reflexivity.
  - reflexivity.
  - reflexivity.
  - reflexivity.
  - discriminate.
  - discriminate.
  - reflexivity.
Defined.

(** The entry of heap address 10 with its one override is valid. *)
Lemma make_store_outcomes_witness :
  ∃ H' r,
    make_store (VRef 10) (World heap_with_store fresh_command []) =
      (World H' fresh_command [], r) ∧
    match r with
    | Ok _ => valid_store_conf heap_with_store (VRef 10)
    | Raise e => ¬ valid_store_conf heap_with_store (VRef 10) ∧ store_error e
    end.
Proof.
  apply (make_store_outcomes heap_with_store fresh_command [] (VRef 10)).
  - by eexists.
  - exact I.
Defined.

(** The binding of the subscriber entry. *)
Lemma make_location_returns_witness :
  ∃ cls k kwargs,
    handler_class cls ∧
    heap (make_location (VRef 14) (VRef 13)
            (World heap_with_location fresh_command [])).1 !! k
      = Some (ODict kwargs) ∧
    is_Some (kwargs !! "registry") ∧ kwargs !! "type" = None.
Proof.
  pose proof (make_location_run heap_with_location fresh_command [] 14
                subscriber_entry (VStr "subscriber") 13
                {[ "default" := VRef 12 ]} Subscriber (VStr "/feed/(.+)")
                "default" 12 {[ "store" := VRef 10; "registry" := VRef 11 ]}
                (VRef 11)) as E.
  simpl in E.
  destruct (make_location_returns heap_with_location fresh_command []
              (VRef 14) (VRef 13) _ _
              (E ltac:(by eexists) eq_refl eq_refl eq_refl eq_refl eq_refl
                 eq_refl eq_refl eq_refl eq_refl eq_refl))
    as (url & cls & k & kwargs & _ & Hcls & _ & Hk & Hreg & Hty & _).
  exists cls, k, kwargs.
  rewrite E; [done | by eexists | reflexivity..].
Defined.

(** The subscriber entry bound without a store map. *)
Lemma location_needs_a_store_map_witness :
  ∃ H',
    make_location (VRef 14) VNone (World heap_with_location fresh_command []) =
      (World H' fresh_command [], Raise (KeyError (VStr "default"))).
Proof.
  apply (proj2 location_needs_a_store_map heap_with_location fresh_command []
           14 subscriber_entry (VStr "subscriber") "default" Subscriber
           (VStr "/feed/(.+)")).
  - by eexists.
  - reflexivity.
  - reflexivity.
  - reflexivity.
  - vm_compute. reflexivity.
  - vm_compute. reflexivity.
  - vm_compute. reflexivity.
Defined.

(** The setting [(("port", "9000"),)]. *)
Lemma settings_as_pairs_witness :
  ∃ H' handlers,
    run listed_order "linux" (Some (VTuple [VTuple [VStr "port"; VStr "9000"]]))
      (World module_heap local_command []) =
      (World H' local_command
         [ banner "linux" local_command; SetLogLevel "INFO";
           Listen (VRef handlers) (VStr "9000") (VStr "127.0.0.1");
           IOLoopStart ],
       Ok tt).
Proof.
  apply (settings_as_pairs listed_order "linux" listed_order_perm
           module_heap local_command [] (VStr "9000")).
  reflexivity.
Defined.
